(** * The morphing engine of the tree of light

    A shallow embedding of the transition controller (the [useFrame]
    callbacks of the layers), of the image candidate extractor
    ([imageToPoints]), of the foliage layer's image-buffer effect and of the
    application's installation of extraction results.

    Numbers.  A JavaScript number is modelled as a real number or one of the
    three non-finite values; finite arithmetic is exact (no rounding, no
    overflow).  Pixel arithmetic and the produced coordinates are exact
    rationals. *)

From Stdlib Require Import Reals Lra Lia List Bool Arith ZArith QArith Qabs Qround.
From Stdlib Require Lqa.
Import ListNotations.

Set Implicit Arguments.

(** ** types.ts *)

Inductive InteractionMode := SCATTERED | TREE | IMAGE.

Definition mode_eqb (a b : InteractionMode) : bool :=
  match a, b with
  | SCATTERED, SCATTERED | TREE, TREE | IMAGE, IMAGE => true
  | _, _ => false
  end.

(** ** JavaScript numbers *)

Module Num.
Local Open Scope R_scope.

Inductive number := Fin (r : R) | PosInf | NegInf | NaN.

Definition sgn (r : R) : comparison :=
  match total_order_T r 0 with
  | inleft (left _) => Lt
  | inleft (right _) => Eq
  | inright _ => Gt
  end.

(** unary [-a] *)
Definition neg (a : number) : number :=
  match a with
  | Fin r => Fin (- r)
  | PosInf => NegInf
  | NegInf => PosInf
  | NaN => NaN
  end.

(** [a + b] *)
Definition add (a b : number) : number :=
  match a, b with
  | NaN, _ | _, NaN => NaN
  | Fin x, Fin y => Fin (x + y)
  | PosInf, NegInf | NegInf, PosInf => NaN
  | PosInf, _ | _, PosInf => PosInf
  | NegInf, _ | _, NegInf => NegInf
  end.

(** [a - b] *)
Definition sub (a b : number) : number := add a (neg b).

(** [a * b]: zero times an infinity is NaN *)
Definition mul (a b : number) : number :=
  match a, b with
  | NaN, _ | _, NaN => NaN
  | Fin x, Fin y => Fin (x * y)
  | Fin x, PosInf | PosInf, Fin x =>
      match sgn x with Lt => NegInf | Eq => NaN | Gt => PosInf end
  | Fin x, NegInf | NegInf, Fin x =>
      match sgn x with Lt => PosInf | Eq => NaN | Gt => NegInf end
  | PosInf, PosInf | NegInf, NegInf => PosInf
  | PosInf, NegInf | NegInf, PosInf => NegInf
  end.

(** [Math.exp] *)
Definition Math_exp (a : number) : number :=
  match a with
  | Fin r => Fin (exp r)
  | PosInf => PosInf
  | NegInf => Fin 0
  | NaN => NaN
  end.

Definition isFinite (a : number) : Prop := exists r, a = Fin r.

(** a finite value of the closed unit interval *)
Definition unit_interval (a : number) : Prop :=
  exists r, a = Fin r /\ 0 <= r <= 1.

(** a finite value at distance at most [eps] of [target] *)
Definition near (eps target : R) (a : number) : Prop :=
  exists r, a = Fin r /\ Rabs (r - target) <= eps.

(** [after] is finite and its distance to [target] is the distance of
    [before] scaled by [exp (- rate * T)] *)
Definition decays (rate T target : R) (before after : number) : Prop :=
  exists r0 r, before = Fin r0 /\ after = Fin r /\
    Rabs (r - target) = Rabs (r0 - target) * exp (- (rate * T)).

End Num.
Import Num.

(** ** THREE.MathUtils, as the three.js library defines the two functions:
    [lerp (x, y, t) = (1 - t) * x + t * y] and
    [damp (x, y, lambda, dt) = lerp (x, y, 1 - Math.exp (- lambda * dt))]. *)

Module MathUtils.

Definition lerp (x y t : number) : number :=
  add (mul (sub (Fin 1) t) x) (mul t y).

Definition damp (x y lambda dt : number) : number :=
  lerp x y (sub (Fin 1) (Math_exp (mul (neg lambda) dt))).

End MathUtils.

(** The update rule in the words of the specification:
    [value <- target + (value - target) * exp (- rate * deltaTime)]. *)
Definition spec_update (value target rate deltaTime : R) : R :=
  (target + (value - target) * exp (- rate * deltaTime))%R.

(** The number [mode === m ? a : b] of the layers. *)
Definition pick (mode m : InteractionMode) (a b : R) : R :=
  if mode_eqb mode m then a else b.

(** ** utils/ImageToParticles: the image candidate extractor *)

Module ImageToParticles.

(** A [Float32Array]: its entries are exact rationals here. *)
Definition Float32Array := list Q.

(** [new Float32Array (n)] *)
Definition zeros (n : nat) : Float32Array := repeat 0%Q n.

(** [a[i] = v]; a typed array ignores a write outside its bounds *)
Fixpoint store (a : Float32Array) (i : nat) (v : Q) : Float32Array :=
  match a, i with
  | [], _ => []
  | _ :: a', O => v :: a'
  | x :: a', S i' => x :: store a' i' v
  end.

Definition Qlt_bool (a b : Q) : bool := negb (Qle_bool b a).

(** *** The browser the extractor runs in *)

(** a decoded image: its natural width and height *)
Record HTMLImageElement := { img_width : positive; img_height : positive }.

(** What the browser answers during one extraction: whether the source
    decodes ([onload]) or not ([onerror]), whether the canvas gives a 2D
    context, the bytes [getImageData] reads back from the canvas the image
    was drawn on (four per pixel, none missing), and the successive results
    of [Math.random ()]. *)
Record Browser := {
  decode : option HTMLImageElement;
  context2d : bool;
  pixels : list Z;
  random : nat -> Q
}.

(** [Math.random ()] answers in [[0, 1)] *)
Definition random_ok (b : Browser) : Prop :=
  forall k, (0 <= random b k)%Q /\ (random b k < 1)%Q.

(** [ctx.getImageData (0, 0, sw, sh)], as the HTML standard defines it: an
    IndexSizeError exception when [sw] or [sh] is zero, the bytes of the
    canvas otherwise. *)
Definition getImageData (b : Browser) (sw sh : nat) : option (list Z) :=
  if (sw =? 0)%nat || (sh =? 0)%nat then None else Some (pixels b).

(** The state the promise of an extraction ends in.  [Pending]: an
    exception left the [onload] handler, so neither [resolve] nor [reject]
    is ever called. *)
Inductive PromiseState :=
  | Fulfilled (value : Float32Array)
  | Rejected
  | Pending.

(** *** The analysis of the pixels *)

Definition width : nat := 400.

(** [Math.floor (width * (img.height / img.width))] *)
Definition canvasHeight (img : HTMLImageElement) : nat :=
  Z.to_nat
    (Qfloor (inject_Z (Z.of_nat width)
             * (inject_Z (Zpos (img_height img)) / inject_Z (Zpos (img_width img))))).

Section Analysis.

Variable data : list Z.
Variable height : nat.

(** [data[idx]]; the two helpers below index inside the array whenever
    [data] holds the four bytes of each of the [width * height] pixels *)
Definition at_ (idx : nat) : Z := nth idx data 0%Z.

(** the coordinates are loop counters, never negative *)
Definition getLum (x y : nat) : Q :=
  if (width <=? x)%nat || (height <=? y)%nat then 255%Q
  else
    let idx := ((y * width + x) * 4)%nat in
    (0.299 * inject_Z (at_ idx) + 0.587 * inject_Z (at_ (idx + 1))
     + 0.114 * inject_Z (at_ (idx + 2)))%Q.

Definition getAlpha (x y : nat) : Z :=
  if (width <=? x)%nat || (height <=? y)%nat then 0%Z
  else at_ ((y * width + x) * 4 + 3).

Definition isDark (x y : nat) : bool := Qlt_bool (getLum x y) 180.

Definition isEdge (x y : nat) : bool :=
  Qlt_bool 15 (Qabs (getLum x y - getLum (x + 1) y))
  || Qlt_bool 15 (Qabs (getLum x y - getLum x (y + 1))).

(** the body of the inner loop: what it pushes on [candidates] *)
Definition visit (x y : nat) : list nat :=
  if (getAlpha x y <? 50)%Z then []
  else if isDark x y || isEdge x y then [x; y]
  else [].

(** the two nested loops: [candidates], coordinates interleaved *)
Definition analyze : list nat :=
  flat_map (fun y => flat_map (fun x => visit x y) (seq 0 width)) (seq 0 height).

End Analysis.

(** the pixel [(x, y)] was pushed on the interleaved array [c] *)
Fixpoint pushed (x y : nat) (c : list nat) : Prop :=
  match c with
  | px :: py :: c' => (px = x /\ py = y) \/ pushed x y c'
  | _ => False
  end.

(** an array of interleaved coordinates: an even number of entries *)
Inductive interleaved : list nat -> Prop :=
  | interleaved_nil : interleaved []
  | interleaved_push x y c : interleaved c -> interleaved (x :: y :: c).

(** *** The resampling *)

Definition scale : Q := 16.

Section Sampling.

Variable b : Browser.
Variable candidates : list nat.
Variable height : nat.

Definition aspectRatio : Q :=
  (inject_Z (Z.of_nat height) / inject_Z (Z.of_nat width))%Q.

(** [Math.floor (Math.random () * (candidates.length / 2)) * 2], the random
    number being the [k]-th of the run *)
Definition sampleIndex (k : nat) : nat :=
  (Z.to_nat
     (Qfloor (random b k
              * (inject_Z (Z.of_nat (length candidates)) / 2))) * 2)%nat.

(** iteration [i] of the sampling loop *)
Definition sample (output : Float32Array) (i : nat) : Float32Array :=
  let index := sampleIndex (2 * i) in
  let px := nth index candidates 0%nat in
  let py := nth (index + 1) candidates 0%nat in
  let nx := (inject_Z (Z.of_nat px) / inject_Z (Z.of_nat width) - 0.5)%Q in
  let ny := (inject_Z (Z.of_nat py) / inject_Z (Z.of_nat height) - 0.5)%Q in
  let output := store output (i * 3) (nx * scale)%Q in
  let output := store output (i * 3 + 1) (- ny * scale * aspectRatio + 2.0)%Q in
  store output (i * 3 + 2) ((random b (2 * i + 1) - 0.5) * 0.1)%Q.

Definition resample (targetCount : nat) : Float32Array :=
  fold_left sample (seq 0 targetCount) (zeros (targetCount * 3)).

End Sampling.

(** *** imageToPoints *)

Definition onload (b : Browser) (img : HTMLImageElement) (targetCount : nat)
  : PromiseState :=
  let height := canvasHeight img in
  if negb (context2d b) then Fulfilled (zeros (targetCount * 3))
  else
    match getImageData b width height with
    | None => Pending
    | Some data =>
        let candidates := analyze data height in
        let output := zeros (targetCount * 3) in
        if (length candidates =? 0)%nat then Fulfilled output
        else Fulfilled (resample b candidates height targetCount)
    end.

Definition onerror (targetCount : nat) : PromiseState :=
  Fulfilled (zeros (targetCount * 3)).

Definition imageToPoints (b : Browser) (targetCount : nat) : PromiseState :=
  match decode b with
  | Some img => onload b img targetCount
  | None => onerror targetCount
  end.

(** one of the failure paths of the specification was taken: the image did
    not decode, the 2D context was unavailable, or no candidate was found *)
Definition failure_path (b : Browser) : Prop :=
  match decode b with
  | None => True
  | Some img =>
      context2d b = false \/
      (exists data, getImageData b width (canvasHeight img) = Some data /\
                    analyze data (canvasHeight img) = [])
  end.

(** A test image, one row of 400 opaque pixels: luminance 200 on the
    left half, 250 on the right half, both above the dark-ink threshold. *)
Definition boundary_image : list Z :=
  flat_map (fun x => if (x <? 200)%nat
                     then [200; 200; 200; 255]%Z
                     else [250; 250; 250; 255]%Z) (seq 0 width).

End ImageToParticles.

(** ** FoliageLayer: the layer that renders the image silhouette *)

Module FoliageLayer.
Import ImageToParticles.

Record t := { progressRef : number; imageMixRef : number }.

Definition mount (mode : InteractionMode) : t :=
  {| progressRef := Fin (pick mode TREE 1 0);
     imageMixRef := Fin (pick mode IMAGE 1 0) |}.

Definition targetProgress (mode : InteractionMode) : R := pick mode SCATTERED 0 1.
Definition targetImageMix (mode : InteractionMode) : R := pick mode IMAGE 1 0.
Definition progressRate : R := 2.0.
Definition imageMixRate : R := 1.5.

Definition useFrame (mode : InteractionMode) (delta : number) (st : t) : t :=
  {| progressRef :=
       MathUtils.damp (progressRef st) (Fin (targetProgress mode)) (Fin progressRate) delta;
     imageMixRef :=
       MathUtils.damp (imageMixRef st) (Fin (targetImageMix mode)) (Fin imageMixRate) delta |}.

Definition bounded (st : t) : Prop :=
  unit_interval (progressRef st) /\ unit_interval (imageMixRef st).

Definition settled (eps : R) (mode : InteractionMode) (st : t) : Prop :=
  near eps (targetProgress mode) (progressRef st) /\
  near eps (targetImageMix mode) (imageMixRef st).

Definition decayed (mode : InteractionMode) (T : R) (st0 st : t) : Prop :=
  decays progressRate T (targetProgress mode) (progressRef st0) (progressRef st) /\
  decays imageMixRate T (targetImageMix mode) (imageMixRef st0) (imageMixRef st).

(** *** The image-configuration buffer.  [PARTICLE_COUNT] comes from the
    constants module. *)

Section Buffers.

Variable PARTICLE_COUNT : nat.

Definition count : nat := PARTICLE_COUNT.

(** the attributes of the layer's geometry the effect reads or writes *)
Record BufferGeometry := { aTreePos : Float32Array; aImagePos : Float32Array }.

(** the geometry as first rendered: [aImagePos] is the tree buffer *)
Definition render (treePositions : Float32Array) : BufferGeometry :=
  {| aTreePos := treePositions; aImagePos := treePositions |}.

Definition setAttribute_aImagePos (g : BufferGeometry) (a : Float32Array)
  : BufferGeometry :=
  {| aTreePos := aTreePos g; aImagePos := a |}.

(** the effect run when [imagePoints] changes; [geometryRef] is
    [geometryRef.current], [None] when it is not attached *)
Definition useEffect (geometryRef : option BufferGeometry)
    (treePositions : Float32Array) (imagePoints : option Float32Array)
  : option BufferGeometry :=
  match geometryRef with
  | Some g =>
      let dataToUse :=
        match imagePoints with
        | Some p => if (length p =? count * 3)%nat then p else treePositions
        | None => treePositions
        end in
      Some (setAttribute_aImagePos g dataToUse)
  | None => None
  end.

End Buffers.

End FoliageLayer.

(** ** The layers with a single progress scalar: GoldParticleLayer (the
    spiral ribbon of beads), SnowFloor and FallingSnow.  The three [useFrame]
    callbacks are the same text. *)

Module GoldParticleLayer.

Record t := { progressRef : number }.

Definition mount (mode : InteractionMode) : t :=
  {| progressRef := Fin (pick mode TREE 1 0) |}.

Definition target (mode : InteractionMode) : R := pick mode TREE 1 0.
Definition rate : R := 2.0.

Definition useFrame (mode : InteractionMode) (delta : number) (st : t) : t :=
  {| progressRef := MathUtils.damp (progressRef st) (Fin (target mode)) (Fin rate) delta |}.

Definition bounded (st : t) : Prop := unit_interval (progressRef st).
Definition settled (eps : R) (mode : InteractionMode) (st : t) : Prop :=
  near eps (target mode) (progressRef st).
Definition decayed (mode : InteractionMode) (T : R) (st0 st : t) : Prop :=
  decays rate T (target mode) (progressRef st0) (progressRef st).

End GoldParticleLayer.

Module SnowFloor.

Record t := { progressRef : number }.

Definition mount (mode : InteractionMode) : t :=
  {| progressRef := Fin (pick mode TREE 1 0) |}.

Definition target (mode : InteractionMode) : R := pick mode TREE 1 0.
Definition rate : R := 2.0.

Definition useFrame (mode : InteractionMode) (delta : number) (st : t) : t :=
  {| progressRef := MathUtils.damp (progressRef st) (Fin (target mode)) (Fin rate) delta |}.

Definition bounded (st : t) : Prop := unit_interval (progressRef st).
Definition settled (eps : R) (mode : InteractionMode) (st : t) : Prop :=
  near eps (target mode) (progressRef st).
Definition decayed (mode : InteractionMode) (T : R) (st0 st : t) : Prop :=
  decays rate T (target mode) (progressRef st0) (progressRef st).

End SnowFloor.

Module FallingSnow.

Record t := { progressRef : number }.

Definition mount (mode : InteractionMode) : t :=
  {| progressRef := Fin (pick mode TREE 1 0) |}.

Definition target (mode : InteractionMode) : R := pick mode TREE 1 0.
Definition rate : R := 2.0.

Definition useFrame (mode : InteractionMode) (delta : number) (st : t) : t :=
  {| progressRef := MathUtils.damp (progressRef st) (Fin (target mode)) (Fin rate) delta |}.

Definition bounded (st : t) : Prop := unit_interval (progressRef st).
Definition settled (eps : R) (mode : InteractionMode) (st : t) : Prop :=
  near eps (target mode) (progressRef st).
Definition decayed (mode : InteractionMode) (T : R) (st0 st : t) : Prop :=
  decays rate T (target mode) (progressRef st0) (progressRef st).

End FallingSnow.

(** ** MorphingInstancedMesh: the instanced lights and ornaments.
    [meshRef] tells whether [meshRef.current] is attached; the callback
    returns at once when it is not. *)

Module MorphingInstancedMesh.

Record t := { meshRef : bool; progress : number; visibilityScale : number }.

Definition mount (mode : InteractionMode) : t :=
  {| meshRef := true;
     progress := Fin (pick mode TREE 1 0);
     visibilityScale := Fin 1 |}.

Definition target (mode : InteractionMode) : R := pick mode TREE 1 0.
Definition targetVis (mode : InteractionMode) : R := pick mode IMAGE 0 1.
Definition progressRate : R := 2.5.
Definition visibilityRate : R := 3.0.

Definition useFrame (mode : InteractionMode) (delta : number) (st : t) : t :=
  if negb (meshRef st) then st
  else
    {| meshRef := meshRef st;
       progress :=
         MathUtils.damp (progress st) (Fin (target mode)) (Fin progressRate) delta;
       visibilityScale :=
         MathUtils.damp (visibilityScale st) (Fin (targetVis mode)) (Fin visibilityRate) delta |}.

Definition bounded (st : t) : Prop :=
  unit_interval (progress st) /\ unit_interval (visibilityScale st).
Definition attached (st : t) : Prop := meshRef st = true.
Definition settled (eps : R) (mode : InteractionMode) (st : t) : Prop :=
  near eps (target mode) (progress st) /\
  near eps (targetVis mode) (visibilityScale st).
Definition decayed (mode : InteractionMode) (T : R) (st0 st : t) : Prop :=
  decays progressRate T (target mode) (progress st0) (progress st) /\
  decays visibilityRate T (targetVis mode) (visibilityScale st0) (visibilityScale st).

End MorphingInstancedMesh.

(** ** GiftBox *)

Module GiftBox.

Record t := { groupRef : bool; progress : number; visScale : number }.

Definition mount (mode : InteractionMode) : t :=
  {| groupRef := true;
     progress := Fin (pick mode TREE 1 0);
     visScale := Fin 1 |}.

Definition target (mode : InteractionMode) : R := pick mode TREE 1 0.
Definition targetVis (mode : InteractionMode) : R := pick mode IMAGE 0 1.
Definition progressRate : R := 2.
Definition visibilityRate : R := 3.

Definition useFrame (mode : InteractionMode) (delta : number) (st : t) : t :=
  if negb (groupRef st) then st
  else
    {| groupRef := groupRef st;
       progress :=
         MathUtils.damp (progress st) (Fin (target mode)) (Fin progressRate) delta;
       visScale :=
         MathUtils.damp (visScale st) (Fin (targetVis mode)) (Fin visibilityRate) delta |}.

Definition bounded (st : t) : Prop :=
  unit_interval (progress st) /\ unit_interval (visScale st).
Definition attached (st : t) : Prop := groupRef st = true.
Definition settled (eps : R) (mode : InteractionMode) (st : t) : Prop :=
  near eps (target mode) (progress st) /\
  near eps (targetVis mode) (visScale st).
Definition decayed (mode : InteractionMode) (T : R) (st0 st : t) : Prop :=
  decays progressRate T (target mode) (progress st0) (progress st) /\
  decays visibilityRate T (targetVis mode) (visScale st0) (visScale st).

End GiftBox.

(** ** GoldSpiralTree: the scene.  It owns the trunk, whose vertical scale
    is damped by the component's own [useFrame], and mounts the snow floor,
    the falling snow, the foliage, the bead ribbon, four instanced meshes
    (lights, red and gold ornaments, green lights) and the gift boxes. *)

Module GoldSpiralTree.

Record t := {
  snowFloor : SnowFloor.t;
  fallingSnow : FallingSnow.t;
  foliage : FoliageLayer.t;
  goldParticles : GoldParticleLayer.t;
  meshes : list MorphingInstancedMesh.t;
  gifts : list GiftBox.t;
  trunkRef : bool;
  trunkScaleY : number
}.

Definition giftCount : nat := 18 + 5.

Definition mount (mode : InteractionMode) : t :=
  {| snowFloor := SnowFloor.mount mode;
     fallingSnow := FallingSnow.mount mode;
     foliage := FoliageLayer.mount mode;
     goldParticles := GoldParticleLayer.mount mode;
     meshes := repeat (MorphingInstancedMesh.mount mode) 4;
     gifts := repeat (GiftBox.mount mode) giftCount;
     trunkRef := true;
     trunkScaleY := Fin 1 |}.

Definition targetScale (mode : InteractionMode) : R := pick mode TREE 1 0.
Definition trunkRate : R := 3.

(** one animation frame: the inputs every [useFrame] callback receives *)
Record Frame := { mode : InteractionMode; delta : number }.

Definition useFrame (f : Frame) (s : t) : t :=
  {| snowFloor := SnowFloor.useFrame (mode f) (delta f) (snowFloor s);
     fallingSnow := FallingSnow.useFrame (mode f) (delta f) (fallingSnow s);
     foliage := FoliageLayer.useFrame (mode f) (delta f) (foliage s);
     goldParticles := GoldParticleLayer.useFrame (mode f) (delta f) (goldParticles s);
     meshes := map (MorphingInstancedMesh.useFrame (mode f) (delta f)) (meshes s);
     gifts := map (GiftBox.useFrame (mode f) (delta f)) (gifts s);
     trunkRef := trunkRef s;
     trunkScaleY :=
       if trunkRef s
       then MathUtils.damp (trunkScaleY s) (Fin (targetScale (mode f))) (Fin trunkRate) (delta f)
       else trunkScaleY s |}.

(** the scene after the frames [fs], and the scenes after each of them *)
Fixpoint run (fs : list Frame) (s : t) : t :=
  match fs with
  | [] => s
  | f :: fs' => run fs' (useFrame f s)
  end.

Fixpoint trace (fs : list Frame) (s : t) : list t :=
  match fs with
  | [] => []
  | f :: fs' => useFrame f s :: trace fs' (useFrame f s)
  end.

(** the time a frame adds, and the time of a list of frames *)
Definition elapsed (f : Frame) : R :=
  match delta f with Fin d => d | _ => 0%R end.

Definition total (fs : list Frame) : R :=
  fold_right (fun f acc => (elapsed f + acc)%R) 0%R fs.

(** a frame with a finite, non-negative [deltaTime] *)
Definition timed (f : Frame) : Prop :=
  exists d, delta f = Fin d /\ (0 <= d)%R.

(** a frame of mode [m] with a finite, non-negative [deltaTime] *)
Definition held (m : InteractionMode) (f : Frame) : Prop :=
  mode f = m /\ timed f.

(** every transition scalar of the scene is in the unit interval *)
Definition bounded (s : t) : Prop :=
  SnowFloor.bounded (snowFloor s) /\
  FallingSnow.bounded (fallingSnow s) /\
  FoliageLayer.bounded (foliage s) /\
  GoldParticleLayer.bounded (goldParticles s) /\
  Forall MorphingInstancedMesh.bounded (meshes s) /\
  Forall GiftBox.bounded (gifts s) /\
  unit_interval (trunkScaleY s).

(** the object references the callbacks test are attached *)
Definition attached (s : t) : Prop :=
  Forall MorphingInstancedMesh.attached (meshes s) /\
  Forall GiftBox.attached (gifts s) /\
  trunkRef s = true.

(** every transition scalar is within [eps] of its target under [m] *)
Definition settled (eps : R) (m : InteractionMode) (s : t) : Prop :=
  SnowFloor.settled eps m (snowFloor s) /\
  FallingSnow.settled eps m (fallingSnow s) /\
  FoliageLayer.settled eps m (foliage s) /\
  GoldParticleLayer.settled eps m (goldParticles s) /\
  Forall (MorphingInstancedMesh.settled eps m) (meshes s) /\
  Forall (GiftBox.settled eps m) (gifts s) /\
  near eps (targetScale m) (trunkScaleY s).

(** every transition scalar of [s] is the one of [s0] with its distance to
    the target under [m] scaled by [exp (- rate * T)], [rate] its own rate *)
Definition decayed (m : InteractionMode) (T : R) (s0 s : t) : Prop :=
  SnowFloor.decayed m T (snowFloor s0) (snowFloor s) /\
  FallingSnow.decayed m T (fallingSnow s0) (fallingSnow s) /\
  FoliageLayer.decayed m T (foliage s0) (foliage s) /\
  GoldParticleLayer.decayed m T (goldParticles s0) (goldParticles s) /\
  Forall2 (MorphingInstancedMesh.decayed m T) (meshes s0) (meshes s) /\
  Forall2 (GiftBox.decayed m T) (gifts s0) (gifts s) /\
  decays trunkRate T (targetScale m) (trunkScaleY s0) (trunkScaleY s).

(** every transition scalar a callback has just written is NaN *)
Definition poisoned (s : t) : Prop :=
  SnowFloor.progressRef (snowFloor s) = NaN /\
  FallingSnow.progressRef (fallingSnow s) = NaN /\
  FoliageLayer.progressRef (foliage s) = NaN /\
  FoliageLayer.imageMixRef (foliage s) = NaN /\
  GoldParticleLayer.progressRef (goldParticles s) = NaN /\
  Forall (fun a => MorphingInstancedMesh.meshRef a = true ->
                   MorphingInstancedMesh.progress a = NaN /\
                   MorphingInstancedMesh.visibilityScale a = NaN) (meshes s) /\
  Forall (fun g => GiftBox.groupRef g = true ->
                   GiftBox.progress g = NaN /\ GiftBox.visScale g = NaN) (gifts s) /\
  (trunkRef s = true -> trunkScaleY s = NaN).

(** The layers of the scene, and the target of the visibility scalar of the
    layers whose frame callback has one. *)
Inductive Layer := Foliage | Beads | InstancedMesh | Gift | Floor | Snow.

Definition decorative (l : Layer) : bool :=
  match l with
  | Beads | InstancedMesh | Gift => true
  | Foliage | Floor | Snow => false
  end.

Definition visibilityTarget (l : Layer) (m : InteractionMode) : option R :=
  match l with
  | InstancedMesh => Some (MorphingInstancedMesh.targetVis m)
  | Gift => Some (GiftBox.targetVis m)
  | Foliage | Beads | Floor | Snow => None
  end.

Definition progressTarget (l : Layer) (m : InteractionMode) : R :=
  match l with
  | Foliage => FoliageLayer.targetProgress m
  | Beads => GoldParticleLayer.target m
  | InstancedMesh => MorphingInstancedMesh.target m
  | Gift => GiftBox.target m
  | Floor => SnowFloor.target m
  | Snow => FallingSnow.target m
  end.

End GoldSpiralTree.

(** ** App: the installation of extraction results *)

Module App.
Import ImageToParticles.

Record UIState := {
  interactionMode : InteractionMode;
  isPlayingMusic : bool;
  isCameraEnabled : bool
}.

Record t := {
  uiState : UIState;
  imagePoints : option Float32Array;
  lastNonImageModeRef : InteractionMode
}.

Definition init : t :=
  {| uiState := {| interactionMode := TREE;
                   isPlayingMusic := false;
                   isCameraEnabled := false |};
     imagePoints := None;
     lastNonImageModeRef := TREE |}.

Definition setMode (u : UIState) (m : InteractionMode) : UIState :=
  {| interactionMode := m;
     isPlayingMusic := isPlayingMusic u;
     isCameraEnabled := isCameraEnabled u |}.

(** [v !== 0] for an array element, [None] being [undefined] (an index past
    the end) *)
Definition notZero (v : option Q) : bool :=
  match v with
  | Some q => negb (Qeq_bool q 0)
  | None => true
  end.

(** the loop that sets [hasValidPoints]: three entries per step; past the
    end of the array an entry is [undefined], which is not [0] *)
Fixpoint hasValidPoints (points : Float32Array) : bool :=
  match points with
  | [] => false
  | a :: b :: c :: rest =>
      notZero (Some a) || notZero (Some b) || notZero (Some c)
      || hasValidPoints rest
  | a :: rest => notZero (Some a) || notZero (nth_error rest 0) || notZero (nth_error rest 1)
  end.

Section Handlers.

Variable PARTICLE_COUNT : nat.
(** the length of [DEFAULT_IMAGE_SRC], [0] when it is empty *)
Variable DEFAULT_IMAGE_SRC_length : nat.

(** the continuation of the default image's extraction *)
Definition defaultImageThen (points : Float32Array) (st : t) : t :=
  if hasValidPoints points
  then {| uiState := uiState st;
          imagePoints := Some points;
          lastNonImageModeRef := lastNonImageModeRef st |}
  else st.

(** the continuation of an uploaded image's extraction *)
Definition uploadThen (points : Float32Array) (st : t) : t :=
  if hasValidPoints points
  then {| uiState := setMode (uiState st) IMAGE;
          imagePoints := Some points;
          lastNonImageModeRef := lastNonImageModeRef st |}
  else st.

Definition withUi (st : t) (u : UIState) : t :=
  {| uiState := u;
     imagePoints := imagePoints st;
     lastNonImageModeRef := lastNonImageModeRef st |}.

Definition onHandOpen (st : t) : t :=
  let prev := uiState st in
  if negb (mode_eqb (interactionMode prev) SCATTERED)
     && negb (mode_eqb (interactionMode prev) IMAGE)
  then withUi st (setMode prev SCATTERED) else st.

Definition onHandClose (st : t) : t :=
  let prev := uiState st in
  if negb (mode_eqb (interactionMode prev) TREE)
     && negb (mode_eqb (interactionMode prev) IMAGE)
  then withUi st (setMode prev TREE) else st.

Definition onHandLGesture (active : bool) (st : t) : t :=
  let prev := uiState st in
  if active && negb (mode_eqb (interactionMode prev) IMAGE)
  then withUi st (setMode prev IMAGE)
  else if negb active && mode_eqb (interactionMode prev) IMAGE
  then withUi st (setMode prev (lastNonImageModeRef st))
  else st.

(** the effect that tracks the last mode that is not IMAGE *)
Definition trackMode (st : t) : t :=
  if negb (mode_eqb (interactionMode (uiState st)) IMAGE)
  then {| uiState := uiState st;
          imagePoints := imagePoints st;
          lastNonImageModeRef := interactionMode (uiState st) |}
  else st.

(** What happens to the application: the extraction of the default image
    or of an uploaded one ends in the browser [b]; the overlay sets the
    interface state; a hand gesture is recognised. *)
Inductive Event :=
  | DefaultImage (b : Browser)
  | ImageUpload (b : Browser)
  | SetUiState (u : UIState)
  | HandOpen
  | HandClose
  | HandLGesture (active : bool).

(** the continuation runs when, and only when, the promise is fulfilled *)
Definition settle (k : Float32Array -> t -> t) (p : PromiseState) (st : t) : t :=
  match p with
  | Fulfilled points => k points st
  | Rejected | Pending => st
  end.

Definition handle (e : Event) (st : t) : t :=
  match e with
  | DefaultImage b =>
      if (100 <? DEFAULT_IMAGE_SRC_length)%nat
      then settle defaultImageThen (imageToPoints b PARTICLE_COUNT) st
      else st
  | ImageUpload b => settle uploadThen (imageToPoints b PARTICLE_COUNT) st
  | SetUiState u => withUi st u
  | HandOpen => onHandOpen st
  | HandClose => onHandClose st
  | HandLGesture active => onHandLGesture active st
  end.

Definition step (st : t) (e : Event) : t := trackMode (handle e st).

Definition run (es : list Event) : t := fold_left step es init.

End Handlers.

(** the buffer has an entry that is not zero *)
Definition hasNonZero (points : Float32Array) : Prop :=
  exists q, In q points /\ ~ (q == 0)%Q.

Definition allZero (points : Float32Array) : Prop :=
  Forall (fun q => (q == 0)%Q) points.

(** the installed image point set is absent or has a non-zero entry *)
Definition valid (st : t) : Prop :=
  imagePoints st = None \/
  exists points, imagePoints st = Some points /\ hasNonZero points.

End App.

(** ** Overlay: the buttons of the interface *)

Module Overlay.
Import App.

Definition toggleScatter (prev : UIState) : UIState :=
  setMode prev
    (if mode_eqb (interactionMode prev) SCATTERED then TREE else SCATTERED).

Definition toggleImageMode (prev : UIState) : UIState :=
  setMode prev (if mode_eqb (interactionMode prev) IMAGE then TREE else IMAGE).

Definition toggleCamera (prev : UIState) : UIState :=
  {| interactionMode := interactionMode prev;
     isPlayingMusic := isPlayingMusic prev;
     isCameraEnabled := negb (isCameraEnabled prev) |}.

Inductive Button := CameraToggle | ImageToggle | ScatterToggle.

(** the button is rendered: the image toggle only once an image is loaded
    ([hasImageLoaded = !!imagePoints]), the scatter toggle only outside
    IMAGE mode *)
Definition rendered (b : Button) (st : App.t) : bool :=
  match b with
  | CameraToggle => true
  | ImageToggle => match imagePoints st with Some _ => true | None => false end
  | ScatterToggle => negb (mode_eqb (interactionMode (uiState st)) IMAGE)
  end.

Definition onClick (b : Button) (prev : UIState) : UIState :=
  match b with
  | CameraToggle => toggleCamera prev
  | ImageToggle => toggleImageMode prev
  | ScatterToggle => toggleScatter prev
  end.

(** a click on [b]: nothing happens when the button is not on screen *)
Definition click (b : Button) (st : App.t) : option Event :=
  if rendered b st then Some (SetUiState (onClick b (uiState st))) else None.

End Overlay.

(** ** HandController: from hand landmarks to callbacks *)

Module HandController.
Import ImageToParticles.

(** a landmark of the tracked hand; only [x] and [y] are read *)
Record Landmark := { x : Q; y : Q }.

(** [landmarks[i]], for the landmarks of one hand *)
Definition Hand := nat -> Landmark.

Inductive Gesture := NEUTRAL | L_SHAPE | OPEN | CLOSED.

Definition gesture_eqb (a b : Gesture) : bool :=
  match a, b with
  | NEUTRAL, NEUTRAL | L_SHAPE, L_SHAPE | OPEN, OPEN | CLOSED, CLOSED => true
  | _, _ => false
  end.

Section Pose.

Variable landmarks : Hand.

Definition isFingerUp (tipIdx pipIdx : nat) : bool :=
  Qlt_bool (y (landmarks tipIdx)) (y (landmarks pipIdx)).

Definition isFingerCurled (tipIdx pipIdx : nat) : bool :=
  Qlt_bool (y (landmarks pipIdx)) (y (landmarks tipIdx)).

(** [Math.hypot (dx, dy) > 0.05], both sides squared (the left one is not
    negative) *)
Definition isThumbOpen : bool :=
  let thumbTip := landmarks 4%nat in
  let indexMCP := landmarks 5%nat in
  let dx := (x thumbTip - x indexMCP)%Q in
  let dy := (y thumbTip - y indexMCP)%Q in
  Qlt_bool (0.05 * 0.05) (dx * dx + dy * dy).

Definition extendedCount : nat :=
  (if isFingerUp 8 6 then 1 else 0) + (if isFingerUp 12 10 then 1 else 0)
  + (if isFingerUp 16 14 then 1 else 0) + (if isFingerUp 20 18 then 1 else 0).

Definition currentGesture : Gesture :=
  let indexUp := isFingerUp 8 6 in
  let middleCurled := isFingerCurled 12 10 in
  let ringCurled := isFingerCurled 16 14 in
  let pinkyCurled := isFingerCurled 20 18 in
  if isThumbOpen && indexUp && middleCurled && ringCurled && pinkyCurled
  then L_SHAPE
  else if (4 <=? extendedCount)%nat then OPEN
  else if (extendedCount =? 0)%nat then CLOSED
  else NEUTRAL.

End Pose.

(** the references of the component *)
Record t := {
  previousXRef : option Q;
  gestureHistoryRef : list Gesture;
  isLActiveRef : bool
}.

Definition init : t :=
  {| previousXRef := None; gestureHistoryRef := []; isLActiveRef := false |}.

(** the callbacks the component was given *)
Inductive Callback :=
  | HandMoveRight (delta : Q)
  | HandMoveLeft (delta : Q)
  | HandLGesture (active : bool)
  | HandOpen
  | HandClose.

Definition sensitivity : Q := 0.005.

(** movement detection on the wrist *)
Definition movement (previousX : option Q) (currentX : Q) : list Callback :=
  match previousX with
  | None => []
  | Some p =>
      let delta := (currentX - p)%Q in
      if Qlt_bool sensitivity delta then [HandMoveRight (Qabs delta)]
      else if Qlt_bool delta (- sensitivity) then [HandMoveLeft (Qabs delta)]
      else []
  end.

(** [history.push (g); if (history.length > 10) history.shift ()] *)
Definition remember (history : list Gesture) (g : Gesture) : list Gesture :=
  let history := history ++ [g] in
  if (10 <? length history)%nat then tl history else history.

(** [history.filter (h => h === g).length] *)
Definition occurrences (g : Gesture) (history : list Gesture) : nat :=
  length (filter (gesture_eqb g) history).

(** the toggle of the L gesture, with its hysteresis: the new value of
    [isLActiveRef] and the callback fired *)
Definition toggleL (lCount : nat) (active : bool) : bool * list Callback :=
  if (6 <? lCount)%nat then
    if negb active then (true, [HandLGesture true]) else (active, [])
  else if (lCount <? 3)%nat then
    if active then (false, [HandLGesture false]) else (active, [])
  else (active, []).

Definition openClose (active : bool) (openCount closedCount : nat) : list Callback :=
  if negb active
  then (if (7 <? openCount)%nat then [HandOpen] else [])
       ++ (if (7 <? closedCount)%nat then [HandClose] else [])
  else [].

(** [onResults]: the new references and the callbacks fired, in order;
    [multiHandLandmarks] is empty when no hand is tracked *)
Definition onResults (multiHandLandmarks : list Hand) (st : t) : t * list Callback :=
  match multiHandLandmarks with
  | [] => (st, [])
  | landmarks :: _ =>
      let currentX := x (landmarks 0%nat) in
      let moves := movement (previousXRef st) currentX in
      let history := remember (gestureHistoryRef st) (currentGesture landmarks) in
      let lCount := occurrences L_SHAPE history in
      let openCount := occurrences OPEN history in
      let closedCount := occurrences CLOSED history in
      let '(active, lCallbacks) := toggleL lCount (isLActiveRef st) in
      ({| previousXRef := Some currentX;
          gestureHistoryRef := history;
          isLActiveRef := active |},
       moves ++ lCallbacks ++ openClose active openCount closedCount)
  end.

(** the results of successive frames: the final references and all the
    callbacks fired *)
Fixpoint run (results : list (list Hand)) (st : t) : t * list Callback :=
  match results with
  | [] => (st, [])
  | r :: results' =>
      let '(st1, c1) := onResults r st in
      let '(st2, c2) := run results' st1 in
      (st2, c1 ++ c2)
  end.

(** the flags of the L-gesture callbacks among [cs] *)
Fixpoint lFlags (cs : list Callback) : list bool :=
  match cs with
  | [] => []
  | HandLGesture active :: cs' => active :: lFlags cs'
  | _ :: cs' => lFlags cs'
  end.

(** [l] alternates, starting with [first] *)
Fixpoint alternates (first : bool) (l : list bool) : Prop :=
  match l with
  | [] => True
  | b :: l' => b = first /\ alternates (negb first) l'
  end.

Definition isMove (c : Callback) : bool :=
  match c with
  | HandMoveRight _ | HandMoveLeft _ => true
  | _ => false
  end.

End HandController.

(** ** The application with its overlay and its hand controller *)

Module Session.
Import App.

Section Session.

Variable PARTICLE_COUNT : nat.
Variable DEFAULT_IMAGE_SRC_length : nat.

Record t := { app : App.t; hands : HandController.t }.

Definition init : t := {| app := App.init; hands := HandController.init |}.

(** what reaches the application: the results of the hand tracker, a
    click on the overlay, the end of an extraction *)
Inductive Input :=
  | Results (multiHandLandmarks : list HandController.Hand)
  | Click (b : Overlay.Button)
  | DefaultLoaded (b : ImageToParticles.Browser)
  | Uploaded (b : ImageToParticles.Browser).

(** the application's callback behind a callback of the controller; the
    two movement callbacks turn the camera and leave the state alone *)
Definition dispatch (c : HandController.Callback) : option Event :=
  match c with
  | HandController.HandMoveRight _ | HandController.HandMoveLeft _ => None
  | HandController.HandLGesture active => Some (HandLGesture active)
  | HandController.HandOpen => Some HandOpen
  | HandController.HandClose => Some HandClose
  end.

Definition deliver (a : App.t) (c : HandController.Callback) : App.t :=
  match dispatch c with
  | Some e => App.step PARTICLE_COUNT DEFAULT_IMAGE_SRC_length a e
  | None => a
  end.

Definition step (s : t) (i : Input) : t :=
  match i with
  | Results r =>
      let '(h, cs) := HandController.onResults r (hands s) in
      {| app := fold_left deliver cs (app s); hands := h |}
  | Click b =>
      match Overlay.click b (app s) with
      | Some e => {| app := App.step PARTICLE_COUNT DEFAULT_IMAGE_SRC_length (app s) e;
                     hands := hands s |}
      | None => s
      end
  | DefaultLoaded b =>
      {| app := App.step PARTICLE_COUNT DEFAULT_IMAGE_SRC_length (app s) (DefaultImage b);
         hands := hands s |}
  | Uploaded b =>
      {| app := App.step PARTICLE_COUNT DEFAULT_IMAGE_SRC_length (app s) (ImageUpload b);
         hands := hands s |}
  end.

Definition run (inputs : list Input) : t := fold_left step inputs init.

(** an input that is neither the image toggle nor an extraction *)
Definition handsOnly (i : Input) : bool :=
  match i with
  | Results _ => true
  | Click Overlay.ImageToggle => false
  | Click _ => true
  | DefaultLoaded _ | Uploaded _ => false
  end.

(** an input that is not a result of the hand tracker *)
Definition screenOnly (i : Input) : bool :=
  match i with
  | Results _ => false
  | Click _ | DefaultLoaded _ | Uploaded _ => true
  end.

End Session.

End Session.

(** ** The coordinates the sampling loop stores *)

Module Sampling.
Import ImageToParticles.

Section Coordinates.

Variable b : Browser.
Variable candidates : list nat.
Variable height : nat.

(** the candidate iteration [i] draws *)
Definition px (i : nat) : nat := nth (sampleIndex b candidates (2 * i)) candidates 0%nat.
Definition py (i : nat) : nat :=
  nth (sampleIndex b candidates (2 * i) + 1) candidates 0%nat.

(** the three entries iteration [i] stores *)
Definition coordX (i : nat) : Q :=
  ((inject_Z (Z.of_nat (px i)) / inject_Z (Z.of_nat width) - 0.5) * scale)%Q.

Definition coordY (i : nat) : Q :=
  (- (inject_Z (Z.of_nat (py i)) / inject_Z (Z.of_nat height) - 0.5)
   * scale * aspectRatio height + 2.0)%Q.

Definition coordZ (i : nat) : Q := ((random b (2 * i + 1) - 0.5) * 0.1)%Q.

End Coordinates.

End Sampling.

(** ** Invariants of the application and of a session *)

Module Invariants.
Import App.

(** the mode the L gesture restores is never IMAGE, and it is the current
    mode whenever that one is not IMAGE *)
Definition tracked (st : App.t) : Prop :=
  lastNonImageModeRef st <> IMAGE /\
  (interactionMode (uiState st) <> IMAGE ->
   lastNonImageModeRef st = interactionMode (uiState st)).

(** the application is in IMAGE mode exactly while the controller holds
    the L gesture active *)
Definition inStep (s : Session.t) : Prop :=
  tracked (Session.app s) /\
  (interactionMode (uiState (Session.app s)) = IMAGE <->
   HandController.isLActiveRef (Session.hands s) = true).

(** IMAGE mode is only held with an image installed *)
Definition imageBacked (a : App.t) : Prop :=
  interactionMode (uiState a) = IMAGE -> imagePoints a <> None.

End Invariants.

(** ** Successive supplies of image points to the foliage *)

Module FoliageSupplies.
Import ImageToParticles FoliageLayer.

(** the geometry after the effect ran for each supply in turn *)
Definition supplied (N : nat) (treePositions : Float32Array)
    (g : option BufferGeometry) (supplies : list (option Float32Array))
  : option BufferGeometry :=
  fold_left (fun g p => useEffect N g treePositions p) supplies g.

End FoliageSupplies.

(** ** Vectors and the per-particle arithmetic, on finite numbers
    (real numbers: the transition scalars, the times and the random numbers
    that reach this code are finite) *)

Module Three.
Local Open Scope R_scope.

Record Vector3 := { x : R; y : R; z : R }.

Definition vec (a b c : R) : Vector3 := {| x := a; y := b; z := c |}.

(** [THREE.MathUtils.lerp] *)
Definition lerp (a b t : R) : R := (1 - t) * a + t * b.

(** [this.lerp (v, alpha)]: each component moves by [(v - this) * alpha] *)
Definition Vector3_lerp (this v : Vector3) (alpha : R) : Vector3 :=
  {| x := x this + (x v - x this) * alpha;
     y := y this + (y v - y this) * alpha;
     z := z this + (z v - z this) * alpha |}.

(** [this.lerpVectors (v1, v2, alpha)] *)
Definition lerpVectors (v1 v2 : Vector3) (alpha : R) : Vector3 :=
  {| x := x v1 + (x v2 - x v1) * alpha;
     y := y v1 + (y v2 - y v1) * alpha;
     z := z v1 + (z v2 - z v1) * alpha |}.

Definition multiplyScalar (v : Vector3) (s : R) : Vector3 :=
  {| x := x v * s; y := y v * s; z := z v * s |}.

(** an object's position, Euler rotation and scale: what [updateMatrix]
    composes into its matrix *)
Record Object3D := { position : Vector3; rotation : Vector3; scale : Vector3 }.

(** GLSL [mix] *)
Definition mix (a b t : R) : R := a * (1 - t) + b * t.

Definition mix3 (a b : Vector3) (t : R) : Vector3 :=
  {| x := mix (x a) (x b) t; y := mix (y a) (y b) t; z := mix (z a) (z b) t |}.

(** every component is in the unit interval *)
Definition unit3 (v : Vector3) : Prop :=
  0 <= x v <= 1 /\ 0 <= y v <= 1 /\ 0 <= z v <= 1.

End Three.

(** ** GemStar: the star at the top *)

Module GemStar.
Local Open Scope R_scope.
Import Three.

Record t := {
  groupRef : bool;
  group : Object3D;
  meshRef : bool;
  emissiveIntensity : R
}.

Definition targetPos (mode : InteractionMode) : Vector3 :=
  if mode_eqb mode TREE then vec 0 7.8 0 else vec 0 15 0.

Definition targetScale (mode : InteractionMode) : Vector3 :=
  if mode_eqb mode IMAGE then vec 0 0 0 else vec 1 1 1.

Definition turn (mode : InteractionMode) (delta : R) (r : Vector3) : Vector3 :=
  if mode_eqb mode SCATTERED
  then {| x := x r; y := y r + delta * 0.5; z := z r + delta * 0.2 |}
  else {| x := lerp (x r) 0 (delta * 2);
          y := y r + delta * 0.2;
          z := lerp (z r) 0 (delta * 2) |}.

Definition useFrame (mode : InteractionMode) (elapsedTime delta : R) (st : t) : t :=
  {| groupRef := groupRef st;
     group :=
       if groupRef st
       then {| position := Vector3_lerp (position (group st)) (targetPos mode) (delta * 2);
               scale := Vector3_lerp (scale (group st)) (targetScale mode) (delta * 2);
               rotation := turn mode delta (rotation (group st)) |}
       else group st;
     meshRef := meshRef st;
     emissiveIntensity :=
       if meshRef st
       then let breath := 1.0 + sin (elapsedTime * 1.5) * 0.2 in
            0.8 + breath * 0.5
       else emissiveIntensity st |}.

End GemStar.

(** ** The mixer of the instanced meshes and of the gift boxes *)

Module Mixer.
Local Open Scope R_scope.
Import Three.

(** the data of an instance; its colour plays no part in the motion *)
Record InstanceData := {
  treePos : Vector3;
  scatterPos : Vector3;
  iscale : Vector3;
  irotation : option Vector3
}.

(** the body of [particles.forEach] in the frame callback: what it leaves
    in the shared [dummy], whose matrix instance [i] then gets; in flight
    the rotation about [z] is the one [dummy] already had *)
Definition particle (progress visibilityScale floatIntensity time : R)
    (dummy : Object3D) (i : nat) (p : InstanceData) : Object3D :=
  let position := lerpVectors (scatterPos p) (treePos p) progress in
  let currentScale := multiplyScalar (iscale p) visibilityScale in
  if Rlt_dec progress 1 then
    let intensity := (1 - progress) * floatIntensity in
    {| position :=
         {| x := x position + cos (time * 0.3 + INR i) * intensity * 0.02;
            y := y position + sin (time * 0.5 + INR i) * intensity * 0.05;
            z := z position |};
       rotation :=
         {| x := sin (time * 0.2 + INR i) * 0.5 * intensity;
            y := cos (time * 0.3 + INR i) * 0.5 * intensity;
            z := z (rotation dummy) |};
       scale := currentScale |}
  else
    {| position := position;
       rotation := match irotation p with Some r => r | None => vec 0 0 0 end;
       scale := currentScale |}.

(** the loop: the matrices of the instances from index [i] on *)
Fixpoint instances (progress visibilityScale floatIntensity time : R)
    (dummy : Object3D) (i : nat) (particles : list InstanceData) : list Object3D :=
  match particles with
  | [] => []
  | p :: rest =>
      let d := particle progress visibilityScale floatIntensity time dummy i p in
      d :: instances progress visibilityScale floatIntensity time d (S i) rest
  end.

(** the pose of an instance at rest on the tree *)
Definition settled (visibilityScale : R) (p : InstanceData) : Object3D :=
  {| position := treePos p;
     rotation := match irotation p with Some r => r | None => vec 0 0 0 end;
     scale := multiplyScalar (iscale p) visibilityScale |}.

(** how far the pose [d] of an instance is from the interpolated position *)
Definition floats_within (progress floatIntensity : R) (p : InstanceData) (d : Object3D)
  : Prop :=
  let base := lerpVectors (scatterPos p) (treePos p) progress in
  let intensity := (1 - progress) * floatIntensity in
  Rabs (x (position d) - x base) <= intensity * 0.02 /\
  Rabs (y (position d) - y base) <= intensity * 0.05 /\
  z (position d) = z base /\
  Rabs (x (rotation d)) <= intensity * 0.5 /\
  Rabs (y (rotation d)) <= intensity * 0.5.

Record GiftData := {
  gTreePos : Vector3;
  gScatterPos : Vector3;
  treeRot : Vector3;
  scatterRot : Vector3
}.

(** the pose the gift box's frame callback gives its group *)
Definition giftPose (progress visScale elapsedTime : R) (data : GiftData) : Object3D :=
  {| position := lerpVectors (gScatterPos data) (gTreePos data) progress;
     scale := vec visScale visScale visScale;
     rotation :=
       {| x := lerp (x (scatterRot data) + sin elapsedTime * 0.5) (x (treeRot data)) progress;
          y := lerp (y (scatterRot data) + elapsedTime * 0.2) (y (treeRot data)) progress;
          z := lerp (z (scatterRot data)) (z (treeRot data)) progress |} |}.

End Mixer.

(** ** The vertex shader of the foliage: the position of a point *)

Module FoliageShader.
Local Open Scope R_scope.
Import Three.

Definition finalPos (uTime uProgress uImageMix aRandom : R)
    (scatterPos treePos imgPos : Vector3) : Vector3 :=
  let standardPos := mix3 scatterPos treePos uProgress in
  let finalPos := mix3 standardPos imgPos uImageMix in
  let time := uTime * 0.5 in
  if Rlt_dec uImageMix 0.95 then
    if Rlt_dec uProgress 0.99 then
      let floatAmount := (1.0 - uProgress) * 0.8 * (1.0 - uImageMix) in
      {| x := x finalPos + cos (time * 0.8 + aRandom * 10.0) * floatAmount * 0.5;
         y := y finalPos + sin (time + aRandom * 20.0) * floatAmount;
         z := z finalPos |}
    else
      {| x := x finalPos + sin (time + y finalPos) * 0.05 * (1.0 - uImageMix);
         y := y finalPos;
         z := z finalPos |}
  else finalPos.

(** the point size before the perspective division *)
Definition pointSize (uImageMix aRandom : R) : R :=
  let sizeMult := mix 1.0 0.4 uImageMix in
  let randomFactor := mix aRandom 0.5 (uImageMix * 0.8) in
  (5.0 * randomFactor + 2.0) * sizeMult.

End FoliageShader.

(** ** The procedural generators.  [u], [u1], ... are results of
    [Math.random ()]. *)

Module Generators.
Local Open Scope R_scope.
Import Three.

Definition height : R := 15.

(** a point of the scatter shell: radius [rmin + u1 * spread], angles from
    [u2] and [u3] *)
Definition shellPoint (rmin spread u1 u2 u3 : R) : Vector3 :=
  let r := rmin + u1 * spread in
  let theta := u2 * PI * 2 in
  let phi := acos (2 * u3 - 1) in
  {| x := r * sin phi * cos theta;
     y := r * sin phi * sin theta;
     z := r * cos phi |}.

(** FoliageLayer: the scatter and the tree position of one particle *)
Definition foliageScatter (u1 u2 u3 : R) : Vector3 := shellPoint 12 10 u1 u2 u3.

Definition foliageTree (u1 u2 u3 : R) : Vector3 :=
  let baseRadius := 6 in
  let h := u1 in
  let y := h * height - height / 2 in
  let radiusAtH := baseRadius * (1 - h) in
  let angle := u2 * PI * 2 in
  let rDisk := sqrt u3 * radiusAtH in
  {| x := rDisk * cos angle; y := y; z := rDisk * sin angle |}.

(** FoliageLayer's [useMemo]: seven random numbers per particle, in the
    order the loop draws them; the three buffers *)
Definition foliageBuffers (count : nat) (random : nat -> R)
  : list R * list R * list R :=
  let u i k := random (7 * i + k)%nat in
  (flat_map (fun i => let p := foliageScatter (u i 0%nat) (u i 1%nat) (u i 2%nat) in
                      [x p; y p; z p]) (seq 0 count),
   flat_map (fun i => let p := foliageTree (u i 3%nat) (u i 4%nat) (u i 5%nat) in
                      [x p; y p; z p]) (seq 0 count),
   map (fun i => u i 6%nat) (seq 0 count)).

(** GoldParticleLayer: the tree position of bead [i] of [count] *)
Definition beadTree (i count : nat) (u1 u2 u3 : R) : Vector3 :=
  let baseRadius := 6.4 in
  let spiralLoops := 6 in
  let hBase := INR i / INR count in
  let h := Rmax 0 (Rmin 0.94 (hBase * 0.94 + (u1 - 0.5) * 0.02)) in
  let y := h * height - height / 2 in
  let rAtH := baseRadius * (1 - h) in
  let angleVariance := (u2 - 0.5) * 0.8 in
  let angle := h * PI * 2 * spiralLoops + angleVariance in
  let rTree := rAtH + u3 * 0.2 in
  {| x := rTree * cos angle; y := y; z := rTree * sin angle |}.

(** generateLights: the tree position and the size of a light *)
Definition lightTree (u1 u2 u3 : R) : Vector3 :=
  let baseRadius := 6.0 in
  let h := u1 in
  let y := h * height - height / 2 in
  let rAtH := baseRadius * (1 - h) in
  let angle := u2 * PI * 2 in
  let r := rAtH * (0.3 + u3 * 0.5) in
  {| x := cos angle * r; y := y; z := sin angle * r |}.

(** generateSurfaceDecor: the tree position of an ornament *)
Definition decorTree (minH maxH u1 u2 u3 : R) : Vector3 :=
  let baseRadius := 6.0 in
  let hNorm := minH + u1 * (maxH - minH) in
  let y := hNorm * height - height / 2 in
  let rAtH := baseRadius * (1 - hNorm) in
  let r := rAtH + 0.1 + u2 * 0.3 in
  let angle := u3 * PI * 2 in
  {| x := cos angle * r; y := y; z := sin angle * r |}.

(** the gifts: the tree position and the size of small gift [i] of 18,
    and of a large gift *)
Definition giftSize (u1 u2 u3 : R) : Vector3 :=
  vec (0.4 + u1 * 0.4) (0.3 + u2 * 0.3) (0.4 + u3 * 0.4).

Definition giftTree (i : nat) (u1 u2 h : R) : Vector3 :=
  let count := 18%nat in
  let angle := INR i / INR count * PI * 2 + u1 * 0.3 in
  let radius := 6.5 + u2 * 4.0 in
  {| x := cos angle * radius; y := -8 + h / 2; z := sin angle * radius |}.

Definition largeGiftSize (u1 u2 u3 : R) : Vector3 :=
  vec (0.6 + u1 * 0.3) (0.5 + u2 * 0.3) (1.2 + u3 * 0.6).

Definition largeGiftTree (u1 u2 h : R) : Vector3 :=
  let angle := u1 * PI * 2 in
  let radius := 7.0 + u2 * 3.5 in
  {| x := cos angle * radius; y := -8 + h / 2; z := sin angle * radius |}.

(** a result of [Math.random ()] *)
Definition unit (u : R) : Prop := 0 <= u < 1.

(** the radius of the foliage cone at the height [y] *)
Definition coneRadius (baseRadius y : R) : R :=
  baseRadius * (1 - (y + height / 2) / height).

End Generators.

(** ** Test data *)

Module Examples.
Import ImageToParticles HandController.

(** a browser in which the test image decodes, 400 by 1, and every random
    number is 0 *)
Definition boundary_browser : Browser :=
  {| decode := Some {| img_width := 400; img_height := 1 |};
     context2d := true;
     pixels := boundary_image;
     random := fun _ => 0%Q |}.

(** a browser in which the source does not decode *)
Definition broken_browser : Browser :=
  {| decode := None; context2d := true; pixels := []; random := fun _ => 0%Q |}.

(** a hand in the L pose: thumb away from the index knuckle, index tip
    above its joint, the three other tips below theirs *)
Definition lPose : Hand :=
  fun i => {| x := if (i =? 4)%nat then 0.3 else 0.5;
              y := if (i =? 8)%nat then 0.2
                   else if (i =? 6)%nat then 0.4
                   else if ((i =? 12) || (i =? 16) || (i =? 20))%nat then 0.7
                   else 0.5 |}.

(** an open hand: the four finger tips above their joints *)
Definition openPose : Hand :=
  fun i => {| x := 0.5;
              y := if ((i =? 8) || (i =? 12) || (i =? 16) || (i =? 20))%nat
                   then 0.2 else 0.5 |}.

(** a browser in which a fully transparent image decodes, 400 by 1 *)
Definition transparent_browser : Browser :=
  {| decode := Some {| img_width := 400; img_height := 1 |};
     context2d := true;
     pixels := repeat 0%Z 1600;
     random := fun _ => 0%Q |}.

(** one row of 400 opaque pixels of luminance 200 *)
Definition gray_image : list Z :=
  flat_map (fun _ => [200; 200; 200; 255]%Z) (seq 0 width).

End Examples.

(** * Properties *)

(** ** Arithmetic of the damping *)

Section Damping.
Local Open Scope R_scope.

Lemma sgn_neg (r : R) : r < 0 -> sgn r = Lt.
Proof.
  intros Hr. unfold sgn.
  destruct (total_order_T r 0) as [[Hlt | Heq] | Hgt]; [reflexivity | lra | lra].
Qed.

Lemma sgn_zero : sgn 0 = Eq.
Proof.
  unfold sgn.
  destruct (total_order_T 0 0) as [[Hlt | Heq] | Hgt]; [lra | reflexivity | lra].
Qed.

Lemma damp_finite (x y lambda dt : R) :
  MathUtils.damp (Fin x) (Fin y) (Fin lambda) (Fin dt)
  = Fin (y + (x - y) * exp (- lambda * dt)).
Proof.
  unfold MathUtils.damp, MathUtils.lerp, sub. simpl.
  f_equal. ring.
Qed.

Lemma damp_NaN (x y lambda : number) : MathUtils.damp x y lambda NaN = NaN.
Proof.
  unfold MathUtils.damp, MathUtils.lerp, sub.
  replace (mul (neg lambda) NaN) with NaN by (destruct (neg lambda); reflexivity).
  simpl. destruct x; reflexivity.
Qed.

Lemma damp_PosInf (x y lambda : R) :
  0 < lambda ->
  MathUtils.damp (Fin x) (Fin y) (Fin lambda) PosInf = Fin y.
Proof.
  intros Hl. unfold MathUtils.damp, MathUtils.lerp, sub. simpl.
  rewrite sgn_neg by lra. simpl. f_equal. ring.
Qed.

Lemma exp_decay_range (lambda dt : R) :
  0 <= lambda -> 0 <= dt -> 0 < exp (- lambda * dt) <= 1.
Proof.
  intros Hl Hd. split; [apply exp_pos |].
  rewrite <- exp_0.
  destruct (Req_dec (- lambda * dt) 0) as [E | E].
  - rewrite E. lra.
  - left. apply exp_increasing. nra.
Qed.

Lemma damp_unit (x : number) (y lambda dt : R) :
  unit_interval x -> 0 <= y <= 1 -> 0 <= lambda -> 0 <= dt ->
  unit_interval (MathUtils.damp x (Fin y) (Fin lambda) (Fin dt)).
Proof.
  intros [r [-> Hr]] Hy Hl Hd.
  rewrite damp_finite.
  pose proof (exp_decay_range Hl Hd) as He.
  set (e := exp (- lambda * dt)) in *.
  eexists; split; [reflexivity |].
  split; nra.
Qed.

Lemma pick_unit (m m' : InteractionMode) :
  0 <= pick m m' 1 0 <= 1 /\ 0 <= pick m m' 0 1 <= 1.
Proof. unfold pick. destruct (mode_eqb m m'); lra. Qed.

Lemma decays_refl (rate target : R) (a : number) :
  isFinite a -> decays rate 0 target a a.
Proof.
  intros [r ->]. exists r, r. repeat split.
  rewrite Rmult_0_r, Ropp_0, exp_0. ring.
Qed.

Lemma decays_step (rate target dt : R) (a : number) :
  isFinite a ->
  decays rate dt target a (MathUtils.damp a (Fin target) (Fin rate) (Fin dt)).
Proof.
  intros [r ->]. rewrite damp_finite.
  eexists; eexists; repeat split.
  replace (target + (r - target) * exp (- rate * dt) - target)
    with ((r - target) * exp (- rate * dt)) by ring.
  rewrite Rabs_mult.
  rewrite (Rabs_pos_eq (exp _)) by (left; apply exp_pos).
  f_equal. f_equal. ring.
Qed.

Lemma decays_trans (rate target T1 T2 : R) (a b c : number) :
  decays rate T1 target a b -> decays rate T2 target b c ->
  decays rate (T1 + T2) target a c.
Proof.
  intros (r0 & r1 & -> & -> & H1) (r1' & r2 & E & -> & H2).
  injection E as <-.
  exists r0, r2. repeat split.
  rewrite H2, H1, Rmult_assoc, <- exp_plus.
  f_equal. f_equal. ring.
Qed.

Lemma exp_neg_lt_inv (x : R) : 0 < x -> exp (- x) < / x.
Proof.
  intros Hx. rewrite exp_Ropp.
  apply Rinv_lt_contravar.
  - apply Rmult_lt_0_compat; [assumption | apply exp_pos].
  - pose proof (exp_ineq1 x) as H.
    assert (1 + x < exp x) by (apply H; lra). lra.
Qed.

Lemma decays_near (rate T target eps : R) (a b : number) :
  decays rate T target a b ->
  unit_interval a -> 0 <= target <= 1 -> 1 <= rate ->
  0 < eps -> / eps <= T ->
  near eps target b.
Proof.
  intros (r0 & r & -> & -> & H) (r0' & E & Hr0) Ht Hrate Heps HT.
  injection E as <-.
  exists r. split; [reflexivity |].
  rewrite H.
  assert (Hinv : 0 < / eps) by (apply Rinv_0_lt_compat; assumption).
  assert (HTpos : 0 < T) by lra.
  assert (Hx : 0 < rate * T) by nra.
  assert (Hd : Rabs (r0 - target) <= 1) by (apply Rabs_le; lra).
  pose proof (Rabs_pos (r0 - target)) as Hd0.
  pose proof (exp_neg_lt_inv Hx) as He.
  pose proof (exp_pos (- (rate * T))) as He0.
  assert (Hle : / (rate * T) <= eps).
  { rewrite <- (Rinv_inv eps).
    apply Rinv_le_contravar; [assumption | nra]. }
  nra.
Qed.

Lemma unit_finite (a : number) : unit_interval a -> isFinite a.
Proof. intros [r [-> _]]. exists r. reflexivity. Qed.

End Damping.

(** ** The layers, one frame at a time *)

Section Layers.
Local Open Scope R_scope.

Variable m : InteractionMode.

Ltac unit_target :=
  match goal with
  | |- 0 <= ?t <= 1 =>
      first [ apply (proj1 (pick_unit _ _)) | apply (proj2 (pick_unit _ _)) ]
  end.

Ltac rate_bound :=
  cbv delta [FoliageLayer.progressRate FoliageLayer.imageMixRate
             GoldParticleLayer.rate SnowFloor.rate FallingSnow.rate
             MorphingInstancedMesh.progressRate MorphingInstancedMesh.visibilityRate
             GiftBox.progressRate GiftBox.visibilityRate];
  lra.

Lemma foliage_bounded d st :
  0 <= d -> FoliageLayer.bounded st ->
  FoliageLayer.bounded (FoliageLayer.useFrame m (Fin d) st).
Proof.
  intros Hd [Hp Hi]. split; simpl; apply damp_unit; auto;
    try unit_target; rate_bound.
Qed.

Lemma beads_bounded d st :
  0 <= d -> GoldParticleLayer.bounded st ->
  GoldParticleLayer.bounded (GoldParticleLayer.useFrame m (Fin d) st).
Proof.
  intros Hd Hp. unfold GoldParticleLayer.bounded. simpl.
  apply damp_unit; auto; try unit_target; rate_bound.
Qed.

Lemma floor_bounded d st :
  0 <= d -> SnowFloor.bounded st ->
  SnowFloor.bounded (SnowFloor.useFrame m (Fin d) st).
Proof.
  intros Hd Hp. unfold SnowFloor.bounded. simpl.
  apply damp_unit; auto; try unit_target; rate_bound.
Qed.

Lemma snow_bounded d st :
  0 <= d -> FallingSnow.bounded st ->
  FallingSnow.bounded (FallingSnow.useFrame m (Fin d) st).
Proof.
  intros Hd Hp. unfold FallingSnow.bounded. simpl.
  apply damp_unit; auto; try unit_target; rate_bound.
Qed.

Lemma mesh_bounded d st :
  0 <= d -> MorphingInstancedMesh.bounded st ->
  MorphingInstancedMesh.bounded (MorphingInstancedMesh.useFrame m (Fin d) st).
Proof.
  intros Hd [Hp Hv]. unfold MorphingInstancedMesh.useFrame.
  destruct (MorphingInstancedMesh.meshRef st); simpl; [| split; assumption].
  split; simpl; apply damp_unit; auto; try unit_target; rate_bound.
Qed.

Lemma gift_bounded d st :
  0 <= d -> GiftBox.bounded st ->
  GiftBox.bounded (GiftBox.useFrame m (Fin d) st).
Proof.
  intros Hd [Hp Hv]. unfold GiftBox.useFrame.
  destruct (GiftBox.groupRef st); simpl; [| split; assumption].
  split; simpl; apply damp_unit; auto; try unit_target; rate_bound.
Qed.

Lemma foliage_decayed d st :
  FoliageLayer.bounded st ->
  FoliageLayer.decayed m d st (FoliageLayer.useFrame m (Fin d) st).
Proof.
  intros [Hp Hi]. split; simpl; apply decays_step; apply unit_finite; assumption.
Qed.

Lemma beads_decayed d st :
  GoldParticleLayer.bounded st ->
  GoldParticleLayer.decayed m d st (GoldParticleLayer.useFrame m (Fin d) st).
Proof.
  intros Hp. unfold GoldParticleLayer.decayed. simpl.
  apply decays_step, unit_finite, Hp.
Qed.

Lemma floor_decayed d st :
  SnowFloor.bounded st ->
  SnowFloor.decayed m d st (SnowFloor.useFrame m (Fin d) st).
Proof.
  intros Hp. unfold SnowFloor.decayed. simpl.
  apply decays_step, unit_finite, Hp.
Qed.

Lemma snow_decayed d st :
  FallingSnow.bounded st ->
  FallingSnow.decayed m d st (FallingSnow.useFrame m (Fin d) st).
Proof.
  intros Hp. unfold FallingSnow.decayed. simpl.
  apply decays_step, unit_finite, Hp.
Qed.

Lemma mesh_decayed d st :
  MorphingInstancedMesh.attached st -> MorphingInstancedMesh.bounded st ->
  MorphingInstancedMesh.decayed m d st (MorphingInstancedMesh.useFrame m (Fin d) st).
Proof.
  unfold MorphingInstancedMesh.attached, MorphingInstancedMesh.useFrame.
  intros -> [Hp Hv]. split; simpl; apply decays_step, unit_finite; assumption.
Qed.

Lemma gift_decayed d st :
  GiftBox.attached st -> GiftBox.bounded st ->
  GiftBox.decayed m d st (GiftBox.useFrame m (Fin d) st).
Proof.
  unfold GiftBox.attached, GiftBox.useFrame.
  intros -> [Hp Hv]. split; simpl; apply decays_step, unit_finite; assumption.
Qed.

Lemma mesh_attached d st :
  MorphingInstancedMesh.attached st ->
  MorphingInstancedMesh.attached (MorphingInstancedMesh.useFrame m d st).
Proof.
  unfold MorphingInstancedMesh.attached, MorphingInstancedMesh.useFrame.
  intros H. rewrite H. reflexivity.
Qed.

Lemma gift_attached d st :
  GiftBox.attached st -> GiftBox.attached (GiftBox.useFrame m d st).
Proof.
  unfold GiftBox.attached, GiftBox.useFrame.
  intros H. rewrite H. reflexivity.
Qed.

End Layers.

(** ** The scene *)

Section Scene.
Local Open Scope R_scope.
Import GoldSpiralTree.

Lemma Forall_map_step (A : Type) (P : A -> Prop) (f : A -> A) (l : list A) :
  (forall a, P a -> P (f a)) -> Forall P l -> Forall P (map f l).
Proof.
  intros Hf Hl. induction Hl; simpl; constructor; auto.
Qed.

Lemma Forall2_map_step (A : Type) (P Q : A -> Prop) (R : A -> A -> Prop)
      (f : A -> A) (l : list A) :
  (forall a, P a -> Q a -> R a (f a)) ->
  Forall P l -> Forall Q l -> Forall2 R l (map f l).
Proof.
  intros Hf HP HQ. induction l as [| a l IH]; simpl; constructor.
  - apply Hf; [inversion HP | inversion HQ]; assumption.
  - apply IH; [inversion HP | inversion HQ]; assumption.
Qed.

Lemma frame_bounded (f : Frame) (s : t) :
  timed f -> bounded s -> bounded (useFrame f s).
Proof.
  intros (d & Ed & Hd) (H1 & H2 & H3 & H4 & H5 & H6 & H7).
  unfold useFrame. rewrite Ed. repeat split; simpl.
  - apply floor_bounded; assumption.
  - apply snow_bounded; assumption.
  - apply foliage_bounded; assumption.
  - apply foliage_bounded; assumption.
  - apply beads_bounded; assumption.
  - apply Forall_map_step; [intros a; apply mesh_bounded |]; assumption.
  - apply Forall_map_step; [intros a; apply gift_bounded |]; assumption.
  - destruct (trunkRef s); [| assumption].
    apply damp_unit; auto.
    + apply (proj1 (pick_unit _ _)).
    + unfold trunkRate. lra.
Qed.

Lemma frame_attached (f : Frame) (s : t) :
  attached s -> attached (useFrame f s).
Proof.
  intros (H1 & H2 & H3). repeat split; simpl.
  - apply Forall_map_step; [intros a; apply mesh_attached |]; assumption.
  - apply Forall_map_step; [intros a; apply gift_attached |]; assumption.
  - assumption.
Qed.

Lemma frame_decayed (m : InteractionMode) (f : Frame) (s : t) :
  held m f -> attached s -> bounded s ->
  decayed m (elapsed f) s (useFrame f s).
Proof.
  intros (Em & d & Ed & Hd) (A1 & A2 & A3) (H1 & H2 & H3 & H4 & H5 & H6 & H7).
  unfold useFrame, elapsed. rewrite Ed, Em, A3.
  unfold decayed; simpl. repeat split.
  - apply floor_decayed; assumption.
  - apply snow_decayed; assumption.
  - apply foliage_decayed; assumption.
  - apply foliage_decayed; assumption.
  - apply beads_decayed; assumption.
  - apply Forall2_map_step with (P := MorphingInstancedMesh.attached)
                                (Q := MorphingInstancedMesh.bounded);
      [intros a; apply mesh_decayed | |]; assumption.
  - apply Forall2_map_step with (P := GiftBox.attached) (Q := GiftBox.bounded);
      [intros a; apply gift_decayed | |]; assumption.
  - apply decays_step, unit_finite; assumption.
Qed.

End Scene.

Section Runs.
Local Open Scope R_scope.
Import GoldSpiralTree.

Lemma held_timed (m : InteractionMode) (f : Frame) : held m f -> timed f.
Proof. intros [_ H]. exact H. Qed.

Lemma run_bounded (fs : list Frame) (s : t) :
  Forall timed fs -> bounded s -> bounded (run fs s).
Proof.
  intros Hfs. revert s.
  induction Hfs as [| f fs Hf Hfs IH]; intros s Hs; simpl; [assumption |].
  apply IH, frame_bounded; assumption.
Qed.

Lemma run_attached (fs : list Frame) (s : t) :
  attached s -> attached (run fs s).
Proof.
  revert s. induction fs as [| f fs IH]; intros s Hs; simpl; [assumption |].
  apply IH, frame_attached, Hs.
Qed.

Lemma run_app (fs1 fs2 : list Frame) (s : t) :
  run (fs1 ++ fs2) s = run fs2 (run fs1 s).
Proof.
  revert s. induction fs1 as [| f fs1 IH]; intros s; simpl; [reflexivity | apply IH].
Qed.

Lemma Forall2_same (A : Type) (P : A -> Prop) (R : A -> A -> Prop) (l : list A) :
  (forall a, P a -> R a a) -> Forall P l -> Forall2 R l l.
Proof. intros H Hl. induction Hl; constructor; auto. Qed.

Lemma Forall2_chain (A : Type) (R1 R2 R3 : A -> A -> Prop) (l1 l2 l3 : list A) :
  (forall a b c, R1 a b -> R2 b c -> R3 a c) ->
  Forall2 R1 l1 l2 -> Forall2 R2 l2 l3 -> Forall2 R3 l1 l3.
Proof.
  intros H H12. revert l3.
  induction H12 as [| a b l1 l2 Hab H12 IH]; intros l3 H23;
    inversion H23; subst; constructor; eauto.
Qed.

Lemma Forall2_right (A : Type) (P Q : A -> Prop) (R : A -> A -> Prop) (l1 l2 : list A) :
  (forall a b, P a -> R a b -> Q b) ->
  Forall P l1 -> Forall2 R l1 l2 -> Forall Q l2.
Proof.
  intros H HP H12. induction H12 as [| a b l1 l2 Hab H12 IH]; constructor.
  - inversion HP; subst. eauto.
  - apply IH. inversion HP; assumption.
Qed.

Lemma decayed_zero (m : InteractionMode) (s : t) : bounded s -> decayed m 0 s s.
Proof.
  intros (H1 & H2 & (H3 & H3') & H4 & H5 & H6 & H7).
  unfold decayed. repeat split; try (apply decays_refl, unit_finite; assumption).
  - apply Forall2_same with (P := MorphingInstancedMesh.bounded); [| assumption].
    intros a [Ha Hb]. split; apply decays_refl, unit_finite; assumption.
  - apply Forall2_same with (P := GiftBox.bounded); [| assumption].
    intros a [Ha Hb]. split; apply decays_refl, unit_finite; assumption.
Qed.

Lemma decayed_chain (m : InteractionMode) (T1 T2 : R) (s0 s1 s2 : t) :
  decayed m T1 s0 s1 -> decayed m T2 s1 s2 -> decayed m (T1 + T2) s0 s2.
Proof.
  intros (A1 & A2 & (A3 & A3') & A4 & A5 & A6 & A7)
         (B1 & B2 & (B3 & B3') & B4 & B5 & B6 & B7).
  unfold decayed. repeat split; try (eapply decays_trans; eassumption).
  - eapply Forall2_chain; [| exact A5 | exact B5].
    intros a b c [X1 X2] [Y1 Y2]. split; eapply decays_trans; eassumption.
  - eapply Forall2_chain; [| exact A6 | exact B6].
    intros a b c [X1 X2] [Y1 Y2]. split; eapply decays_trans; eassumption.
Qed.

Lemma run_decayed (m : InteractionMode) (fs : list Frame) (s : t) :
  Forall (held m) fs -> attached s -> bounded s ->
  decayed m (total fs) s (run fs s).
Proof.
  intros Hfs. revert s.
  induction Hfs as [| f fs Hf Hfs IH]; intros s Ha Hb; simpl.
  - apply decayed_zero, Hb.
  - apply decayed_chain with (s1 := useFrame f s).
    + apply frame_decayed; assumption.
    + apply IH; [apply frame_attached, Ha |].
      apply frame_bounded; [eapply held_timed; eassumption | assumption].
Qed.

Ltac settle_scalar :=
  eapply decays_near;
  [ eassumption | assumption
  | first [ apply (proj1 (pick_unit _ _)) | apply (proj2 (pick_unit _ _)) ]
  | cbv delta [FoliageLayer.progressRate FoliageLayer.imageMixRate
               GoldParticleLayer.rate SnowFloor.rate FallingSnow.rate
               MorphingInstancedMesh.progressRate MorphingInstancedMesh.visibilityRate
               GiftBox.progressRate GiftBox.visibilityRate trunkRate]; lra
  | assumption | assumption ].

Lemma decayed_settled (m : InteractionMode) (T eps : R) (s0 s : t) :
  decayed m T s0 s -> bounded s0 -> 0 < eps -> / eps <= T ->
  settled eps m s.
Proof.
  intros (A1 & A2 & (A3 & A3') & A4 & A5 & A6 & A7)
         (B1 & B2 & (B3 & B3') & B4 & B5 & B6 & B7) Heps HT.
  unfold settled. repeat split; try settle_scalar.
  - eapply Forall2_right with (P := MorphingInstancedMesh.bounded); [| exact B5 | exact A5].
    intros a b [X1 X2] [Y1 Y2]. split; settle_scalar.
  - eapply Forall2_right with (P := GiftBox.bounded); [| exact B6 | exact A6].
    intros a b [X1 X2] [Y1 Y2]. split; settle_scalar.
Qed.

Lemma mount_bounded (m : InteractionMode) : bounded (mount m).
Proof.
  assert (U : forall a b, unit_interval (Fin (pick a b 1 0))).
  { intros a b. eexists; split; [reflexivity | apply pick_unit]. }
  assert (U1 : unit_interval (Fin 1)).
  { eexists; split; [reflexivity | lra]. }
  unfold bounded, mount; simpl. repeat split; try apply U; try apply U1.
  - repeat constructor; try apply U; apply U1.
  - repeat constructor; try apply U; apply U1.
Qed.

Lemma mount_attached (m : InteractionMode) : attached (mount m).
Proof.
  unfold attached, mount; simpl. repeat split.
  - repeat constructor.
  - repeat constructor.
Qed.

End Runs.

(** ** The transition controller *)

Section Controller.
Local Open Scope R_scope.
Import GoldSpiralTree.

(** C1.  Progress boundedness: from a scene whose transition scalars
    (progress, imageMix, visibility, and the trunk's scale) are all in
    [[0, 1]], every frame of any sequence of frames with a finite
    [deltaTime >= 0], whatever their modes, leaves every one of them in
    [[0, 1]]. *)
Theorem progress_bounded (fs : list Frame) (s : t) :
  bounded s -> Forall timed fs -> Forall bounded (trace fs s).
Proof.
  intros Hs Hfs. revert s Hs.
  induction Hfs as [| f fs Hf Hfs IH]; intros s Hs; simpl; constructor.
  - apply frame_bounded; assumption.
  - apply IH, frame_bounded; assumption.
Qed.

Lemma progress_bounded_witness :
  let fs := [ {| mode := SCATTERED; delta := Fin 0.016 |};
              {| mode := IMAGE; delta := Fin 1 |} ] in
  bounded (mount TREE) /\ Forall timed fs /\ Forall bounded (trace fs (mount TREE)).
Proof.
  intros fs.
  assert (Hs : bounded (mount TREE)).
  { unfold bounded, mount; simpl.
    repeat split;
      repeat constructor;
      try (eexists; split; [reflexivity | unfold pick; simpl; lra]). }
  assert (Hfs : Forall timed fs).
  { repeat constructor; eexists; (split; [reflexivity | lra]). }
  split; [exact Hs | split; [exact Hfs |]].
  apply (progress_bounded Hs Hfs).
Defined.

(** C3.  Refinement: on finite arguments, [THREE.MathUtils.damp (value,
    target, rate, deltaTime)] is the update rule of the specification,
    [target + (value - target) * exp (- rate * deltaTime)], for every
    [value] and [target] in [[0, 1]], [rate > 0] and [deltaTime >= 0]. *)
Theorem damp_is_spec_update (value target rate deltaTime : R) :
  0 <= value <= 1 -> 0 <= target <= 1 -> 0 < rate -> 0 <= deltaTime ->
  MathUtils.damp (Fin value) (Fin target) (Fin rate) (Fin deltaTime)
  = Fin (spec_update value target rate deltaTime).
Proof.
  intros _ _ _ _. unfold spec_update. apply damp_finite.
Qed.

Lemma damp_is_spec_update_witness :
  0 <= 1 <= 1 /\ 0 <= 0 <= 1 /\ 0 < 2 /\ 0 <= 1 /\
  MathUtils.damp (Fin 1) (Fin 0) (Fin 2) (Fin 1) = Fin (spec_update 1 0 2 1).
Proof.
  assert (H1 : 0 <= 1 <= 1) by lra.
  assert (H2 : 0 <= 0 <= 1) by lra.
  assert (H3 : 0 < 2) by lra.
  assert (H4 : 0 <= 1) by lra.
  repeat (split; [assumption |]).
  apply (damp_is_spec_update H1 H2 H3 H4).
Defined.

(** C9.  Convergence: hold the mode [m] over frames [fs] with finite
    [deltaTime >= 0], all object references attached, from a scene with
    every scalar in [[0, 1]], and let [T] be the time the frames add up to.
    Then every transition scalar is finite and its distance to its target is
    its initial distance times [exp (- rate * T)], [rate] being its own
    rate; for every [eps > 0], once [T >= 1 / eps] every scalar is within
    [eps] of its target; and after any such first leg, a second leg holding
    another mode [m'] for a time of at least [1 / eps] brings every scalar
    within [eps] of its target under [m'] (so FORMED, then SCATTERED, then
    FORMED returns progress to within [eps] of 1). *)
Theorem scalars_converge (m : InteractionMode) (fs : list Frame) (s : t) :
  attached s -> bounded s -> Forall (held m) fs ->
  decayed m (total fs) s (run fs s) /\
  (forall eps, 0 < eps -> / eps <= total fs -> settled eps m (run fs s)) /\
  (forall m' fs' eps,
      Forall (held m') fs' -> 0 < eps -> / eps <= total fs' ->
      settled eps m' (run fs' (run fs s))).
Proof.
  intros Ha Hb Hfs.
  assert (Hd : decayed m (total fs) s (run fs s)) by (apply run_decayed; assumption).
  assert (Ht : Forall timed fs).
  { eapply Forall_impl; [| exact Hfs]. intros f. apply held_timed. }
  split; [exact Hd | split].
  - intros eps Heps HT. eapply decayed_settled; eassumption.
  - intros m' fs' eps Hfs' Heps HT.
    eapply decayed_settled; [| | exact Heps | exact HT].
    + apply run_decayed; [exact Hfs' | apply run_attached, Ha |].
      apply run_bounded; assumption.
    + apply run_bounded; assumption.
Qed.

Lemma scalars_converge_witness :
  let out := [ {| mode := SCATTERED; delta := Fin 0.5 |};
               {| mode := SCATTERED; delta := Fin 0.5 |} ] in
  let back := [ {| mode := TREE; delta := Fin 1 |} ] in
  attached (mount TREE) /\ bounded (mount TREE) /\ Forall (held SCATTERED) out /\
  decayed SCATTERED (total out) (mount TREE) (run out (mount TREE)) /\
  settled 1 SCATTERED (run out (mount TREE)) /\
  settled 1 TREE (run back (run out (mount TREE))).
Proof.
  intros out back.
  assert (Ha : attached (mount TREE)).
  { unfold attached, mount; simpl. repeat split; repeat constructor. }
  assert (Hb : bounded (mount TREE)).
  { unfold bounded, mount; simpl.
    repeat split;
      repeat constructor;
      try (eexists; split; [reflexivity | unfold pick; simpl; lra]). }
  assert (Hout : Forall (held SCATTERED) out).
  { repeat constructor; eexists; (split; [reflexivity | lra]). }
  assert (Hback : Forall (held TREE) back).
  { repeat constructor; eexists; (split; [reflexivity | lra]). }
  destruct (scalars_converge Ha Hb Hout) as (H1 & H2 & H3).
  repeat (split; [assumption |]).
  split.
  - apply H2; [lra |]. unfold total, elapsed; simpl. lra.
  - apply H3; [exact Hback | lra |]. unfold total, elapsed; simpl. lra.
Defined.

End Controller.

(** ** Frames whose [deltaTime] is not finite *)

Section NonFinite.
Local Open Scope R_scope.
Import GoldSpiralTree.

Lemma damp_PosInf_unit (x : number) (y lambda : R) :
  unit_interval x -> 0 < lambda ->
  MathUtils.damp x (Fin y) (Fin lambda) PosInf = Fin y.
Proof.
  intros [r [-> _]] Hl. apply damp_PosInf, Hl.
Qed.

Lemma unit_pick (a b : InteractionMode) :
  unit_interval (Fin (pick a b 1 0)) /\ unit_interval (Fin (pick a b 0 1)).
Proof.
  split; (eexists; split; [reflexivity | apply pick_unit]).
Qed.

Lemma near_self (y : R) : near 0 y (Fin y).
Proof.
  exists y. split; [reflexivity |].
  unfold Rminus. rewrite Rplus_opp_r, Rabs_R0. lra.
Qed.

Lemma Forall_map_to (A : Type) (P Q : A -> Prop) (f : A -> A) (l : list A) :
  (forall a, P a -> Q (f a)) -> Forall P l -> Forall Q (map f l).
Proof.
  intros Hf Hl. induction Hl; simpl; constructor; auto.
Qed.

Ltac jump := rewrite damp_PosInf_unit by (assumption || lra).

Lemma mesh_PosInf (m : InteractionMode) (a : MorphingInstancedMesh.t) :
  MorphingInstancedMesh.bounded a ->
  MorphingInstancedMesh.bounded (MorphingInstancedMesh.useFrame m PosInf a) /\
  (MorphingInstancedMesh.attached a ->
   MorphingInstancedMesh.settled 0 m (MorphingInstancedMesh.useFrame m PosInf a)).
Proof.
  intros [Hp Hv].
  unfold MorphingInstancedMesh.useFrame, MorphingInstancedMesh.attached,
    MorphingInstancedMesh.bounded, MorphingInstancedMesh.settled,
    MorphingInstancedMesh.progressRate, MorphingInstancedMesh.visibilityRate.
  destruct (MorphingInstancedMesh.meshRef a); simpl.
  - repeat jump. repeat split; try apply unit_pick; apply near_self.
  - split; [split; assumption | discriminate].
Qed.

Lemma gift_PosInf (m : InteractionMode) (g : GiftBox.t) :
  GiftBox.bounded g ->
  GiftBox.bounded (GiftBox.useFrame m PosInf g) /\
  (GiftBox.attached g -> GiftBox.settled 0 m (GiftBox.useFrame m PosInf g)).
Proof.
  intros [Hp Hv].
  unfold GiftBox.useFrame, GiftBox.attached, GiftBox.bounded, GiftBox.settled,
    GiftBox.progressRate, GiftBox.visibilityRate.
  destruct (GiftBox.groupRef g); simpl.
  - repeat jump. repeat split; try apply unit_pick; apply near_self.
  - split; [split; assumption | discriminate].
Qed.

Lemma frame_PosInf (m : InteractionMode) (s : t) :
  bounded s ->
  bounded (useFrame {| mode := m; delta := PosInf |} s) /\
  (attached s -> settled 0 m (useFrame {| mode := m; delta := PosInf |} s)).
Proof.
  intros (H1 & H2 & (H3 & H3') & H4 & H5 & H6 & H7).
  unfold SnowFloor.bounded, FallingSnow.bounded, GoldParticleLayer.bounded in *.
  unfold bounded, settled, attached, useFrame; simpl.
  unfold SnowFloor.bounded, FallingSnow.bounded, GoldParticleLayer.bounded,
    FoliageLayer.bounded, SnowFloor.settled, FallingSnow.settled,
    GoldParticleLayer.settled, FoliageLayer.settled; simpl.
  unfold SnowFloor.rate, FallingSnow.rate, GoldParticleLayer.rate,
    FoliageLayer.progressRate, FoliageLayer.imageMixRate, trunkRate.
  repeat jump.
  split.
  - repeat split; try apply unit_pick.
    + eapply Forall_map_to; [| exact H5]. intros a Ha. apply mesh_PosInf, Ha.
    + eapply Forall_map_to; [| exact H6]. intros a Ha. apply gift_PosInf, Ha.
    + destruct (trunkRef s); [apply unit_pick | assumption].
  - intros (A1 & A2 & A3). rewrite A3.
    repeat split; try apply near_self.
    + eapply Forall_map_to with
        (P := fun a => MorphingInstancedMesh.bounded a /\ MorphingInstancedMesh.attached a).
      * intros a [Ha Hb]. apply mesh_PosInf; assumption.
      * apply Forall_forall. intros a Ha. split;
          [exact (proj1 (Forall_forall _ _) H5 a Ha)
          | exact (proj1 (Forall_forall _ _) A1 a Ha)].
    + eapply Forall_map_to with
        (P := fun a => GiftBox.bounded a /\ GiftBox.attached a).
      * intros a [Ha Hb]. apply gift_PosInf; assumption.
      * apply Forall_forall. intros a Ha. split;
          [exact (proj1 (Forall_forall _ _) H6 a Ha)
          | exact (proj1 (Forall_forall _ _) A2 a Ha)].
Qed.

Lemma frame_NaN (m : InteractionMode) (s : t) :
  poisoned (useFrame {| mode := m; delta := NaN |} s).
Proof.
  unfold poisoned, useFrame; simpl. repeat split; try apply damp_NaN.
  - apply Forall_forall. intros a Ha. apply in_map_iff in Ha.
    destruct Ha as (a0 & <- & _).
    unfold MorphingInstancedMesh.useFrame.
    destruct (MorphingInstancedMesh.meshRef a0) eqn:E; simpl.
    + intros _. split; apply damp_NaN.
    + rewrite E. discriminate.
  - apply Forall_forall. intros a Ha. apply in_map_iff in Ha.
    destruct Ha as (a0 & <- & _).
    unfold GiftBox.useFrame.
    destruct (GiftBox.groupRef a0) eqn:E; simpl.
    + intros _. split; apply damp_NaN.
    + rewrite E. discriminate.
  - intros ->. apply damp_NaN.
Qed.

(** C8, as the code has it.  No frame callback tests [deltaTime].  With
    [deltaTime = +infinity] every scalar of a scene within [[0, 1]] stays
    within [[0, 1]], and with the object references attached each lands
    exactly on its target.  With [deltaTime = NaN] the update is neither
    clamped nor skipped: every scalar a callback writes becomes NaN. *)
Theorem nonfinite_delta (m : InteractionMode) (s : t) :
  bounded s ->
  bounded (useFrame {| mode := m; delta := PosInf |} s) /\
  (attached s -> settled 0 m (useFrame {| mode := m; delta := PosInf |} s)) /\
  poisoned (useFrame {| mode := m; delta := NaN |} s).
Proof.
  intros Hs. destruct (frame_PosInf m Hs) as [Hb Hset].
  split; [exact Hb | split; [exact Hset | apply frame_NaN]].
Qed.

Lemma nonfinite_delta_witness :
  bounded (mount TREE) /\
  bounded (useFrame {| mode := IMAGE; delta := PosInf |} (mount TREE)) /\
  poisoned (useFrame {| mode := IMAGE; delta := NaN |} (mount TREE)).
Proof.
  assert (Hb : bounded (mount TREE)).
  { unfold bounded, mount; simpl.
    repeat split;
      repeat constructor;
      try (eexists; split; [reflexivity | unfold pick; simpl; lra]). }
  destruct (nonfinite_delta IMAGE Hb) as (H1 & _ & H3).
  split; [exact Hb | split; [exact H1 | exact H3]].
Defined.

(** C8 as stated fails: one frame with [deltaTime = NaN] from the scene as
    mounted in mode TREE, whose scalars are all in [[0, 1]], leaves the
    foliage's progress NaN, so the scene is no longer within [[0, 1]]. *)
Lemma nan_delta_escapes :
  bounded (mount TREE) /\
  ~ isFinite NaN /\
  FoliageLayer.progressRef
    (foliage (useFrame {| mode := TREE; delta := NaN |} (mount TREE))) = NaN /\
  ~ bounded (useFrame {| mode := TREE; delta := NaN |} (mount TREE)).
Proof.
  split; [apply mount_bounded | split; [| split]].
  - intros [r Hr]. discriminate Hr.
  - apply damp_NaN.
  - intros (_ & _ & ([r [Hr _]] & _) & _).
    simpl in Hr. rewrite damp_NaN in Hr. discriminate Hr.
Qed.

End NonFinite.

(** ** The targets of the scalars *)

Section Targets.
Local Open Scope R_scope.
Import GoldSpiralTree.

(** C4, as the code has it.  The instanced ornament and light layers and
    the gift boxes have a visibility scalar, which each frame damps toward 0
    when the mode is IMAGE and toward 1 otherwise.  The spiral ribbon of
    beads (GoldParticleLayer) has no visibility scalar: its only scalar is
    its progress, damped toward 1 in mode TREE and toward 0 otherwise. *)
Theorem visibility_targets (m : InteractionMode) (d : number) :
  let hidden := Fin (match m with IMAGE => 0 | _ => 1 end) in
  (forall a,
      MorphingInstancedMesh.visibilityScale (MorphingInstancedMesh.useFrame m d a)
      = if MorphingInstancedMesh.meshRef a
        then MathUtils.damp (MorphingInstancedMesh.visibilityScale a) hidden
               (Fin MorphingInstancedMesh.visibilityRate) d
        else MorphingInstancedMesh.visibilityScale a) /\
  (forall g,
      GiftBox.visScale (GiftBox.useFrame m d g)
      = if GiftBox.groupRef g
        then MathUtils.damp (GiftBox.visScale g) hidden (Fin GiftBox.visibilityRate) d
        else GiftBox.visScale g) /\
  visibilityTarget InstancedMesh m = Some (match m with IMAGE => 0 | _ => 1 end) /\
  visibilityTarget Gift m = Some (match m with IMAGE => 0 | _ => 1 end) /\
  visibilityTarget Beads m = None /\
  (forall b,
      GoldParticleLayer.useFrame m d b
      = {| GoldParticleLayer.progressRef :=
             MathUtils.damp (GoldParticleLayer.progressRef b)
               (Fin (match m with TREE => 1 | _ => 0 end))
               (Fin GoldParticleLayer.rate) d |}).
Proof.
  cbv zeta. repeat split.
  - intros a. unfold MorphingInstancedMesh.useFrame.
    destruct (MorphingInstancedMesh.meshRef a), m; reflexivity.
  - intros g. unfold GiftBox.useFrame.
    destruct (GiftBox.groupRef g), m; reflexivity.
  - destruct m; reflexivity.
  - destruct m; reflexivity.
  - intros b. destruct m; reflexivity.
Qed.

(** C4 as stated fails on the bead ribbon: it is a decorative layer and
    its frame callback has no visibility scalar, in mode IMAGE or any other;
    the scalar it has is driven to 0 in mode SCATTERED too. *)
Lemma beads_have_no_visibility :
  decorative Beads = true /\
  visibilityTarget Beads IMAGE = None /\
  GoldParticleLayer.target SCATTERED = 0 /\
  ~ (forall l m, decorative l = true ->
       visibilityTarget l m = Some (match m with IMAGE => 0 | _ => 1 end)).
Proof.
  repeat split; try reflexivity.
  intros H. specialize (H Beads IMAGE eq_refl). discriminate H.
Qed.

(** C5.  Each frame damps the progress of the two-valued layers (beads,
    instanced meshes, gift boxes, snow floor, falling snow) toward 1 in mode
    TREE (FORMED) and toward 0 otherwise; it damps the foliage's progress
    toward 0 in mode SCATTERED and toward 1 otherwise, in mode IMAGE as in
    mode TREE, and the foliage's imageMix toward 1 in mode IMAGE and toward
    0 otherwise. *)
Theorem progress_targets (m : InteractionMode) (d : number) :
  let formed := Fin (match m with TREE => 1 | _ => 0 end) in
  (forall st,
      FoliageLayer.useFrame m d st
      = {| FoliageLayer.progressRef :=
             MathUtils.damp (FoliageLayer.progressRef st)
               (Fin (match m with SCATTERED => 0 | _ => 1 end))
               (Fin FoliageLayer.progressRate) d;
           FoliageLayer.imageMixRef :=
             MathUtils.damp (FoliageLayer.imageMixRef st)
               (Fin (match m with IMAGE => 1 | _ => 0 end))
               (Fin FoliageLayer.imageMixRate) d |}) /\
  (forall st,
      GoldParticleLayer.progressRef (GoldParticleLayer.useFrame m d st)
      = MathUtils.damp (GoldParticleLayer.progressRef st) formed
          (Fin GoldParticleLayer.rate) d) /\
  (forall st,
      SnowFloor.progressRef (SnowFloor.useFrame m d st)
      = MathUtils.damp (SnowFloor.progressRef st) formed (Fin SnowFloor.rate) d) /\
  (forall st,
      FallingSnow.progressRef (FallingSnow.useFrame m d st)
      = MathUtils.damp (FallingSnow.progressRef st) formed (Fin FallingSnow.rate) d) /\
  (forall st,
      MorphingInstancedMesh.progress (MorphingInstancedMesh.useFrame m d st)
      = if MorphingInstancedMesh.meshRef st
        then MathUtils.damp (MorphingInstancedMesh.progress st) formed
               (Fin MorphingInstancedMesh.progressRate) d
        else MorphingInstancedMesh.progress st) /\
  (forall st,
      GiftBox.progress (GiftBox.useFrame m d st)
      = if GiftBox.groupRef st
        then MathUtils.damp (GiftBox.progress st) formed (Fin GiftBox.progressRate) d
        else GiftBox.progress st) /\
  (forall l, progressTarget l m =
             match l, m with
             | Foliage, SCATTERED => 0
             | Foliage, _ => 1
             | _, TREE => 1
             | _, _ => 0
             end).
Proof.
  cbv zeta. repeat split; intros st.
  - destruct m; reflexivity.
  - destruct m; reflexivity.
  - destruct m; reflexivity.
  - destruct m; reflexivity.
  - unfold MorphingInstancedMesh.useFrame.
    destruct (MorphingInstancedMesh.meshRef st), m; reflexivity.
  - unfold GiftBox.useFrame.
    destruct (GiftBox.groupRef st), m; reflexivity.
  - destruct st, m; reflexivity.
Qed.

End Targets.

(** ** The image candidate extractor *)

Section Extractor.
Import ImageToParticles.

Lemma Qlt_bool_iff (a b : Q) : Qlt_bool a b = true <-> (a < b)%Q.
Proof.
  unfold Qlt_bool. rewrite negb_true_iff. split.
  - intros H. apply Qnot_le_lt. intros Hle.
    apply Qle_bool_iff in Hle. congruence.
  - intros H. destruct (Qle_bool b a) eqn:E; [| reflexivity].
    apply Qle_bool_iff in E. exfalso. exact (Qlt_not_le _ _ H E).
Qed.

Lemma interleaved_app (a b : list nat) :
  interleaved a -> interleaved b -> interleaved (a ++ b).
Proof.
  intros Ha Hb. induction Ha; simpl; [assumption | constructor; assumption].
Qed.

Lemma interleaved_flat_map (A : Type) (f : A -> list nat) (l : list A) :
  (forall a, interleaved (f a)) -> interleaved (flat_map f l).
Proof.
  intros Hf. induction l as [| a l IH]; simpl;
    [constructor | apply interleaved_app; auto].
Qed.

Lemma pushed_app (x y : nat) (a b : list nat) :
  interleaved a -> (pushed x y (a ++ b) <-> pushed x y a \/ pushed x y b).
Proof.
  intros Ha. induction Ha as [| px py c Hc IH]; simpl.
  - tauto.
  - rewrite IH. tauto.
Qed.

Lemma pushed_flat_map (A : Type) (f : A -> list nat) (l : list A) (x y : nat) :
  (forall a, interleaved (f a)) ->
  (pushed x y (flat_map f l) <-> exists a, In a l /\ pushed x y (f a)).
Proof.
  intros Hf. induction l as [| a l IH]; simpl.
  - split; [tauto | intros (a & [] & _)].
  - rewrite pushed_app by apply Hf. rewrite IH. split.
    + intros [H | (a' & Hin & H)]; [exists a | exists a']; tauto.
    + intros (a' & [<- | Hin] & H); [left; assumption | right; exists a'; tauto].
Qed.

Section Pixels.

Variable data : list Z.
Variable height : nat.

Lemma visit_interleaved (x y : nat) : interleaved (visit data height x y).
Proof.
  unfold visit.
  destruct (getAlpha data height x y <? 50)%Z; [constructor |].
  destruct (isDark data height x y || isEdge data height x y);
    repeat constructor.
Qed.

Lemma pushed_visit (x0 y0 x y : nat) :
  pushed x y (visit data height x0 y0) <->
  x0 = x /\ y0 = y /\ (50 <= getAlpha data height x y)%Z /\
  ((getLum data height x y < 180)%Q \/
   (15 < Qabs (getLum data height x y - getLum data height (x + 1) y))%Q \/
   (15 < Qabs (getLum data height x y - getLum data height x (y + 1)))%Q).
Proof.
  unfold visit.
  destruct (getAlpha data height x0 y0 <? 50)%Z eqn:Ea.
  - apply Z.ltb_lt in Ea. cbn [pushed]. split; [tauto |].
    intros (<- & <- & H & _). lia.
  - apply Z.ltb_ge in Ea.
    destruct (isDark data height x0 y0 || isEdge data height x0 y0) eqn:Ec;
      cbn [pushed].
    + apply orb_true_iff in Ec. unfold isDark, isEdge in Ec.
      rewrite orb_true_iff, !Qlt_bool_iff in Ec.
      split.
      * intros [[<- <-] | []]. tauto.
      * intros (<- & <- & _). left. split; reflexivity.
    + apply orb_false_iff in Ec. destruct Ec as [Ed Ee].
      apply orb_false_iff in Ee. destruct Ee as [Er Eb].
      split; [tauto |].
      intros (<- & <- & _ & [H | [H | H]]);
        match type of H with
        | Qlt ?a ?b => pose proof (proj2 (Qlt_bool_iff a b) H) as Hb
        end;
        unfold isDark in Ed; congruence.
Qed.

Lemma pushed_analyze (x y : nat) :
  pushed x y (analyze data height) <->
  (x < width)%nat /\ (y < height)%nat /\
  (50 <= getAlpha data height x y)%Z /\
  ((getLum data height x y < 180)%Q \/
   (15 < Qabs (getLum data height x y - getLum data height (x + 1) y))%Q \/
   (15 < Qabs (getLum data height x y - getLum data height x (y + 1)))%Q).
Proof.
  unfold analyze.
  rewrite pushed_flat_map
    by (intros a; apply interleaved_flat_map; intros a'; apply visit_interleaved).
  split.
  - intros (y0 & Hy0 & H).
    rewrite pushed_flat_map in H by (intros a; apply visit_interleaved).
    destruct H as (x0 & Hx0 & H).
    apply pushed_visit in H. destruct H as (<- & <- & H).
    apply in_seq in Hy0. apply in_seq in Hx0.
    repeat split; try lia; tauto.
  - intros (Hx & Hy & H).
    exists y. split; [apply in_seq; lia |].
    rewrite pushed_flat_map by (intros a; apply visit_interleaved).
    exists x. split; [apply in_seq; lia |].
    apply pushed_visit. tauto.
Qed.

End Pixels.

(** C7.  A pixel [(x, y)] of the downsampled image is pushed on the
    candidates exactly when it lies in the image, its alpha is at least 50,
    and its luminance [0.299 R + 0.587 G + 0.114 B] is below 180 or differs
    by more than 15 from the luminance read to its right or below it
    ([getLum], which reads 255 outside the image); a pixel whose alpha is
    below 50 is never pushed; and as soon as one pixel of alpha at least 50
    differs by more than 15 from the luminance to its right or below it, the
    candidates are not empty, whatever the luminances are (below the dark-ink
    threshold or not). *)
Theorem candidate_classification (data : list Z) (height : nat) :
  (forall x y,
      pushed x y (analyze data height) <->
      (x < width)%nat /\ (y < height)%nat /\
      (50 <= getAlpha data height x y)%Z /\
      ((getLum data height x y < 180)%Q \/
       (15 < Qabs (getLum data height x y - getLum data height (x + 1) y))%Q \/
       (15 < Qabs (getLum data height x y - getLum data height x (y + 1)))%Q)) /\
  (forall x y,
      (getAlpha data height x y < 50)%Z -> ~ pushed x y (analyze data height)) /\
  (forall x y,
      (x < width)%nat -> (y < height)%nat ->
      (50 <= getAlpha data height x y)%Z ->
      (15 < Qabs (getLum data height x y - getLum data height (x + 1) y))%Q \/
      (15 < Qabs (getLum data height x y - getLum data height x (y + 1)))%Q ->
      analyze data height <> []).
Proof.
  split; [intros x y; apply pushed_analyze | split].
  - intros x y Ha H. apply pushed_analyze in H. lia.
  - intros x y Hx Hy Ha He Hnil.
    assert (H : pushed x y (analyze data height)).
    { apply pushed_analyze. repeat split; try assumption. tauto. }
    rewrite Hnil in H. exact H.
Qed.

End Extractor.

Section ExtractorExamples.
Import ImageToParticles.

Lemma candidate_classification_witness :
  (199 < width)%nat /\ (0 < 1)%nat /\
  (50 <= getAlpha boundary_image 1 199 0)%Z /\
  (15 < Qabs (getLum boundary_image 1 199 0 - getLum boundary_image 1 (199 + 1) 0))%Q /\
  ~ (getLum boundary_image 1 199 0 < 180)%Q /\
  ~ (getLum boundary_image 1 (199 + 1) 0 < 180)%Q /\
  pushed 199 0 (analyze boundary_image 1) /\
  analyze boundary_image 1 <> [].
Proof.
  assert (Hx : (199 < width)%nat) by (unfold width; lia).
  assert (Hy : (0 < 1)%nat) by lia.
  assert (Ha : (50 <= getAlpha boundary_image 1 199 0)%Z)
    by (apply Z.leb_le; vm_compute; reflexivity).
  assert (He : (15 < Qabs (getLum boundary_image 1 199 0
                           - getLum boundary_image 1 (199 + 1) 0))%Q)
    by (apply Qlt_bool_iff; vm_compute; reflexivity).
  destruct (candidate_classification boundary_image 1) as (H1 & _ & H3).
  repeat (split; [assumption |]).
  split; [| split; [| split]].
  - intros H. apply Qlt_bool_iff in H. vm_compute in H. discriminate H.
  - intros H. apply Qlt_bool_iff in H. vm_compute in H. discriminate H.
  - apply H1. repeat split; try assumption. right; left; exact He.
  - apply (H3 199%nat 0%nat Hx Hy Ha). left; exact He.
Defined.

End ExtractorExamples.

Section Resolution.
Import ImageToParticles.

Lemma zeros_length (n : nat) : length (zeros n) = n.
Proof. apply repeat_length. Qed.

Lemma store_length (a : Float32Array) (i : nat) (v : Q) :
  length (store a i v) = length a.
Proof.
  revert i. induction a as [| x a IH]; intros i; [reflexivity |].
  destruct i; simpl; [reflexivity | rewrite IH; reflexivity].
Qed.

Lemma sample_length (b : Browser) (c : list nat) (h : nat)
      (output : Float32Array) (i : nat) :
  length (sample b c h output i) = length output.
Proof. unfold sample. rewrite !store_length. reflexivity. Qed.

Lemma resample_length (b : Browser) (c : list nat) (h targetCount : nat) :
  length (resample b c h targetCount) = (targetCount * 3)%nat.
Proof.
  unfold resample.
  assert (H : forall l out, length (fold_left (sample b c h) l out) = length out).
  { induction l as [| i l IH]; intros out; simpl; [reflexivity |].
    rewrite IH. apply sample_length. }
  rewrite H. apply zeros_length.
Qed.

Lemma floor_scaled (r : Q) (n : nat) :
  (0 <= r)%Q -> (r < 1)%Q -> (0 < n)%nat ->
  (Z.to_nat (Qfloor (r * (inject_Z (Z.of_nat (2 * n)) / 2))) < n)%nat.
Proof.
  intros H0 H1 Hn.
  assert (E : (r * (inject_Z (Z.of_nat (2 * n)) / 2) == r * inject_Z (Z.of_nat n))%Q).
  { rewrite Nat2Z.inj_mul, inject_Z_mult. simpl (Z.of_nat 2). field. }
  rewrite E.
  set (x := (r * inject_Z (Z.of_nat n))%Q).
  assert (Hn' : (0 < inject_Z (Z.of_nat n))%Q).
  { change 0%Q with (inject_Z 0). rewrite <- Zlt_Qlt. lia. }
  assert (Hx0 : (0 <= x)%Q).
  { unfold x. apply Qmult_le_0_compat; [assumption | apply Qlt_le_weak; assumption]. }
  assert (Hx1 : (x < inject_Z (Z.of_nat n))%Q).
  { unfold x. rewrite <- (Qmult_1_l (inject_Z (Z.of_nat n))) at 2.
    apply Qmult_lt_compat_r; assumption. }
  assert (F0 : (0 <= Qfloor x)%Z).
  { change 0%Z with (Qfloor 0). apply Qfloor_resp_le. assumption. }
  assert (F1 : (Qfloor x < Z.of_nat n)%Z).
  { rewrite Zlt_Qlt. eapply Qle_lt_trans; [apply Qfloor_le | assumption]. }
  lia.
Qed.

Lemma interleaved_length (c : list nat) :
  interleaved c -> exists n, length c = (2 * n)%nat.
Proof.
  intros H. induction H as [| x y c Hc [n IH]].
  - exists 0%nat. reflexivity.
  - exists (S n). simpl. rewrite IH. lia.
Qed.

(** With [Math.random ()] in [[0, 1)], the sampling loop reads both
    coordinates of a candidate inside the array. *)
Lemma sampleIndex_in_range (b : Browser) (c : list nat) (k : nat) :
  random_ok b -> interleaved c -> c <> [] ->
  (sampleIndex b c k + 1 < length c)%nat.
Proof.
  intros Hr Hc Hne. destruct (interleaved_length Hc) as [n Hn].
  assert (Hpos : (0 < n)%nat).
  { destruct n; [| lia]. destruct c; [congruence | discriminate Hn]. }
  unfold sampleIndex. rewrite Hn.
  destruct (Hr k) as [H0 H1].
  pose proof (floor_scaled H0 H1 Hpos). lia.
Qed.

Lemma analyze_interleaved (data : list Z) (height : nat) :
  interleaved (analyze data height).
Proof.
  unfold analyze. apply interleaved_flat_map. intros y.
  apply interleaved_flat_map. intros x. apply visit_interleaved.
Qed.

(** Whenever the promise is fulfilled, the buffer has [3 * targetCount]
    entries; the promise is never rejected. *)
Lemma imageToPoints_length (b : Browser) (targetCount : nat) (v : Float32Array) :
  imageToPoints b targetCount = Fulfilled v -> length v = (targetCount * 3)%nat.
Proof.
  unfold imageToPoints, onload, onerror.
  destruct (decode b) as [img |].
  - destruct (context2d b); simpl.
    + destruct (getImageData b width (canvasHeight img)) as [data |]; [| discriminate].
      destruct (length (analyze data (canvasHeight img)) =? 0)%nat;
        intros [= <-]; [apply zeros_length | apply resample_length].
    + intros [= <-]. apply zeros_length.
  - intros [= <-]. apply zeros_length.
Qed.

Lemma imageToPoints_not_rejected (b : Browser) (targetCount : nat) :
  imageToPoints b targetCount <> Rejected.
Proof.
  unfold imageToPoints, onload, onerror.
  destruct (decode b) as [img |]; [| discriminate].
  destruct (context2d b); simpl; [| discriminate].
  destruct (getImageData b width (canvasHeight img)) as [data |]; [| discriminate].
  destruct (length (analyze data (canvasHeight img)) =? 0)%nat; discriminate.
Qed.

(** On the three failure paths the promise is fulfilled with zeros. *)
Lemma imageToPoints_failure (b : Browser) (targetCount : nat) :
  failure_path b ->
  imageToPoints b targetCount = Fulfilled (zeros (targetCount * 3)).
Proof.
  unfold failure_path, imageToPoints, onload, onerror.
  destruct (decode b) as [img |]; [| reflexivity].
  intros [Hc | (data & Hd & Ha)].
  - rewrite Hc. reflexivity.
  - destruct (context2d b); simpl; [| reflexivity].
    rewrite Hd, Ha. reflexivity.
Qed.

(** The promise is fulfilled as soon as the canvas has a row. *)
Lemma imageToPoints_fulfilled (b : Browser) (targetCount : nat) :
  (forall img, decode b = Some img -> canvasHeight img <> 0%nat) ->
  exists v, imageToPoints b targetCount = Fulfilled v.
Proof.
  unfold imageToPoints, onload, onerror, getImageData.
  destruct (decode b) as [img |]; [| eauto].
  intros H. specialize (H img eq_refl).
  destruct (context2d b); simpl; [| eauto].
  destruct (canvasHeight img); [congruence |]. simpl.
  destruct (length (analyze (pixels b) (S n)) =? 0)%nat; eauto.
Qed.

(** C2, where the code departs from it.  An image that decodes, 1000
    pixels wide and 1 pixel high, drawn with a 2D context available: the
    canvas height is [Math.floor (400 * (1 / 1000)) = 0], [getImageData]
    throws inside the [onload] handler, and the promise is never settled,
    whatever the particle count, the pixels and the random numbers. *)
Theorem wide_image_never_settles
        (targetCount : nat) (bytes : list Z) (rnd : nat -> Q) :
  canvasHeight {| img_width := 1000; img_height := 1 |} = 0%nat /\
  imageToPoints
    {| decode := Some {| img_width := 1000; img_height := 1 |};
       context2d := true;
       pixels := bytes;
       random := rnd |} targetCount = Pending.
Proof. split; reflexivity. Qed.

End Resolution.

(** ** The foliage layer's image buffer *)

Section ImageBuffer.
Import ImageToParticles FoliageLayer.

(** C6.  With the geometry attached, the effect sets the layer's
    image-configuration attribute to the supplied buffer when the buffer has
    exactly [3 * N] entries, and to the tree positions (the fallback) when
    its length differs from [3 * N] or no buffer is supplied; the tree
    attribute is untouched and the effect always completes.  With the
    geometry not attached the effect does nothing. *)
Theorem image_buffer_guard (N : nat) (g : BufferGeometry)
        (treePositions : Float32Array) (imagePoints : option Float32Array) :
  (exists g',
      useEffect N (Some g) treePositions imagePoints = Some g' /\
      aTreePos g' = aTreePos g /\
      (forall p, imagePoints = Some p -> length p = (3 * N)%nat -> aImagePos g' = p) /\
      (forall p, imagePoints = Some p -> length p <> (3 * N)%nat ->
                 aImagePos g' = treePositions) /\
      (imagePoints = None -> aImagePos g' = treePositions)) /\
  useEffect N None treePositions imagePoints = None.
Proof.
  split; [| reflexivity].
  eexists. split; [reflexivity |]. simpl. unfold count.
  split; [reflexivity |]. repeat split.
  - intros p -> Hp.
    replace (length p =? N * 3)%nat with true
      by (symmetry; apply Nat.eqb_eq; lia).
    reflexivity.
  - intros p -> Hp.
    replace (length p =? N * 3)%nat with false
      by (symmetry; apply Nat.eqb_neq; lia).
    reflexivity.
  - intros ->. reflexivity.
Qed.

Lemma image_buffer_guard_witness :
  let tree := [1; 2; 3; 4; 5; 6]%Q in
  let short := [7; 8; 9]%Q in
  let full := [7; 8; 9; 10; 11; 12]%Q in
  useEffect 2 (Some (render tree)) tree (Some short) = Some (render tree) /\
  useEffect 2 (Some (render tree)) tree None = Some (render tree) /\
  useEffect 2 (Some (render tree)) tree (Some full)
  = Some {| aTreePos := tree; aImagePos := full |}.
Proof.
  intros tree short full.
  destruct (image_buffer_guard 2 (render tree) tree (Some short))
    as [(g1 & E1 & T1 & _ & S1 & _) _].
  destruct (image_buffer_guard 2 (render tree) tree None)
    as [(g2 & E2 & T2 & _ & _ & N2) _].
  destruct (image_buffer_guard 2 (render tree) tree (Some full))
    as [(g3 & E3 & T3 & F3 & _ & _) _].
  specialize (S1 short eq_refl). specialize (N2 eq_refl).
  specialize (F3 full eq_refl eq_refl).
  assert (S1' : aImagePos g1 = tree) by (apply S1; simpl; lia).
  rewrite E1, E2, E3.
  destruct g1, g2, g3; simpl in *. subst. repeat split.
Defined.

End ImageBuffer.

(** ** The application's image point set *)

Section Installation.
Import ImageToParticles App.

Variable PARTICLE_COUNT : nat.
Variable DEFAULT_IMAGE_SRC_length : nat.

Local Abbreviation step := (App.step PARTICLE_COUNT DEFAULT_IMAGE_SRC_length).

Lemma notZero_Some (q : Q) : notZero (Some q) = true <-> ~ (q == 0)%Q.
Proof.
  unfold notZero. rewrite negb_true_iff. split.
  - intros H E. apply Qeq_bool_iff in E. congruence.
  - intros H. destruct (Qeq_bool q 0) eqn:E; [| reflexivity].
    apply Qeq_bool_iff in E. contradiction.
Qed.

Lemma hasValidPoints_nonzero (k : nat) (points : Float32Array) :
  length points = (k * 3)%nat -> hasValidPoints points = true -> hasNonZero points.
Proof.
  revert points. induction k as [| k IH]; intros points Hlen Hv.
  - destruct points; [discriminate Hv | discriminate Hlen].
  - destruct points as [| a [| b [| c rest]]]; try discriminate Hlen.
    cbn [hasValidPoints] in Hv.
    rewrite !orb_true_iff, !notZero_Some in Hv.
    destruct Hv as [[[Ha | Hb] | Hc] | Hrest].
    + exists a. split; [simpl; tauto | assumption].
    + exists b. split; [simpl; tauto | assumption].
    + exists c. split; [simpl; tauto | assumption].
    + destruct (IH rest) as (q & Hin & Hq); [simpl in Hlen; lia | assumption |].
      exists q. split; [simpl; tauto | assumption].
Qed.

Lemma hasValidPoints_allZero (k : nat) (points : Float32Array) :
  length points = (k * 3)%nat -> allZero points -> hasValidPoints points = false.
Proof.
  revert points. induction k as [| k IH]; intros points Hlen Hz.
  - destruct points; [reflexivity | discriminate Hlen].
  - destruct points as [| a [| b [| c rest]]]; try discriminate Hlen.
    inversion Hz as [| ? ? Ha Hz1]; subst.
    inversion Hz1 as [| ? ? Hb Hz2]; subst.
    inversion Hz2 as [| ? ? Hc Hz3]; subst.
    cbn [hasValidPoints].
    rewrite (IH rest) by (simpl in Hlen; lia || assumption).
    unfold notZero.
    apply Qeq_bool_iff in Ha, Hb, Hc. rewrite Ha, Hb, Hc. reflexivity.
Qed.

Lemma trackMode_points (st : App.t) : imagePoints (trackMode st) = imagePoints st.
Proof.
  unfold trackMode. destruct (negb _); reflexivity.
Qed.

Lemma gesture_points (st : App.t) :
  imagePoints (onHandOpen st) = imagePoints st /\
  imagePoints (onHandClose st) = imagePoints st /\
  (forall active, imagePoints (onHandLGesture active st) = imagePoints st).
Proof.
  unfold onHandOpen, onHandClose, onHandLGesture. repeat split.
  - destruct (_ && _); reflexivity.
  - destruct (_ && _); reflexivity.
  - intros active. destruct (active && _); [reflexivity |].
    destruct (negb active && _); reflexivity.
Qed.

(** a step either keeps the image point set or installs a buffer of
    [3 * PARTICLE_COUNT] entries on which the validity loop answered true *)
Lemma step_points (st : App.t) (e : Event) :
  imagePoints (step st e) = imagePoints st \/
  exists points,
    imagePoints (step st e) = Some points /\
    length points = (PARTICLE_COUNT * 3)%nat /\
    hasValidPoints points = true.
Proof.
  unfold App.step. rewrite trackMode_points.
  destruct e as [b | b | u | | | active]; simpl;
    try (left; reflexivity);
    try (left; apply gesture_points).
  - destruct (100 <? DEFAULT_IMAGE_SRC_length)%nat; [| left; reflexivity].
    destruct (imageToPoints b PARTICLE_COUNT) as [points | |] eqn:E; simpl;
      try (left; reflexivity).
    unfold defaultImageThen.
    destruct (hasValidPoints points) eqn:V; [| left; reflexivity].
    right. exists points. simpl.
    split; [reflexivity | split; [eapply imageToPoints_length; eassumption | assumption]].
  - destruct (imageToPoints b PARTICLE_COUNT) as [points | |] eqn:E; simpl;
      try (left; reflexivity).
    unfold uploadThen.
    destruct (hasValidPoints points) eqn:V; [| left; reflexivity].
    right. exists points. simpl.
    split; [reflexivity | split; [eapply imageToPoints_length; eassumption | assumption]].
Qed.

Lemma step_valid (st : App.t) (e : Event) : valid st -> valid (step st e).
Proof.
  intros Hst. destruct (step_points st e) as [E | (points & E & Hlen & Hv)].
  - unfold valid. rewrite E. exact Hst.
  - right. exists points. split; [exact E |].
    eapply hasValidPoints_nonzero; eassumption.
Qed.

Lemma fold_valid (es : list Event) (st : App.t) :
  valid st -> valid (fold_left step es st).
Proof.
  revert st. induction es as [| e es IH]; intros st Hst; simpl; [assumption |].
  apply IH, step_valid, Hst.
Qed.

(** C10.  After any sequence of events the installed image point set is
    absent or has an entry that is not zero; a step that changes it installs
    a buffer with an entry that is not zero; and the extraction of an
    uploaded or of the default image that is fulfilled with a buffer of
    zeros leaves the installed image point set as it was. *)
Theorem installed_points_nonzero (es : list Event) :
  (imagePoints (App.run PARTICLE_COUNT DEFAULT_IMAGE_SRC_length es) = None \/
   exists points,
     imagePoints (App.run PARTICLE_COUNT DEFAULT_IMAGE_SRC_length es) = Some points /\
     hasNonZero points) /\
  (forall st e,
      imagePoints (step st e) <> imagePoints st ->
      exists points, imagePoints (step st e) = Some points /\ hasNonZero points) /\
  (forall st b points,
      imageToPoints b PARTICLE_COUNT = Fulfilled points -> allZero points ->
      imagePoints (step st (ImageUpload b)) = imagePoints st /\
      imagePoints (step st (DefaultImage b)) = imagePoints st).
Proof.
  split; [| split].
  - apply (fold_valid es). left. reflexivity.
  - intros st e Hne. destruct (step_points st e) as [E | (points & E & Hlen & Hv)];
      [contradiction |].
    exists points. split; [exact E |].
    eapply hasValidPoints_nonzero; eassumption.
  - intros st b points E Hz.
    assert (Hv : hasValidPoints points = false).
    { eapply hasValidPoints_allZero; [| exact Hz].
      eapply imageToPoints_length; eassumption. }
    unfold App.step. rewrite !trackMode_points. simpl. rewrite E. simpl.
    unfold uploadThen, defaultImageThen. rewrite Hv.
    split; [reflexivity |].
    destruct (100 <? DEFAULT_IMAGE_SRC_length)%nat; reflexivity.
Qed.

End Installation.

Section InstallationExamples.
Import ImageToParticles App.

Lemma installed_points_nonzero_witness :
  let broken := {| decode := None; context2d := true;
                   pixels := []; random := fun _ => 0%Q |} in
  let st := {| uiState := uiState init;
               imagePoints := Some [1; 0; 0; 0; 0; 0]%Q;
               lastNonImageModeRef := TREE |} in
  imageToPoints broken 2 = Fulfilled (zeros 6) /\
  allZero (zeros 6) /\
  imagePoints (App.step 2 200 st (ImageUpload broken)) = imagePoints st /\
  imagePoints (App.step 2 200 st (DefaultImage broken)) = imagePoints st.
Proof.
  intros broken st.
  assert (E : imageToPoints broken 2 = Fulfilled (zeros 6)) by reflexivity.
  assert (Hz : allZero (zeros 6)) by (repeat constructor).
  destruct (installed_points_nonzero 2 200 []) as (_ & _ & H).
  destruct (H st broken (zeros 6) E Hz) as [H1 H2].
  repeat split; assumption.
Defined.

End InstallationExamples.

(** ** The modes of the application *)

Section Modes.
Import ImageToParticles App Invariants.

Variable PARTICLE_COUNT : nat.
Variable DEFAULT_IMAGE_SRC_length : nat.

Local Abbreviation appStep := (App.step PARTICLE_COUNT DEFAULT_IMAGE_SRC_length).
Local Abbreviation appRun := (App.run PARTICLE_COUNT DEFAULT_IMAGE_SRC_length).

Lemma mode_eqb_eq (a b : InteractionMode) : mode_eqb a b = true <-> a = b.
Proof. destruct a, b; simpl; split; congruence. Qed.

Lemma mode_eqb_neq (a b : InteractionMode) : mode_eqb a b = false <-> a <> b.
Proof. destruct a, b; simpl; split; congruence. Qed.

Lemma trackMode_tracked (st : App.t) :
  lastNonImageModeRef st <> IMAGE -> tracked (trackMode st).
Proof.
  intros H. unfold tracked, trackMode.
  destruct (mode_eqb (interactionMode (uiState st)) IMAGE) eqn:E; simpl.
  - apply mode_eqb_eq in E. split; [assumption | congruence].
  - apply mode_eqb_neq in E. split; [assumption | reflexivity].
Qed.

Lemma handle_ref (e : Event) (st : App.t) :
  lastNonImageModeRef (App.handle PARTICLE_COUNT DEFAULT_IMAGE_SRC_length e st)
  = lastNonImageModeRef st.
Proof.
  destruct e as [b | b | u | | | active]; simpl.
  - destruct (100 <? DEFAULT_IMAGE_SRC_length)%nat; [| reflexivity].
    destruct (imageToPoints b PARTICLE_COUNT); simpl; try reflexivity.
    unfold defaultImageThen. destruct (hasValidPoints value); reflexivity.
  - destruct (imageToPoints b PARTICLE_COUNT); simpl; try reflexivity.
    unfold uploadThen. destruct (hasValidPoints value); reflexivity.
  - reflexivity.
  - unfold onHandOpen. destruct (_ && _); reflexivity.
  - unfold onHandClose. destruct (_ && _); reflexivity.
  - unfold onHandLGesture. destruct (active && _); [reflexivity |].
    destruct (negb active && _); reflexivity.
Qed.

Lemma step_tracked (st : App.t) (e : Event) : tracked st -> tracked (appStep st e).
Proof.
  intros [H _]. unfold App.step. apply trackMode_tracked.
  rewrite handle_ref. exact H.
Qed.

Lemma init_tracked : tracked App.init.
Proof. split; [discriminate | reflexivity]. Qed.

Lemma run_tracked (es : list Event) : tracked (appRun es).
Proof.
  unfold App.run.
  assert (H : forall st, tracked st -> tracked (fold_left appStep es st)).
  { induction es as [| e es IH]; intros st Hst; simpl; [assumption |].
    apply IH, step_tracked, Hst. }
  apply H, init_tracked.
Qed.

Lemma trackMode_ui (st : App.t) : uiState (trackMode st) = uiState st.
Proof. unfold trackMode. destruct (negb _); reflexivity. Qed.

(** The L gesture is a round trip: in any state the application reaches,
    outside IMAGE mode, making the gesture and releasing it leads to IMAGE
    mode and back to the mode held before; and releasing the gesture never
    leaves the application in IMAGE mode. *)
Theorem l_gesture_round_trip (es : list Event) :
  let st := appRun es in
  interactionMode (uiState (appStep st (HandLGesture false))) <> IMAGE /\
  (interactionMode (uiState st) <> IMAGE ->
   interactionMode (uiState (appStep st (HandLGesture true))) = IMAGE /\
   interactionMode
     (uiState (appStep (appStep st (HandLGesture true)) (HandLGesture false)))
   = interactionMode (uiState st)).
Proof.
  cbv zeta. pose proof (run_tracked es) as [Href Hmode].
  set (st := appRun es) in *. split.
  - unfold App.step. rewrite trackMode_ui. simpl. unfold onHandLGesture. simpl.
    destruct (mode_eqb (interactionMode (uiState st)) IMAGE) eqn:E; simpl.
    + exact Href.
    + apply mode_eqb_neq. exact E.
  - intros Hne. specialize (Hmode Hne).
    assert (E : mode_eqb (interactionMode (uiState st)) IMAGE = false)
      by (apply mode_eqb_neq; exact Hne).
    assert (S1 : appStep st (HandLGesture true)
                 = {| uiState := setMode (uiState st) IMAGE;
                      imagePoints := imagePoints st;
                      lastNonImageModeRef := lastNonImageModeRef st |}).
    { unfold App.step. simpl. unfold onHandLGesture. rewrite E. reflexivity. }
    rewrite S1. split; [reflexivity |].
    unfold App.step. rewrite trackMode_ui. simpl. unfold onHandLGesture. simpl.
    exact Hmode.
Qed.

(** The hand-open and hand-close gestures neither enter nor leave IMAGE
    mode; outside IMAGE mode the first leads to SCATTERED and the second to
    TREE. *)
Theorem open_close_respect_image_mode (st : App.t) :
  let mode s := interactionMode (uiState s) in
  (mode st = IMAGE ->
   mode (appStep st HandOpen) = IMAGE /\ mode (appStep st HandClose) = IMAGE) /\
  (mode st <> IMAGE ->
   mode (appStep st HandOpen) = SCATTERED /\ mode (appStep st HandClose) = TREE).
Proof.
  cbv zeta. unfold App.step. rewrite !trackMode_ui. simpl.
  unfold onHandOpen, onHandClose.
  destruct st as [[m music camera] points ref]. simpl.
  destruct m; simpl; split; intros H;
    try discriminate; try contradiction; split; reflexivity.
Qed.

(** Once an image point set is installed, no event removes it: the
    application never goes back to having no image. *)
Theorem image_points_never_cleared (es1 es2 : list Event) :
  imagePoints (appRun es1) <> None -> imagePoints (appRun (es1 ++ es2)) <> None.
Proof.
  unfold App.run. rewrite fold_left_app.
  generalize (fold_left appStep es1 App.init). intros st.
  revert st. induction es2 as [| e es2 IH]; intros st Hst; simpl; [assumption |].
  apply IH.
  destruct (step_points PARTICLE_COUNT DEFAULT_IMAGE_SRC_length st e)
    as [E | (points & E & _)]; rewrite E; [assumption | discriminate].
Qed.

(** Every buffer the application installs has [3 * PARTICLE_COUNT] entries. *)
Lemma run_points_length (es : list Event) (points : Float32Array) :
  imagePoints (appRun es) = Some points ->
  length points = (PARTICLE_COUNT * 3)%nat.
Proof.
  unfold App.run.
  assert (H : forall st,
             (forall p, imagePoints st = Some p -> length p = (PARTICLE_COUNT * 3)%nat) ->
             forall p, imagePoints (fold_left appStep es st) = Some p ->
                       length p = (PARTICLE_COUNT * 3)%nat).
  { induction es as [| e es IH]; intros st Hst; simpl; [assumption |].
    apply IH. intros p Hp.
    destruct (step_points PARTICLE_COUNT DEFAULT_IMAGE_SRC_length st e)
      as [E | (q & E & Hlen & _)]; rewrite E in Hp.
    - apply Hst, Hp.
    - injection Hp as <-. exact Hlen. }
  apply H. intros p Hp. discriminate Hp.
Qed.

(** The foliage layer never turns down a buffer the application installed:
    whatever the events, the installed image point set passes the layer's
    length test and becomes its image-configuration attribute. *)
Theorem installed_points_reach_foliage
        (es : list Event) (points : Float32Array)
        (g : FoliageLayer.BufferGeometry) (treePositions : Float32Array) :
  imagePoints (appRun es) = Some points ->
  FoliageLayer.useEffect PARTICLE_COUNT (Some g) treePositions (Some points)
  = Some (FoliageLayer.setAttribute_aImagePos g points).
Proof.
  intros H. apply run_points_length in H.
  unfold FoliageLayer.useEffect, FoliageLayer.count.
  rewrite H, Nat.eqb_refl. reflexivity.
Qed.

(** The validity loop reads past the end of a buffer whose length is not a
    multiple of three, and [undefined] is not [0]: such a buffer is accepted
    even when all its entries are zero. *)
Theorem ragged_buffer_is_valid (points : Float32Array) :
  (length points mod 3 <> 0)%nat -> hasValidPoints points = true.
Proof.
  remember (length points) as n eqn:Hn. revert points Hn.
  induction n as [n IH] using lt_wf_ind. intros points Hn Hmod.
  destruct points as [| a [| b [| c rest]]].
  - simpl in Hn. subst n. contradiction Hmod. reflexivity.
  - cbn [hasValidPoints nth_error]. unfold notZero at 2. apply orb_true_r.
  - cbn [hasValidPoints nth_error]. unfold notZero at 3. apply orb_true_r.
  - cbn [hasValidPoints].
    rewrite (IH (length rest)) with (points := rest);
      [apply orb_true_r | simpl in Hn; lia | reflexivity |].
    simpl in Hn. subst n.
    replace (S (S (S (length rest)))) with (length rest + 1 * 3)%nat in Hmod by lia.
    rewrite Nat.Div0.mod_add in Hmod. exact Hmod.
Qed.

End Modes.

Section ModesExamples.
Import ImageToParticles App.

Lemma l_gesture_round_trip_witness :
  let st := App.run 0 0 [SetUiState {| interactionMode := SCATTERED;
                                       isPlayingMusic := false;
                                       isCameraEnabled := true |}] in
  interactionMode (uiState st) <> IMAGE /\
  interactionMode
    (uiState (App.step 0 0 (App.step 0 0 st (HandLGesture true)) (HandLGesture false)))
  = SCATTERED.
Proof.
  intros st.
  assert (H : interactionMode (uiState st) <> IMAGE) by discriminate.
  split; [exact H |].
  destruct (l_gesture_round_trip 0%nat 0%nat
              [SetUiState {| interactionMode := SCATTERED;
                             isPlayingMusic := false;
                             isCameraEnabled := true |}]) as [_ R].
  destruct (R H) as [_ R2]. exact R2.
Defined.

Lemma open_close_respect_image_mode_witness :
  interactionMode (uiState App.init) <> IMAGE /\
  interactionMode (uiState (App.step 0 0 App.init HandOpen)) = SCATTERED /\
  interactionMode (uiState (App.step 0 0 App.init HandClose)) = TREE.
Proof.
  assert (H : interactionMode (uiState App.init) <> IMAGE) by discriminate.
  split; [exact H |].
  exact (proj2 (open_close_respect_image_mode 0%nat 0%nat App.init) H).
Defined.

Lemma ragged_buffer_is_valid_witness :
  (length [0; 0; 0; 0]%Q mod 3 <> 0)%nat /\ hasValidPoints [0; 0; 0; 0]%Q = true.
Proof.
  assert (H : (length [0; 0; 0; 0]%Q mod 3 <> 0)%nat) by (simpl; discriminate).
  split; [exact H | exact (ragged_buffer_is_valid [0; 0; 0; 0]%Q H)].
Defined.

End ModesExamples.

(** ** The hand controller *)

Section Gestures.
Import ImageToParticles HandController.

Lemma finger_up_not_curled (lm : Hand) (tip pip : nat) :
  isFingerCurled lm tip pip = true -> isFingerUp lm tip pip = false.
Proof.
  unfold isFingerCurled, isFingerUp. intros H.
  apply Qlt_bool_iff in H.
  destruct (Qlt_bool (y (lm tip)) (y (lm pip))) eqn:E; [| reflexivity].
  apply Qlt_bool_iff in E. exfalso.
  exact (Qlt_irrefl _ (Qlt_trans _ _ _ H E)).
Qed.

Lemma extendedCount_le (lm : Hand) : (extendedCount lm <= 4)%nat.
Proof.
  unfold extendedCount.
  destruct (isFingerUp lm 8 6), (isFingerUp lm 12 10),
    (isFingerUp lm 16 14), (isFingerUp lm 20 18); simpl; lia.
Qed.

(** The three poses do not overlap, so the order in which they are tested
    decides nothing: a hand in the L pose has exactly one finger extended,
    the gesture is OPEN exactly when four fingers are extended and CLOSED
    exactly when none is. *)
Theorem gesture_tests_disjoint (lm : Hand) :
  (currentGesture lm = L_SHAPE -> extendedCount lm = 1%nat) /\
  (currentGesture lm = OPEN <-> extendedCount lm = 4%nat) /\
  (currentGesture lm = CLOSED <-> extendedCount lm = 0%nat).
Proof.
  pose proof (extendedCount_le lm) as Hle.
  unfold currentGesture.
  destruct (isThumbOpen lm && isFingerUp lm 8 6 && isFingerCurled lm 12 10
            && isFingerCurled lm 16 14 && isFingerCurled lm 20 18) eqn:EL.
  - repeat (apply andb_true_iff in EL; destruct EL as [EL ?]).
    assert (E1 : extendedCount lm = 1%nat).
    { unfold extendedCount.
      rewrite (@finger_up_not_curled lm 12 10), (@finger_up_not_curled lm 16 14),
        (@finger_up_not_curled lm 20 18) by assumption.
      replace (isFingerUp lm 8 6) with true by (symmetry; assumption).
      reflexivity. }
    rewrite E1. repeat split; try discriminate; intros; reflexivity.
  - destruct (4 <=? extendedCount lm)%nat eqn:E4.
    + apply Nat.leb_le in E4. repeat split; try discriminate; intros; lia.
    + apply Nat.leb_gt in E4.
      destruct (extendedCount lm =? 0)%nat eqn:E0.
      * apply Nat.eqb_eq in E0. repeat split; try discriminate; intros; lia || assumption.
      * apply Nat.eqb_neq in E0. repeat split; try discriminate; intros; lia.
Qed.

Lemma gesture_tests_disjoint_witness :
  let lPose : Hand :=
    fun i => {| x := if (i =? 4)%nat then 0.3 else 0.5;
                y := if (i =? 8)%nat then 0.2
                     else if (i =? 6)%nat then 0.4
                     else if ((i =? 12) || (i =? 16) || (i =? 20))%nat then 0.7
                     else 0.5 |} in
  currentGesture lPose = L_SHAPE /\ extendedCount lPose = 1%nat.
Proof.
  intros lPose.
  assert (H : currentGesture lPose = L_SHAPE) by (vm_compute; reflexivity).
  split; [exact H | exact (proj1 (gesture_tests_disjoint lPose) H)].
Defined.

Lemma remember_length (history : list Gesture) (g : Gesture) :
  (length (remember history g) <= S (length history))%nat /\
  ((length history <= 10)%nat -> (length (remember history g) <= 10)%nat).
Proof.
  unfold remember.
  assert (L : length (history ++ [g]) = S (length history))
    by (rewrite length_app; simpl; lia).
  destruct (10 <? length (history ++ [g]))%nat eqn:E.
  - apply Nat.ltb_lt in E.
    destruct (history ++ [g]) as [| h t] eqn:Ea; simpl in *; split; intros; lia.
  - apply Nat.ltb_ge in E. split; intros; lia.
Qed.

Lemma occurrences_le (g : Gesture) (history : list Gesture) :
  (occurrences g history <= length history)%nat.
Proof. unfold occurrences. apply filter_length_le. Qed.

Lemma open_closed_le (history : list Gesture) :
  (occurrences OPEN history + occurrences CLOSED history <= length history)%nat.
Proof.
  unfold occurrences. induction history as [| g history IH]; simpl; [lia |].
  destruct g; simpl; lia.
Qed.

Lemma onResults_history (r : list Hand) (st : t) :
  (length (gestureHistoryRef (fst (onResults r st)))
   <= S (length (gestureHistoryRef st)))%nat /\
  ((length (gestureHistoryRef st) <= 10)%nat ->
   (length (gestureHistoryRef (fst (onResults r st))) <= 10)%nat).
Proof.
  unfold onResults. destruct r as [| lm r]; simpl; [split; intros; lia |].
  destruct (toggleL _ _) as [active lcb]. simpl. apply remember_length.
Qed.

Lemma run_cons (r : list Hand) (results : list (list Hand)) (st : t) :
  run (r :: results) st
  = (fst (run results (fst (onResults r st))),
     snd (onResults r st) ++ snd (run results (fst (onResults r st)))).
Proof.
  simpl. destruct (onResults r st) as [st1 c1]. simpl.
  destruct (run results st1) as [st2 c2]. reflexivity.
Qed.

Lemma run_history (results : list (list Hand)) (st : t) :
  (length (gestureHistoryRef st) <= 10)%nat ->
  (length (gestureHistoryRef (fst (run results st))) <= 10)%nat.
Proof.
  revert st. induction results as [| r results IH]; intros st H; [exact H |].
  rewrite run_cons. simpl. apply IH, onResults_history, H.
Qed.

(** The gesture history never holds more than ten entries. *)
Theorem gesture_history_bounded (results : list (list Hand)) :
  (length (gestureHistoryRef (fst (run results init))) <= 10)%nat.
Proof. apply run_history. simpl. lia. Qed.

Lemma in_toggleL (lCount : nat) (active : bool) (c : Callback) :
  In c (snd (toggleL lCount active)) ->
  c = HandLGesture (negb active) /\ fst (toggleL lCount active) = negb active.
Proof.
  unfold toggleL.
  destruct (6 <? lCount)%nat; [| destruct (lCount <? 3)%nat];
    destruct active; simpl; intros H; try contradiction;
    destruct H as [<- | []]; split; reflexivity.
Qed.

Lemma in_movement (previousX : option Q) (currentX : Q) (c : Callback) :
  In c (movement previousX currentX) -> isMove c = true.
Proof.
  unfold movement. destruct previousX as [p |]; [| contradiction].
  destruct (Qlt_bool sensitivity (currentX - p)); [intros [<- | []]; reflexivity |].
  destruct (Qlt_bool (currentX - p) (- sensitivity)); [intros [<- | []]; reflexivity |].
  contradiction.
Qed.

Lemma in_openClose (active : bool) (o c : nat) (cb : Callback) :
  In cb (openClose active o c) ->
  active = false /\
  ((cb = HandOpen /\ (7 < o)%nat) \/ (cb = HandClose /\ (7 < c)%nat)).
Proof.
  unfold openClose. destruct active; simpl; [contradiction |].
  intros H. split; [reflexivity |]. apply in_app_or in H.
  destruct H as [H | H].
  - destruct (7 <? o)%nat eqn:E; [| contradiction].
    destruct H as [<- | []]. left. split; [reflexivity | apply Nat.ltb_lt, E].
  - destruct (7 <? c)%nat eqn:E; [| contradiction].
    destruct H as [<- | []]. right. split; [reflexivity | apply Nat.ltb_lt, E].
Qed.

(** what one call fires: movements, then at most one L-gesture callback,
    then the open and close callbacks *)
Lemma onResults_callbacks (r : list Hand) (st : t) (cb : Callback) :
  In cb (snd (onResults r st)) ->
  exists lm, head r = Some lm /\
    let history := remember (gestureHistoryRef st) (currentGesture lm) in
    (isMove cb = true \/
     (cb = HandLGesture (negb (isLActiveRef st)) /\
      isLActiveRef (fst (onResults r st)) = negb (isLActiveRef st)) \/
     (isLActiveRef (fst (onResults r st)) = false /\
      ((cb = HandOpen /\ (7 < occurrences OPEN history)%nat) \/
       (cb = HandClose /\ (7 < occurrences CLOSED history)%nat)))).
Proof.
  unfold onResults. destruct r as [| lm r]; simpl; [contradiction |].
  exists lm. split; [reflexivity |].
  pose proof (@in_toggleL
                (occurrences L_SHAPE
                   (remember (gestureHistoryRef st) (currentGesture lm)))
                (isLActiveRef st) cb) as HL.
  destruct (toggleL _ _) as [active lcb]. simpl in *.
  apply in_app_or in H. destruct H as [H | H].
  - left. eapply in_movement, H.
  - apply in_app_or in H. destruct H as [H | H].
    + right; left. apply HL, H.
    + right; right. apply in_openClose in H. exact H.
Qed.

(** In any state the controller reaches, one call never fires both the
    hand-open and the hand-close callback, and fires neither while the L
    gesture is active. *)
Theorem open_close_exclusive (results : list (list Hand)) (r : list Hand) :
  let st := fst (run results init) in
  let fired := snd (onResults r st) in
  ~ (In HandOpen fired /\ In HandClose fired) /\
  (isLActiveRef (fst (onResults r st)) = true ->
   ~ In HandOpen fired /\ ~ In HandClose fired).
Proof.
  cbv zeta.
  assert (Hlen : (length (gestureHistoryRef (fst (run results init))) <= 10)%nat)
    by (apply run_history; simpl; lia).
  set (st := fst (run results init)) in *.
  split.
  - intros [Ho Hc].
    apply onResults_callbacks in Ho. apply onResults_callbacks in Hc.
    destruct Ho as (lm & Hr & Ho). destruct Hc as (lm' & Hr' & Hc).
    rewrite Hr in Hr'. injection Hr' as <-. cbv zeta in *.
    destruct Ho as [Ho | [[Ho _] | [_ [[_ Ho] | [Ho _]]]]]; try discriminate Ho.
    destruct Hc as [Hc | [[Hc _] | [_ [[Hc _] | [_ Hc]]]]]; try discriminate Hc.
    pose proof (open_closed_le (remember (gestureHistoryRef st) (currentGesture lm))).
    pose proof (proj2 (remember_length (gestureHistoryRef st) (currentGesture lm)) Hlen).
    lia.
  - intros Ha. split; intros H; apply onResults_callbacks in H;
      destruct H as (lm & _ & H); cbv zeta in H;
      destruct H as [H | [[H _] | [Hf _]]];
      try discriminate H; congruence.
Qed.

End Gestures.

Section Debounce.
Import ImageToParticles HandController.

Lemma lFlags_app (a b : list Callback) : lFlags (a ++ b) = lFlags a ++ lFlags b.
Proof.
  induction a as [| c a IH]; simpl; [reflexivity |].
  destruct c; simpl; rewrite ?IH; reflexivity.
Qed.

Lemma lFlags_movement (previousX : option Q) (currentX : Q) :
  lFlags (movement previousX currentX) = [].
Proof.
  unfold movement. destruct previousX as [p |]; [| reflexivity].
  destruct (Qlt_bool sensitivity (currentX - p)); [reflexivity |].
  destruct (Qlt_bool (currentX - p) (- sensitivity)); reflexivity.
Qed.

Lemma lFlags_openClose (active : bool) (o c : nat) :
  lFlags (openClose active o c) = [].
Proof.
  unfold openClose. destruct active; simpl; [reflexivity |].
  destruct (7 <? o)%nat, (7 <? c)%nat; reflexivity.
Qed.

Lemma toggleL_cases (lCount : nat) (active : bool) :
  toggleL lCount active = (active, []) \/
  toggleL lCount active = (negb active, [HandLGesture (negb active)]).
Proof.
  unfold toggleL.
  destruct (6 <? lCount)%nat; [| destruct (lCount <? 3)%nat];
    destruct active; simpl; auto.
Qed.

Lemma lFlags_onResults (r : list Hand) (st : t) :
  (lFlags (snd (onResults r st)) = [] /\
   isLActiveRef (fst (onResults r st)) = isLActiveRef st) \/
  (lFlags (snd (onResults r st)) = [negb (isLActiveRef st)] /\
   isLActiveRef (fst (onResults r st)) = negb (isLActiveRef st)).
Proof.
  unfold onResults. destruct r as [| lm r]; [left; split; reflexivity |].
  cbv zeta.
  destruct (toggleL_cases
              (occurrences L_SHAPE
                 (remember (gestureHistoryRef st) (currentGesture lm)))
              (isLActiveRef st)) as [E | E];
    rewrite E; cbn [fst snd isLActiveRef];
    rewrite !lFlags_app, lFlags_movement, lFlags_openClose;
    [left | right]; split; reflexivity.
Qed.

Lemma run_alternates (results : list (list Hand)) (st : t) :
  alternates (negb (isLActiveRef st)) (lFlags (snd (run results st))).
Proof.
  revert st. induction results as [| r results IH]; intros st; [exact I |].
  rewrite run_cons. simpl. rewrite lFlags_app.
  specialize (IH (fst (onResults r st))).
  destruct (lFlags_onResults r st) as [[E1 E2] | [E1 E2]];
    rewrite E1; rewrite E2 in IH; simpl.
  - exact IH.
  - split; [reflexivity | exact IH].
Qed.

(** The L-gesture callback is never fired twice with the same flag in a
    row: over any run of the controller its flags alternate, starting with
    [true]. *)
Theorem l_callbacks_alternate (results : list (list Hand)) :
  alternates true (lFlags (snd (run results init))).
Proof. apply (run_alternates results init). Qed.

Lemma quiet_start (results : list (list Hand)) (st : t) :
  isLActiveRef st = false ->
  (length (gestureHistoryRef st) + length results <= 6)%nat ->
  forall cb, In cb (snd (run results st)) -> isMove cb = true.
Proof.
  revert st. induction results as [| r results IH]; intros st Ha Hn cb Hin;
    [contradiction |].
  rewrite run_cons in Hin. simpl in Hin, Hn.
  pose proof (proj1 (onResults_history r st)) as Hh.
  assert (Hstep : forall c, In c (snd (onResults r st)) -> isMove c = true).
  { intros c Hc. apply onResults_callbacks in Hc.
    destruct Hc as (lm & _ & Hc). cbv zeta in Hc.
    pose proof (proj1 (remember_length (gestureHistoryRef st) (currentGesture lm))).
    pose proof (occurrences_le OPEN (remember (gestureHistoryRef st) (currentGesture lm))).
    pose proof (occurrences_le CLOSED (remember (gestureHistoryRef st) (currentGesture lm))).
    destruct Hc as [Hc | [[Hc Hf] | [_ [[_ Hc] | [_ Hc]]]]]; [assumption | | lia | lia].
    exfalso. revert Hf. unfold onResults. destruct r as [| lm' r']; simpl;
      [rewrite Ha; discriminate |].
    unfold toggleL.
    pose proof (proj1 (remember_length (gestureHistoryRef st) (currentGesture lm'))).
    pose proof (occurrences_le L_SHAPE
                  (remember (gestureHistoryRef st) (currentGesture lm'))).
    replace (6 <? occurrences L_SHAPE
                    (remember (gestureHistoryRef st) (currentGesture lm')))%nat
      with false by (symmetry; apply Nat.ltb_ge; lia).
    rewrite Ha. destruct (_ <? 3)%nat; simpl; discriminate. }
  apply in_app_or in Hin. destruct Hin as [Hin | Hin]; [apply Hstep, Hin |].
  apply IH with (st := fst (onResults r st)); [| lia | exact Hin].
  destruct (lFlags_onResults r st) as [[_ E] | [E _]]; [rewrite E; exact Ha |].
  exfalso.
  assert (Hl : In (HandLGesture (negb (isLActiveRef st))) (snd (onResults r st))).
  { clear - E. induction (snd (onResults r st)) as [| c l IHl]; [discriminate E |].
    destruct c; simpl in E; try (right; apply IHl, E).
    injection E as E _. left. rewrite E. reflexivity. }
  apply Hstep in Hl. discriminate Hl.
Qed.

Lemma slow_start (results : list (list Hand)) (st : t) :
  (length (gestureHistoryRef st) + length results <= 7)%nat ->
  ~ In HandOpen (snd (run results st)) /\ ~ In HandClose (snd (run results st)).
Proof.
  revert st. induction results as [| r results IH]; intros st Hn;
    [split; intros [] |].
  rewrite run_cons. simpl in *.
  pose proof (proj1 (onResults_history r st)) as Hh.
  destruct (IH (fst (onResults r st))) as [IHo IHc]; [lia |].
  split; intros Hin; apply in_app_or in Hin;
    (destruct Hin as [Hin | Hin]; [| contradiction]);
    apply onResults_callbacks in Hin; destruct Hin as (lm & _ & Hc);
    cbv zeta in Hc;
    pose proof (proj1 (remember_length (gestureHistoryRef st) (currentGesture lm)));
    pose proof (occurrences_le OPEN (remember (gestureHistoryRef st) (currentGesture lm)));
    pose proof (occurrences_le CLOSED (remember (gestureHistoryRef st) (currentGesture lm)));
    destruct Hc as [Hc | [[Hc _] | [_ [[Hc Ho] | [Hc Ho]]]]];
    try discriminate Hc; lia.
Qed.

(** The debounce delays every gesture: from its initial state the
    controller fires nothing but movement callbacks during its first six
    results, and neither the hand-open nor the hand-close callback during
    its first seven. *)
Theorem debounce_latency (results : list (list Hand)) :
  ((length results <= 6)%nat ->
   forall cb, In cb (snd (run results init)) -> isMove cb = true) /\
  ((length results <= 7)%nat ->
   ~ In HandOpen (snd (run results init)) /\
   ~ In HandClose (snd (run results init))).
Proof.
  split; intros H.
  - apply quiet_start; [reflexivity | simpl; lia].
  - apply slow_start. simpl. lia.
Qed.

(** A movement callback is fired at most once per result, and only for a
    displacement of the wrist larger than the sensitivity, which it
    receives as a positive amount. *)
Theorem movement_threshold (r : list Hand) (st : t) :
  (length (filter isMove (snd (onResults r st))) <= 1)%nat /\
  (forall d, In (HandMoveRight d) (snd (onResults r st)) \/
             In (HandMoveLeft d) (snd (onResults r st)) ->
             (sensitivity < d)%Q).
Proof.
  assert (M : forall p c,
             (length (movement p c) <= 1)%nat /\
             (forall d, In (HandMoveRight d) (movement p c) \/
                        In (HandMoveLeft d) (movement p c) ->
                        (sensitivity < d)%Q)).
  { intros p c. unfold movement. destruct p as [p |];
      [| split; [simpl; lia | intros d [[] | []]]].
    destruct (Qlt_bool sensitivity (c - p)) eqn:E1.
    - apply Qlt_bool_iff in E1. split; [simpl; lia |].
      intros d [[H | []] | [H | []]]; [| discriminate H].
      injection H as <-.
      assert (E : Qabs (c - p) == c - p).
      { apply Qabs_pos, Qlt_le_weak. eapply Qlt_trans; [| exact E1]. reflexivity. }
      rewrite E. exact E1.
    - destruct (Qlt_bool (c - p) (- sensitivity)) eqn:E2;
        [| split; [simpl; lia | intros d [[] | []]]].
      apply Qlt_bool_iff in E2. split; [simpl; lia |].
      intros d [[H | []] | [H | []]]; [discriminate H |].
      injection H as <-.
      assert (E : Qabs (c - p) == - (c - p)).
      { apply Qabs_neg, Qlt_le_weak. eapply Qlt_trans; [exact E2 |]. reflexivity. }
      rewrite E. apply Qopp_lt_compat in E2. rewrite Qopp_opp in E2. exact E2. }
  unfold onResults. destruct r as [| lm r]; simpl;
    [split; [lia | intros d [[] | []]] |].
  destruct (toggleL _ _) as [active lcb] eqn:ET. simpl.
  assert (FL : filter isMove lcb = [] /\ forall c, In c lcb -> isMove c = false).
  { unfold toggleL in ET.
    destruct (6 <? _)%nat; [| destruct (_ <? 3)%nat];
      destruct (isLActiveRef st); simpl in ET; injection ET as <- <-;
      split; try reflexivity; intros c []; subst; try reflexivity; contradiction. }
  assert (FO : forall a o c, filter isMove (openClose a o c) = [] /\
                             forall cb, In cb (openClose a o c) -> isMove cb = false).
  { intros a o c. unfold openClose.
    destruct a, (7 <? o)%nat, (7 <? c)%nat; simpl; split; try reflexivity;
      intros cb H; repeat (destruct H as [<- | H]; [reflexivity |]); contradiction. }
  destruct (M (previousXRef st) (x (lm 0%nat))) as [M1 M2].
  destruct FL as [FL1 FL2].
  split.
  - rewrite !filter_app, FL1, (proj1 (FO _ _ _)), !app_nil_r.
    eapply Nat.le_trans; [apply filter_length_le | exact M1].
  - intros d H. apply M2.
    assert (G : forall c, isMove c = true ->
                 In c (movement (previousXRef st) (x (lm 0%nat)) ++ lcb
                       ++ openClose active
                            (occurrences OPEN
                               (remember (gestureHistoryRef st) (currentGesture lm)))
                            (occurrences CLOSED
                               (remember (gestureHistoryRef st) (currentGesture lm)))) ->
                 In c (movement (previousXRef st) (x (lm 0%nat)))).
    { intros c Hc Hin. apply in_app_or in Hin. destruct Hin as [Hin | Hin]; [exact Hin |].
      apply in_app_or in Hin. destruct Hin as [Hin | Hin].
      - apply FL2 in Hin. congruence.
      - apply (proj2 (FO _ _ _)) in Hin. congruence. }
    destruct H as [H | H]; [left | right]; apply G; try reflexivity; exact H.
Qed.

End Debounce.

(** ** The application driven by the overlay and the hand controller *)

Section Sessions.
Import ImageToParticles App Invariants.

Variable PARTICLE_COUNT : nat.
Variable DEFAULT_IMAGE_SRC_length : nat.

Local Abbreviation appStep := (App.step PARTICLE_COUNT DEFAULT_IMAGE_SRC_length).
Local Abbreviation sStep := (Session.step PARTICLE_COUNT DEFAULT_IMAGE_SRC_length).
Local Abbreviation sRun := (Session.run PARTICLE_COUNT DEFAULT_IMAGE_SRC_length).
Local Abbreviation deliver := (Session.deliver PARTICLE_COUNT DEFAULT_IMAGE_SRC_length).
Local Abbreviation modeOf := (fun a : App.t => interactionMode (uiState a)).

Lemma step_mode (st : App.t) (e : Event) :
  modeOf (appStep st e)
  = modeOf (App.handle PARTICLE_COUNT DEFAULT_IMAGE_SRC_length e st).
Proof. unfold App.step. rewrite trackMode_ui. reflexivity. Qed.

Lemma deliver_moves (cs : list HandController.Callback) (a : App.t) :
  (forall c, In c cs -> HandController.isMove c = true) ->
  fold_left deliver cs a = a.
Proof.
  revert a. induction cs as [| c cs IH]; intros a H; simpl; [reflexivity |].
  assert (Hc : HandController.isMove c = true) by (apply H; left; reflexivity).
  destruct c; try discriminate Hc; simpl; apply IH; intros c' Hin; apply H; right; exact Hin.
Qed.

Lemma deliver_openClose (o c : nat) (a : App.t) :
  tracked a -> modeOf a <> IMAGE ->
  tracked (fold_left deliver (HandController.openClose false o c) a) /\
  modeOf (fold_left deliver (HandController.openClose false o c) a) <> IMAGE.
Proof.
  intros Ht Hm. unfold HandController.openClose. simpl.
  assert (S1 : forall a0, tracked a0 -> modeOf a0 <> IMAGE ->
             tracked (appStep a0 HandOpen) /\ modeOf (appStep a0 HandOpen) <> IMAGE).
  { intros a0 T M. split; [apply step_tracked, T |].
    rewrite (proj1 (proj2 (open_close_respect_image_mode
                             PARTICLE_COUNT DEFAULT_IMAGE_SRC_length a0) M)).
    discriminate. }
  assert (S2 : forall a0, tracked a0 -> modeOf a0 <> IMAGE ->
             tracked (appStep a0 HandClose) /\ modeOf (appStep a0 HandClose) <> IMAGE).
  { intros a0 T M. split; [apply step_tracked, T |].
    rewrite (proj2 (proj2 (open_close_respect_image_mode
                             PARTICLE_COUNT DEFAULT_IMAGE_SRC_length a0) M)).
    discriminate. }
  destruct (7 <? o)%nat, (7 <? c)%nat; simpl; unfold Session.deliver; simpl; auto.
  destruct (S1 a Ht Hm) as [T1 M1]. apply S2; assumption.
Qed.

Lemma release_leaves_image (a : App.t) :
  tracked a -> modeOf (appStep a (HandLGesture false)) <> IMAGE.
Proof.
  intros [Href _]. rewrite step_mode. simpl. unfold onHandLGesture. simpl.
  destruct (mode_eqb (interactionMode (uiState a)) IMAGE) eqn:E; simpl.
  - exact Href.
  - apply mode_eqb_neq. exact E.
Qed.

Lemma results_inStep (r : list HandController.Hand) (s : Session.t) :
  inStep s -> inStep (sStep s (Session.Results r)).
Proof.
  intros [Ht Hi]. unfold Session.step, HandController.onResults.
  destruct r as [| lm r]; [split; assumption |]. cbv zeta.
  set (hist := HandController.remember _ _).
  destruct (toggleL_cases
              (HandController.occurrences HandController.L_SHAPE hist)
              (HandController.isLActiveRef (Session.hands s))) as [E | E];
    rewrite E; cbn [Session.app Session.hands HandController.isLActiveRef];
    rewrite !fold_left_app;
    rewrite (@deliver_moves (HandController.movement _ _))
      by (intros c; apply in_movement).
  - simpl (fold_left _ [] _).
    destruct (HandController.isLActiveRef (Session.hands s)) eqn:Ea.
    + unfold HandController.openClose. simpl. split; assumption.
    + assert (Hm : modeOf (Session.app s) <> IMAGE).
      { intros H. apply Hi in H. discriminate H. }
      destruct (@deliver_openClose
                  (HandController.occurrences HandController.OPEN hist)
                  (HandController.occurrences HandController.CLOSED hist)
                  (Session.app s) Ht Hm) as [T M].
      split; [exact T |]. split; [contradiction | discriminate].
  - destruct (HandController.isLActiveRef (Session.hands s)) eqn:Ea; simpl negb.
    + assert (Hm : modeOf (Session.app s) = IMAGE) by (apply Hi; reflexivity).
      cbn [fold_left]. unfold Session.deliver at 2. cbn [Session.dispatch].
      pose proof (release_leaves_image Ht) as R.
      destruct (@deliver_openClose
                  (HandController.occurrences HandController.OPEN hist)
                  (HandController.occurrences HandController.CLOSED hist)
                  (appStep (Session.app s) (HandLGesture false))
                  (@step_tracked _ _ _ (HandLGesture false) Ht) R) as [T M].
      split; [exact T |]. split; [contradiction | discriminate].
    + assert (Hm : modeOf (Session.app s) <> IMAGE).
      { intros H. apply Hi in H. discriminate H. }
      cbn [fold_left]. unfold Session.deliver at 2. cbn [Session.dispatch].
      unfold HandController.openClose, inStep.
      cbn [negb fold_left Session.app Session.hands HandController.isLActiveRef].
      split; [apply step_tracked, Ht |]. split; [reflexivity | intros _].
      rewrite step_mode. simpl. unfold onHandLGesture. simpl.
      replace (mode_eqb (interactionMode (uiState (Session.app s))) IMAGE)
        with false by (symmetry; apply mode_eqb_neq; exact Hm).
      reflexivity.
Qed.

Lemma click_inStep (b : Overlay.Button) (s : Session.t) :
  b <> Overlay.ImageToggle -> inStep s -> inStep (sStep s (Session.Click b)).
Proof.
  intros Hb [Ht Hi]. unfold Session.step, Overlay.click.
  destruct (Overlay.rendered b (Session.app s)) eqn:Er; [| split; assumption].
  unfold inStep. cbn [Session.app Session.hands].
  split; [apply step_tracked, Ht |].
  rewrite step_mode. simpl.
  destruct b; [| contradiction |]; simpl.
  - exact Hi.
  - simpl in Er. apply negb_true_iff, mode_eqb_neq in Er.
    assert (Ha : HandController.isLActiveRef (Session.hands s) = false).
    { destruct (HandController.isLActiveRef (Session.hands s)); [| reflexivity].
      exfalso. apply Er, Hi. reflexivity. }
    rewrite Ha.
    destruct (mode_eqb (interactionMode (uiState (Session.app s))) SCATTERED);
      split; discriminate.
Qed.

Lemma init_inStep : inStep (Session.init).
Proof.
  split; [apply init_tracked |]. simpl. split; discriminate.
Qed.

(** As long as neither the image toggle is clicked nor an extraction ends,
    the application is in IMAGE mode exactly while the hand controller holds
    the L gesture active: the two never disagree, whatever the hand results
    and the other clicks. *)
Theorem image_mode_follows_l_gesture (inputs : list Session.Input) :
  forallb Session.handsOnly inputs = true ->
  (interactionMode (uiState (Session.app (sRun inputs))) = IMAGE <->
   HandController.isLActiveRef (Session.hands (sRun inputs)) = true).
Proof.
  intros H. unfold Session.run.
  assert (G : forall s, inStep s -> inStep (fold_left sStep inputs s)).
  { induction inputs as [| i inputs IH]; intros s Hs; [exact Hs |].
    simpl in H. apply andb_true_iff in H. destruct H as [Hi H].
    simpl. apply (IH H).
    destruct i as [r | b | b | b]; try discriminate Hi.
    - apply results_inStep, Hs.
    - apply click_inStep; [| exact Hs]. intros ->. discriminate Hi. }
  exact (proj2 (G _ init_inStep)).
Qed.

Lemma step_image (st : App.t) (e : Event) :
  imagePoints (appStep st e)
  = imagePoints (App.handle PARTICLE_COUNT DEFAULT_IMAGE_SRC_length e st).
Proof. unfold App.step. apply trackMode_points. Qed.

Lemma screen_imageBacked (i : Session.Input) (s : Session.t) :
  Session.screenOnly i = true ->
  imageBacked (Session.app s) -> imageBacked (Session.app (sStep s i)).
Proof.
  intros Hi Hs. unfold imageBacked in *.
  destruct i as [r | b | b | b]; try discriminate Hi; unfold Session.step.
  - unfold Overlay.click.
    destruct (Overlay.rendered b (Session.app s)) eqn:Er; [| exact Hs].
    cbn [Session.app]. rewrite step_mode, step_image. simpl.
    destruct b; simpl in *.
    + exact Hs.
    + intros _. destruct (imagePoints (Session.app s)); [discriminate | discriminate Er].
    + destruct (mode_eqb (interactionMode (uiState (Session.app s))) SCATTERED);
        discriminate.
  - cbn [Session.app]. rewrite step_mode, step_image. simpl.
    destruct (100 <? DEFAULT_IMAGE_SRC_length)%nat; [| exact Hs].
    destruct (imageToPoints b PARTICLE_COUNT) as [points | |]; simpl; try exact Hs.
    unfold defaultImageThen.
    destruct (hasValidPoints points); simpl; [intros _; discriminate | exact Hs].
  - cbn [Session.app]. rewrite step_mode, step_image. simpl.
    destruct (imageToPoints b PARTICLE_COUNT) as [points | |]; simpl; try exact Hs.
    unfold uploadThen.
    destruct (hasValidPoints points); simpl; [intros _; discriminate | exact Hs].
Qed.

(** Through the overlay and the extractions alone (no hand results), the
    application is in IMAGE mode only with an image point set installed. *)
Theorem image_mode_needs_image (inputs : list Session.Input) :
  forallb Session.screenOnly inputs = true ->
  interactionMode (uiState (Session.app (sRun inputs))) = IMAGE ->
  imagePoints (Session.app (sRun inputs)) <> None.
Proof.
  intros H. unfold Session.run.
  assert (G : forall s, imageBacked (Session.app s) ->
                        imageBacked (Session.app (fold_left sStep inputs s))).
  { induction inputs as [| i inputs IH]; intros s Hs; [exact Hs |].
    simpl in H. apply andb_true_iff in H. destruct H as [Hi H].
    simpl. apply (IH H), screen_imageBacked; assumption. }
  apply G. intros E. discriminate E.
Qed.

(** The image toggle of the overlay does not remember the mode it left:
    with an image installed and outside IMAGE mode, clicking it twice ends
    in mode TREE, also when the first click left mode SCATTERED. *)
Theorem image_toggle_returns_to_tree (s : Session.t) :
  imagePoints (Session.app s) <> None ->
  interactionMode (uiState (Session.app s)) <> IMAGE ->
  interactionMode
    (uiState (Session.app
       (sStep (sStep s (Session.Click Overlay.ImageToggle))
              (Session.Click Overlay.ImageToggle)))) = TREE.
Proof.
  intros Hp Hm.
  assert (S1 : forall s0,
             imagePoints (Session.app s0) <> None ->
             Session.app (sStep s0 (Session.Click Overlay.ImageToggle))
             = appStep (Session.app s0)
                 (SetUiState (Overlay.toggleImageMode (uiState (Session.app s0))))).
  { intros s0 H0. unfold Session.step, Overlay.click. simpl.
    destruct (imagePoints (Session.app s0)); [reflexivity | contradiction]. }
  assert (E1 : interactionMode
                 (uiState (Session.app (sStep s (Session.Click Overlay.ImageToggle))))
               = IMAGE).
  { rewrite S1 by exact Hp. rewrite step_mode. simpl.
    replace (mode_eqb (interactionMode (uiState (Session.app s))) IMAGE)
      with false by (symmetry; apply mode_eqb_neq; exact Hm).
    reflexivity. }
  assert (P1 : imagePoints (Session.app (sStep s (Session.Click Overlay.ImageToggle)))
               <> None).
  { rewrite S1 by exact Hp. rewrite step_image. exact Hp. }
  rewrite (S1 _ P1), step_mode.
  cbn [App.handle withUi uiState]. unfold Overlay.toggleImageMode.
  rewrite E1. reflexivity.
Qed.

End Sessions.

Section SessionExamples.
Import ImageToParticles App Examples.

Lemma debounce_latency_witness :
  (length (repeat [openPose] 7) <= 7)%nat /\
  ~ In HandController.HandOpen
      (snd (HandController.run (repeat [openPose] 7) HandController.init)) /\
  In HandController.HandOpen
    (snd (HandController.run (repeat [openPose] 8) HandController.init)) /\
  (length (repeat [lPose] 6) <= 6)%nat /\
  (forall cb,
      In cb (snd (HandController.run (repeat [lPose] 6) HandController.init)) ->
      HandController.isMove cb = true) /\
  In (HandController.HandLGesture true)
    (snd (HandController.run (repeat [lPose] 7) HandController.init)).
Proof.
  assert (H7 : (length (repeat [openPose] 7) <= 7)%nat) by (simpl; lia).
  assert (H6 : (length (repeat [lPose] 6) <= 6)%nat) by (simpl; lia).
  split; [exact H7 | split; [| split; [| split; [exact H6 | split]]]].
  - exact (proj1 (proj2 (debounce_latency (repeat [openPose] 7)) H7)).
  - vm_compute. tauto.
  - exact (proj1 (debounce_latency (repeat [lPose] 6)) H6).
  - vm_compute. tauto.
Defined.

Lemma image_mode_follows_l_gesture_witness :
  let inputs := Session.Click Overlay.CameraToggle
                :: repeat (Session.Results [lPose]) 7 in
  forallb Session.handsOnly inputs = true /\
  HandController.isLActiveRef (Session.hands (Session.run 1 0 inputs)) = true /\
  interactionMode (uiState (Session.app (Session.run 1 0 inputs))) = IMAGE /\
  imagePoints (Session.app (Session.run 1 0 inputs)) = None.
Proof.
  intros inputs.
  assert (H : forallb Session.handsOnly inputs = true) by reflexivity.
  assert (A : HandController.isLActiveRef (Session.hands (Session.run 1 0 inputs)) = true)
    by (vm_compute; reflexivity).
  split; [exact H | split; [exact A | split]].
  - exact (proj2 (image_mode_follows_l_gesture 1 0 inputs H) A).
  - vm_compute. reflexivity.
Defined.

Lemma image_mode_needs_image_witness :
  let inputs := [Session.Uploaded boundary_browser] in
  forallb Session.screenOnly inputs = true /\
  interactionMode (uiState (Session.app (Session.run 1 0 inputs))) = IMAGE /\
  imagePoints (Session.app (Session.run 1 0 inputs)) <> None.
Proof.
  intros inputs.
  assert (H : forallb Session.screenOnly inputs = true) by reflexivity.
  assert (M : interactionMode (uiState (Session.app (Session.run 1 0 inputs))) = IMAGE)
    by (vm_compute; reflexivity).
  split; [exact H | split; [exact M |]].
  exact (image_mode_needs_image 1 0 inputs H M).
Defined.

Lemma image_toggle_returns_to_tree_witness :
  let s := Session.run 1 0 [Session.Uploaded boundary_browser;
                            Session.Click Overlay.ImageToggle;
                            Session.Click Overlay.ScatterToggle] in
  imagePoints (Session.app s) <> None /\
  interactionMode (uiState (Session.app s)) = SCATTERED /\
  interactionMode
    (uiState (Session.app
       (Session.step 1 0
          (Session.step 1 0 s (Session.Click Overlay.ImageToggle))
          (Session.Click Overlay.ImageToggle)))) = TREE.
Proof.
  intros s.
  assert (P : imagePoints (Session.app s) <> None) by (vm_compute; discriminate).
  assert (M : interactionMode (uiState (Session.app s)) = SCATTERED)
    by (vm_compute; reflexivity).
  split; [exact P | split; [exact M |]].
  apply (image_toggle_returns_to_tree 1 0 s P).
  rewrite M. discriminate.
Defined.

Lemma image_points_never_cleared_witness :
  imagePoints (App.run 1 0 [ImageUpload boundary_browser]) <> None /\
  imagePoints (App.run 1 0 ([ImageUpload boundary_browser]
                            ++ [ImageUpload broken_browser; HandOpen])) <> None.
Proof.
  assert (H : imagePoints (App.run 1 0 [ImageUpload boundary_browser]) <> None)
    by (vm_compute; discriminate).
  split; [exact H |].
  exact (image_points_never_cleared 1 0 [ImageUpload boundary_browser]
           [ImageUpload broken_browser; HandOpen] H).
Defined.

Lemma installed_points_reach_foliage_witness :
  let tree := [1; 2; 3]%Q in
  let points := [-32000 # 4000; 80800 # 40000; -0.05]%Q in
  imagePoints (App.run 1 0 [ImageUpload boundary_browser]) = Some points /\
  FoliageLayer.useEffect 1 (Some (FoliageLayer.render tree)) tree (Some points)
  = Some {| FoliageLayer.aTreePos := tree; FoliageLayer.aImagePos := points |}.
Proof.
  intros tree points.
  assert (H : imagePoints (App.run 1 0 [ImageUpload boundary_browser]) = Some points)
    by (vm_compute; reflexivity).
  split; [exact H |].
  exact (installed_points_reach_foliage 1 0 [ImageUpload boundary_browser]
           (FoliageLayer.render tree) tree H).
Defined.

End SessionExamples.

(** ** The sampled points *)

Section SampledPoints.
Import ImageToParticles Sampling.

Lemma nth_store_eq (a : Float32Array) (i : nat) (v d : Q) :
  (i < length a)%nat -> nth i (store a i v) d = v.
Proof.
  revert i. induction a as [| h a IH]; intros i Hi; simpl in Hi; [lia |].
  destruct i; simpl; [reflexivity | apply IH; lia].
Qed.

Lemma nth_store_neq (a : Float32Array) (i j : nat) (v d : Q) :
  i <> j -> nth j (store a i v) d = nth j a d.
Proof.
  revert i j. induction a as [| h a IH]; intros i j Hij; [reflexivity |].
  destruct i, j; simpl; try reflexivity; [contradiction | apply IH; lia].
Qed.

Section Loop.

Variable b : Browser.
Variable c : list nat.
Variable h : nat.

Lemma sample_stores (out : Float32Array) (i : nat) :
  sample b c h out i
  = store (store (store out (i * 3) (coordX b c i)) (i * 3 + 1) (coordY b c h i))
      (i * 3 + 2) (coordZ b i).
Proof. reflexivity. Qed.

Lemma sample_other (out : Float32Array) (i k : nat) (d : Q) :
  (k < i * 3 \/ i * 3 + 2 < k)%nat -> nth k (sample b c h out i) d = nth k out d.
Proof.
  intros Hk. rewrite sample_stores, !nth_store_neq by lia. reflexivity.
Qed.

Lemma sample_same (out : Float32Array) (i : nat) (d : Q) :
  (i * 3 + 2 < length out)%nat ->
  nth (i * 3) (sample b c h out i) d = coordX b c i /\
  nth (i * 3 + 1) (sample b c h out i) d = coordY b c h i /\
  nth (i * 3 + 2) (sample b c h out i) d = coordZ b i.
Proof.
  intros Hi. rewrite sample_stores. repeat split.
  - rewrite !nth_store_neq by lia. apply nth_store_eq. lia.
  - rewrite nth_store_neq by lia. apply nth_store_eq. rewrite store_length. lia.
  - apply nth_store_eq. rewrite !store_length. lia.
Qed.

Lemma fold_sample_other (l : list nat) (out : Float32Array) (j k : nat) (d : Q) :
  ~ In j l -> (j * 3 <= k <= j * 3 + 2)%nat ->
  nth k (fold_left (sample b c h) l out) d = nth k out d.
Proof.
  revert out. induction l as [| i l IH]; intros out Hj Hk; [reflexivity |].
  simpl. rewrite IH; [| intros H; apply Hj; right; exact H | exact Hk].
  apply sample_other.
  assert (i <> j) by (intros ->; apply Hj; left; reflexivity). lia.
Qed.

Lemma fold_sample_same (l : list nat) (out : Float32Array) (j : nat) (d : Q) :
  In j l -> (j * 3 + 2 < length out)%nat ->
  nth (j * 3) (fold_left (sample b c h) l out) d = coordX b c j /\
  nth (j * 3 + 1) (fold_left (sample b c h) l out) d = coordY b c h j /\
  nth (j * 3 + 2) (fold_left (sample b c h) l out) d = coordZ b j.
Proof.
  revert out. induction l as [| i l IH]; intros out Hj Hlen; [contradiction |].
  simpl. destruct (in_dec Nat.eq_dec j l) as [Hin | Hout].
  - apply IH; [exact Hin | rewrite sample_length; exact Hlen].
  - destruct Hj as [-> | Hin]; [| contradiction].
    rewrite !fold_sample_other with (j := j) by (assumption || lia).
    apply sample_same, Hlen.
Qed.

(** After the sampling loop, the three entries of particle [i] are the
    coordinates iteration [i] stored. *)
Lemma resample_nth (n i : nat) (d : Q) :
  (i < n)%nat ->
  nth (i * 3) (resample b c h n) d = coordX b c i /\
  nth (i * 3 + 1) (resample b c h n) d = coordY b c h i /\
  nth (i * 3 + 2) (resample b c h n) d = coordZ b i.
Proof.
  intros Hi. unfold resample. apply fold_sample_same.
  - apply in_seq. lia.
  - rewrite zeros_length. lia.
Qed.

End Loop.

Lemma pushed_pair (c : list nat) (k : nat) :
  interleaved c -> (k * 2 + 1 < length c)%nat ->
  pushed (nth (k * 2) c 0%nat) (nth (k * 2 + 1) c 0%nat) c.
Proof.
  intros Hc. revert k. induction Hc as [| x y c Hc IH]; intros k Hk;
    [simpl in Hk; lia |].
  destruct k as [| k]; simpl; [left; split; reflexivity |].
  right. apply IH. simpl in Hk. lia.
Qed.

Lemma Q_of_nat_bounds (p n : nat) :
  (p < n)%nat ->
  (0 <= inject_Z (Z.of_nat p))%Q /\
  (inject_Z (Z.of_nat p) <= inject_Z (Z.of_nat n) - 1)%Q.
Proof.
  intros H. split.
  - change 0%Q with (inject_Z 0). rewrite <- Zle_Qle. lia.
  - assert (E : inject_Z (Z.of_nat n) - 1 == inject_Z (Z.of_nat n - 1)).
    { unfold Z.sub. rewrite inject_Z_plus, inject_Z_opp. reflexivity. }
    rewrite E, <- Zle_Qle. lia.
Qed.

(** The sampled points lie in the box the extractor aims at: from the
    candidates of an image, with [Math.random ()] in [[0, 1)], every
    particle gets [x] in [[-8, 8)], [y] within [8 * height / 400] of the
    vertical offset 2, and [z] in [[-0.05, 0.05)]. *)
Theorem sampled_points_in_box
        (b : Browser) (data : list Z) (height n i : nat) :
  random_ok b -> analyze data height <> [] -> (i < n)%nat ->
  let out := resample b (analyze data height) height n in
  let ar := aspectRatio height in
  (-8 <= nth (i * 3) out 0 /\ nth (i * 3) out 0 < 8)%Q /\
  (2 - 8 * ar < nth (i * 3 + 1) out 0 /\ nth (i * 3 + 1) out 0 <= 2 + 8 * ar)%Q /\
  (-0.05 <= nth (i * 3 + 2) out 0 /\ nth (i * 3 + 2) out 0 < 0.05)%Q.
Proof.
  intros Hr Hne Hi. cbv zeta.
  destruct (resample_nth b (analyze data height) height 0%Q Hi) as (Ex & Ey & Ez).
  rewrite Ex, Ey, Ez. clear Ex Ey Ez.
  pose proof (analyze_interleaved data height) as Hc.
  pose proof (@sampleIndex_in_range b (analyze data height) (2 * i) Hr Hc Hne) as Hidx.
  assert (Hp : pushed (px b (analyze data height) i) (py b (analyze data height) i)
                      (analyze data height)).
  { unfold px, py. unfold sampleIndex in *. apply pushed_pair; assumption. }
  apply pushed_analyze in Hp. destruct Hp as (Hx & Hy & _).
  destruct (Q_of_nat_bounds Hx) as [X0 X1].
  destruct (Q_of_nat_bounds Hy) as [Y0 Y1].
  destruct (Hr (2 * i + 1)%nat) as [R0 R1].
  assert (Hh : (0 < inject_Z (Z.of_nat height))%Q).
  { change 0%Q with (inject_Z 0). rewrite <- Zlt_Qlt. lia. }
  unfold coordX, coordY, coordZ, aspectRatio, scale.
  set (p := inject_Z (Z.of_nat (px b (analyze data height) i))) in *.
  set (q := inject_Z (Z.of_nat (py b (analyze data height) i))) in *.
  set (hq := inject_Z (Z.of_nat height)) in *.
  set (r := random b (2 * i + 1)) in *.
  change (inject_Z (Z.of_nat width)) with 400%Q in *.
  assert (E : (- (q / hq - 0.5) * 16 * (hq / 400) + 2.0
               == - q * (1 # 25) + hq * (1 # 50) + 2)%Q)
    by (field; Lqa.lra).
  rewrite E. unfold Qdiv. change (/ 400)%Q with (1 # 400)%Q.
  repeat split; Lqa.lra.
Qed.

End SampledPoints.

(** ** Images without candidates, and images that never settle *)

Section Degenerate.
Import ImageToParticles.

Lemma interleaved_empty (c : list nat) :
  interleaved c -> (forall x y, ~ pushed x y c) -> c = [].
Proof.
  intros Hc H. destruct Hc as [| x y c Hc]; [reflexivity |].
  exfalso. apply (H x y). left. split; reflexivity.
Qed.

Lemma getImageData_rows (b : Browser) (h : nat) :
  h <> 0%nat -> getImageData b width h = Some (pixels b).
Proof.
  intros Hh. unfold getImageData. destruct h; [contradiction | reflexivity].
Qed.

(** An image whose pixels all have an alpha below 50 has no candidate, and
    its extraction is fulfilled with zeros. *)
Theorem transparent_image_gives_zeros
        (b : Browser) (img : HTMLImageElement) (targetCount : nat) :
  decode b = Some img -> canvasHeight img <> 0%nat ->
  (forall x y, (x < width)%nat -> (y < canvasHeight img)%nat ->
               (getAlpha (pixels b) (canvasHeight img) x y < 50)%Z) ->
  analyze (pixels b) (canvasHeight img) = [] /\
  imageToPoints b targetCount = Fulfilled (zeros (targetCount * 3)).
Proof.
  intros Hd Hh Ha.
  assert (E : analyze (pixels b) (canvasHeight img) = []).
  { apply interleaved_empty; [apply analyze_interleaved |].
    intros x y H. apply pushed_analyze in H. destruct H as (Hx & Hy & H50 & _).
    specialize (Ha x y Hx Hy). lia. }
  split; [exact E |].
  apply imageToPoints_failure. unfold failure_path. rewrite Hd.
  right. exists (pixels b). split; [apply getImageData_rows, Hh | exact E].
Qed.

Lemma canvasHeight_zero (img : HTMLImageElement) :
  canvasHeight img = 0%nat <->
  (400 * Zpos (img_height img) < Zpos (img_width img))%Z.
Proof.
  unfold canvasHeight. destruct img as [w h]. cbn [img_width img_height].
  assert (E : Qfloor (inject_Z (Z.of_nat width) * (inject_Z (Zpos h) / inject_Z (Zpos w)))
              = (400 * Zpos h / Zpos w)%Z).
  { unfold Qfloor, Qdiv, Qmult, Qinv, inject_Z. cbn [Qnum Qden].
    change (Z.of_nat width) with 400%Z.
    rewrite Z.mul_1_r, !Pos.mul_1_l. reflexivity. }
  rewrite E.
  assert (Hq : (0 <= 400 * Zpos h / Zpos w)%Z) by (apply Z.div_pos; lia).
  split.
  - intros H0. assert (Hz : (400 * Zpos h / Zpos w = 0)%Z) by lia.
    apply Z.div_small_iff in Hz; lia.
  - intros Hlt. rewrite Z.div_small by lia. reflexivity.
Qed.

(** The promise of an extraction stays pending exactly for the images that
    decode, with a 2D context, and are more than 400 times wider than high;
    for every other input it is fulfilled. *)
Theorem promise_pending_iff (b : Browser) (targetCount : nat) :
  (imageToPoints b targetCount = Pending <->
   exists img, decode b = Some img /\ context2d b = true /\
               (400 * Zpos (img_height img) < Zpos (img_width img))%Z) /\
  (imageToPoints b targetCount <> Pending ->
   exists v, imageToPoints b targetCount = Fulfilled v).
Proof.
  unfold imageToPoints, onload, onerror, getImageData.
  destruct (decode b) as [img |];
    [| split; [split; [discriminate | intros (i & H & _); discriminate H] | eauto]].
  destruct (context2d b); simpl;
    [| split; [split; [discriminate | intros (i & _ & H & _); discriminate H] | eauto]].
  destruct (canvasHeight img) as [| h] eqn:Eh; simpl.
  - split; [| intros H; contradiction].
    split; [intros _ | reflexivity].
    exists img. repeat split. apply canvasHeight_zero, Eh.
  - split.
    + split.
      * destruct (length (analyze (pixels b) (S h)) =? 0)%nat; discriminate.
      * intros (i & Hi & _ & Hlt). injection Hi as <-.
        apply canvasHeight_zero in Hlt. congruence.
    + intros _. destruct (length (analyze (pixels b) (S h)) =? 0)%nat; eauto.
Qed.

Lemma getLum_outside (data : list Z) (height x y : nat) :
  (width <= x)%nat \/ (height <= y)%nat -> getLum data height x y = 255%Q.
Proof.
  intros H. unfold getLum.
  replace ((width <=? x)%nat || (height <=? y)%nat) with true; [reflexivity |].
  symmetry. apply orb_true_iff.
  destruct H as [H | H]; [left | right]; apply Nat.leb_le; exact H.
Qed.

Lemma edge_same (a b0 L : Q) : a == L -> b0 == L -> ~ (15 < Qabs (a - b0))%Q.
Proof.
  intros Ea Eb H. rewrite Ea, Eb in H.
  assert (E : L - L == 0) by ring. rewrite E in H. vm_compute in H. discriminate H.
Qed.

Lemma edge_virtual (a L : Q) :
  a == L -> (L <= 255)%Q -> ((15 < Qabs (a - 255))%Q <-> (L < 240)%Q).
Proof.
  intros Ea HL. rewrite Ea.
  assert (E : Qabs (L - 255) == 255 - L).
  { rewrite Qabs_neg by Lqa.lra. ring. }
  rewrite E. split; intros H; Lqa.lra.
Qed.

(** The border is compared with white.  In an opaque image of one
    luminance [L] that is not dark ([180 <= L <= 255]), no pixel inside is a
    candidate; the candidates are the pixels of the last column and of the
    last row when [L < 240], and there is none when [L >= 240]. *)
Theorem uniform_image_candidates (data : list Z) (height : nat) (L : Q) :
  (forall x y, (x < width)%nat -> (y < height)%nat ->
               (50 <= getAlpha data height x y)%Z /\ getLum data height x y == L) ->
  (180 <= L)%Q -> (L <= 255)%Q ->
  forall x y,
    pushed x y (analyze data height) <->
    (x < width)%nat /\ (y < height)%nat /\ (L < 240)%Q /\
    (S x = width \/ S y = height).
Proof.
  intros Hu H180 H255 x y. rewrite pushed_analyze. split.
  - intros (Hx & Hy & _ & H). destruct (Hu x y Hx Hy) as [_ El].
    split; [exact Hx | split; [exact Hy |]].
    destruct H as [H | [H | H]].
    + rewrite El in H. exfalso. Lqa.lra.
    + destruct (Nat.eq_dec (S x) width) as [Ex | Ex].
      * rewrite (@getLum_outside data height (x + 1) y) in H by lia.
        split; [apply (edge_virtual El H255), H | left; exact Ex].
      * exfalso. refine (edge_same El _ H). apply Hu; lia.
    + destruct (Nat.eq_dec (S y) height) as [Ey | Ey].
      * rewrite (@getLum_outside data height x (y + 1)) in H by lia.
        split; [apply (edge_virtual El H255), H | right; exact Ey].
      * exfalso. refine (edge_same El _ H). apply Hu; lia.
  - intros (Hx & Hy & H240 & Hb). destruct (Hu x y Hx Hy) as [Ha El].
    repeat split; try assumption. right.
    destruct Hb as [Ex | Ey]; [left | right].
    + rewrite (@getLum_outside data height (x + 1) y) by lia.
      apply (edge_virtual El H255), H240.
    + rewrite (@getLum_outside data height x (y + 1)) by lia.
      apply (edge_virtual El H255), H240.
Qed.

End Degenerate.

(** ** Frames that add no time, and frames that follow one another *)

Section FrameAlgebra.
Local Open Scope R_scope.
Import GoldSpiralTree.

Lemma damp_zero (x : number) (y lambda : R) :
  isFinite x -> MathUtils.damp x (Fin y) (Fin lambda) (Fin 0) = x.
Proof.
  intros [r ->]. rewrite damp_finite. f_equal.
  rewrite Rmult_0_r, exp_0. ring.
Qed.

Lemma damp_merge (x : number) (y lambda d1 d2 : R) :
  isFinite x ->
  MathUtils.damp (MathUtils.damp x (Fin y) (Fin lambda) (Fin d1))
                 (Fin y) (Fin lambda) (Fin d2)
  = MathUtils.damp x (Fin y) (Fin lambda) (Fin (d1 + d2)).
Proof.
  intros [r ->]. rewrite !damp_finite. f_equal.
  replace (- lambda * (d1 + d2)) with (- lambda * d1 + - lambda * d2) by ring.
  rewrite exp_plus. ring.
Qed.

Lemma map_fixed (A : Type) (P : A -> Prop) (f : A -> A) (l : list A) :
  (forall a, P a -> f a = a) -> Forall P l -> map f l = l.
Proof.
  intros Hf Hl. induction Hl as [| a l Ha Hl IH]; simpl; [reflexivity |].
  rewrite IH, (Hf a Ha). reflexivity.
Qed.

Lemma map_merged (A : Type) (P : A -> Prop) (f g h : A -> A) (l : list A) :
  (forall a, P a -> g (f a) = h a) -> Forall P l -> map g (map f l) = map h l.
Proof.
  intros Hf Hl. induction Hl as [| a l Ha Hl IH]; simpl; [reflexivity |].
  rewrite IH, (Hf a Ha). reflexivity.
Qed.

Ltac finite := apply unit_finite; assumption.

(** Idempotence under a zero delta: a frame with [deltaTime = 0] leaves
    every transition scalar of a scene within [[0, 1]] as it was, in every
    mode. *)
Theorem zero_delta_frame (m : InteractionMode) (s : t) :
  bounded s -> useFrame {| mode := m; delta := Fin 0 |} s = s.
Proof.
  intros (H1 & H2 & (H3 & H3') & H4 & H5 & H6 & H7).
  destruct s as [fl sn fo be ms gs tr ts]. unfold useFrame. simpl in *.
  unfold SnowFloor.bounded, FallingSnow.bounded, GoldParticleLayer.bounded in *.
  unfold SnowFloor.useFrame, FallingSnow.useFrame, GoldParticleLayer.useFrame,
    FoliageLayer.useFrame.
  rewrite !damp_zero by finite.
  rewrite (@map_fixed _ MorphingInstancedMesh.bounded) by
    (try assumption; intros a [Ha Hb]; unfold MorphingInstancedMesh.useFrame;
     destruct a as [[] p v]; simpl in *; rewrite ?damp_zero by finite; reflexivity).
  rewrite (@map_fixed _ GiftBox.bounded) by
    (try assumption; intros a [Ha Hb]; unfold GiftBox.useFrame;
     destruct a as [[] p v]; simpl in *; rewrite ?damp_zero by finite; reflexivity).
  destruct fl, sn, fo, be, tr; reflexivity.
Qed.

Lemma zero_delta_frame_witness :
  bounded (mount SCATTERED) /\
  useFrame {| mode := IMAGE; delta := Fin 0 |} (mount SCATTERED) = mount SCATTERED.
Proof.
  assert (Hb : bounded (mount SCATTERED)).
  { unfold bounded, mount; simpl.
    repeat split;
      repeat constructor;
      try (eexists; split; [reflexivity | unfold pick; simpl; lra]). }
  split; [exact Hb | exact (zero_delta_frame IMAGE Hb)].
Defined.

(** Frame-rate independence: under one mode, two frames in a row leave
    the scene exactly where one frame of the summed [deltaTime] leaves it. *)
Theorem frames_merge (m : InteractionMode) (d1 d2 : R) (s : t) :
  bounded s ->
  useFrame {| mode := m; delta := Fin d2 |}
    (useFrame {| mode := m; delta := Fin d1 |} s)
  = useFrame {| mode := m; delta := Fin (d1 + d2) |} s.
Proof.
  intros (H1 & H2 & (H3 & H3') & H4 & H5 & H6 & H7).
  destruct s as [fl sn fo be ms gs tr ts]. unfold useFrame. simpl in *.
  unfold SnowFloor.bounded, FallingSnow.bounded, GoldParticleLayer.bounded in *.
  unfold SnowFloor.useFrame, FallingSnow.useFrame, GoldParticleLayer.useFrame,
    FoliageLayer.useFrame. simpl.
  rewrite !damp_merge by finite.
  rewrite (@map_merged _ MorphingInstancedMesh.bounded _ _
             (MorphingInstancedMesh.useFrame m (Fin (d1 + d2)))) by
    (try assumption; intros a [Ha Hb]; unfold MorphingInstancedMesh.useFrame;
     destruct a as [[] p v]; simpl in *; rewrite ?damp_merge by finite; reflexivity).
  rewrite (@map_merged _ GiftBox.bounded _ _
             (GiftBox.useFrame m (Fin (d1 + d2)))) by
    (try assumption; intros a [Ha Hb]; unfold GiftBox.useFrame;
     destruct a as [[] p v]; simpl in *; rewrite ?damp_merge by finite; reflexivity).
  destruct tr; [rewrite damp_merge by finite |]; reflexivity.
Qed.

Lemma frames_merge_witness :
  bounded (mount TREE) /\
  useFrame {| mode := SCATTERED; delta := Fin 0.25 |}
    (useFrame {| mode := SCATTERED; delta := Fin 0.75 |} (mount TREE))
  = useFrame {| mode := SCATTERED; delta := Fin (0.75 + 0.25) |} (mount TREE).
Proof.
  assert (Hb : bounded (mount TREE)).
  { unfold bounded, mount; simpl.
    repeat split;
      repeat constructor;
      try (eexists; split; [reflexivity | unfold pick; simpl; lra]). }
  split; [exact Hb | exact (frames_merge SCATTERED 0.75 0.25 Hb)].
Defined.

End FrameAlgebra.

(** ** Successive supplies of image points *)

Section Supplies.
Import ImageToParticles FoliageLayer FoliageSupplies.

Variable N : nat.
Variable treePositions : Float32Array.

Local Abbreviation supplied := (FoliageSupplies.supplied N treePositions).

(** The last supply decides: after any supplies the image-configuration
    attribute is what the last one alone gives, so a buffer of the wrong
    length, or none, that follows an accepted buffer puts the tree positions
    back. *)
Theorem last_supply_decides
        (g : BufferGeometry) (supplies : list (option Float32Array))
        (last : option Float32Array) :
  supplied (Some g) (supplies ++ [last])
  = useEffect N (Some g) treePositions last.
Proof.
  unfold FoliageSupplies.supplied. rewrite fold_left_app. simpl.
  assert (H : forall g0, exists a,
             fold_left (fun g p => useEffect N g treePositions p) supplies (Some g0)
             = Some (setAttribute_aImagePos g0 a)).
  { induction supplies as [| p ps IH]; intros g0.
    - exists (aImagePos g0). destruct g0; reflexivity.
    - simpl. destruct (IH (setAttribute_aImagePos g0
                             match p with
                             | Some p0 => if (length p0 =? count N * 3)%nat
                                          then p0 else treePositions
                             | None => treePositions
                             end)) as [a Ha].
      exists a. rewrite Ha. reflexivity. }
  destruct (H g) as [a ->]. reflexivity.
Qed.

(** Buffer alignment: when the tree buffer has [3 * N] entries, the
    image-configuration attribute has [3 * N] entries after any supplies,
    as many as the tree attribute. *)
Theorem image_attribute_aligned (supplies : list (option Float32Array)) :
  length treePositions = (3 * N)%nat ->
  exists g,
    supplied (Some (render treePositions)) supplies = Some g /\
    aTreePos g = treePositions /\
    length (aImagePos g) = (3 * N)%nat.
Proof.
  intros Hlen. unfold FoliageSupplies.supplied.
  assert (H : forall g0,
             aTreePos g0 = treePositions -> length (aImagePos g0) = (3 * N)%nat ->
             exists g,
               fold_left (fun g p => useEffect N g treePositions p) supplies (Some g0)
               = Some g /\
               aTreePos g = treePositions /\ length (aImagePos g) = (3 * N)%nat).
  { induction supplies as [| p ps IH]; intros g0 Ht Hi.
    - exists g0. repeat split; assumption.
    - simpl. apply IH; [exact Ht |]. simpl. unfold count.
      destruct p as [p |]; [| exact Hlen].
      destruct (length p =? N * 3)%nat eqn:E; [| exact Hlen].
      apply Nat.eqb_eq in E. lia. }
  apply H; [reflexivity | exact Hlen].
Qed.

End Supplies.

(** ** The star *)

Section Star.
Local Open Scope R_scope.
Import Three GemStar.

Lemma lerp_between (a b alpha : R) :
  0 <= alpha <= 1 -> 0 <= a <= 1 -> 0 <= b <= 1 -> 0 <= a + (b - a) * alpha <= 1.
Proof. intros Ha Hx Hb. split; nra. Qed.

Lemma targetScale_unit (m : InteractionMode) : unit3 (targetScale m).
Proof.
  unfold targetScale, unit3. destruct (mode_eqb m IMAGE); simpl; lra.
Qed.

(** The star is not damped but interpolated with the factor [2 * delta].
    With its group attached: a frame of at most half a second keeps a scale
    within [[0, 1]] within [[0, 1]]; a frame of exactly half a second puts
    position and scale on their targets; and a longer frame overshoots, so
    that in mode IMAGE the scale 1 becomes negative. *)
Theorem star_scale_bounds (m : InteractionMode) (elapsedTime delta : R) (st : t) :
  groupRef st = true ->
  (0 <= delta <= 1 / 2 -> unit3 (scale (group st)) ->
   unit3 (scale (group (useFrame m elapsedTime delta st)))) /\
  (delta = 1 / 2 ->
   scale (group (useFrame m elapsedTime delta st)) = targetScale m /\
   position (group (useFrame m elapsedTime delta st)) = targetPos m) /\
  (1 / 2 < delta -> scale (group st) = vec 1 1 1 ->
   x (scale (group (useFrame IMAGE elapsedTime delta st))) < 0).
Proof.
  intros Hg. unfold useFrame. rewrite Hg. cbn [group scale position].
  repeat split.
  - destruct H0 as (Hx & _ & _). destruct (targetScale_unit m) as (Tx & _ & _).
    apply lerp_between; [lra | assumption | assumption].
  - destruct H0 as (Hx & _ & _). destruct (targetScale_unit m) as (Tx & _ & _).
    apply lerp_between; [lra | assumption | assumption].
  - destruct H0 as (_ & Hy & _). destruct (targetScale_unit m) as (_ & Ty & _).
    apply lerp_between; [lra | assumption | assumption].
  - destruct H0 as (_ & Hy & _). destruct (targetScale_unit m) as (_ & Ty & _).
    apply lerp_between; [lra | assumption | assumption].
  - destruct H0 as (_ & _ & Hz). destruct (targetScale_unit m) as (_ & _ & Tz).
    apply lerp_between; [lra | assumption | assumption].
  - destruct H0 as (_ & _ & Hz). destruct (targetScale_unit m) as (_ & _ & Tz).
    apply lerp_between; [lra | assumption | assumption].
  - subst delta. unfold Vector3_lerp.
    destruct (targetScale m) as [tx ty tz]. cbn [x y z]. f_equal; field.
  - subst delta. unfold Vector3_lerp.
    destruct (targetPos m) as [tx ty tz]. cbn [x y z]. f_equal; field.
  - intros Hd Hs. rewrite Hs. simpl. lra.
Qed.

Lemma star_scale_bounds_witness :
  let st := {| groupRef := true;
               group := {| position := vec 0 0 0;
                           rotation := vec 0 0 0;
                           scale := vec 1 1 1 |};
               meshRef := true;
               emissiveIntensity := 1 |} in
  groupRef st = true /\ 0 <= 1 / 60 <= 1 / 2 /\ unit3 (scale (group st)) /\
  unit3 (scale (group (useFrame IMAGE 0 (1 / 60) st))) /\
  1 / 2 < 1 /\ x (scale (group (useFrame IMAGE 0 1 st))) < 0.
Proof.
  intros st.
  assert (Hg : groupRef st = true) by reflexivity.
  assert (Hd : 0 <= 1 / 60 <= 1 / 2) by lra.
  assert (Hu : unit3 (scale (group st))) by (unfold unit3; simpl; lra).
  assert (Hl : 1 / 2 < 1) by lra.
  destruct (star_scale_bounds IMAGE 0 (1 / 60) st Hg) as (B & _ & _).
  destruct (star_scale_bounds IMAGE 0 1 st Hg) as (_ & _ & O).
  repeat (split; [assumption |]).
  split; [exact (B Hd Hu) | split; [exact Hl | exact (O Hl eq_refl)]].
Defined.

End Star.

(** ** The instances and the gift boxes *)

Section Instances.
Local Open Scope R_scope.
Import Three Mixer.

Lemma Rlt_dec_false (a b : R) (A : Type) (u v : A) :
  b <= a -> (if Rlt_dec a b then u else v) = v.
Proof. intros H. destruct (Rlt_dec a b); [lra | reflexivity]. Qed.

Lemma Rlt_dec_true (a b : R) (A : Type) (u v : A) :
  a < b -> (if Rlt_dec a b then u else v) = u.
Proof. intros H. destruct (Rlt_dec a b); [reflexivity | lra]. Qed.

(** At progress 1 every instance has exactly its pose on the tree,
    whatever the time and whatever the shared object held before; and at
    visibility 0 every instance has scale zero, whatever the progress. *)
Theorem instances_settle
        (visibilityScale floatIntensity time : R) (dummy : Object3D) (i : nat)
        (particles : list InstanceData) :
  instances 1 visibilityScale floatIntensity time dummy i particles
  = map (settled visibilityScale) particles /\
  (forall progress,
      Forall (fun d => scale d = vec 0 0 0)
             (instances progress 0 floatIntensity time dummy i particles)).
Proof.
  split.
  - revert dummy i. induction particles as [| p ps IH]; intros dummy i; [reflexivity |].
    simpl. rewrite IH. f_equal.
    unfold particle, settled. rewrite Rlt_dec_false by lra.
    f_equal. unfold lerpVectors. destruct (treePos p), (scatterPos p). cbn [x y z].
    f_equal; ring.
  - intros progress. revert dummy i.
    induction particles as [| p ps IH]; intros dummy i; simpl; constructor; [| apply IH].
    unfold particle, multiplyScalar, vec.
    destruct (Rlt_dec progress 1); cbn [scale]; f_equal; ring.
Qed.

Lemma scaled_wave (w k c : R) : -1 <= w <= 1 -> 0 <= k -> 0 <= c -> Rabs (w * k * c) <= k * c.
Proof.
  intros Hw Hk Hc.
  assert (H : 0 <= k * c) by (apply Rmult_le_pos; assumption).
  replace (w * k * c) with (w * (k * c)) by ring.
  set (kc := k * c) in *. apply Rabs_le. split; nra.
Qed.

(** In flight, the secondary motion is bounded by what is left of the way:
    for a progress in [[0, 1)] an instance is displaced from its
    interpolated position by at most [0.02 * (1 - progress) * floatIntensity]
    along [x], [0.05] times that along [y] and not at all along [z], and
    its tilt stays within [0.5 * (1 - progress) * floatIntensity]. *)
Theorem instances_float_bounded
        (progress visibilityScale floatIntensity time : R) (dummy : Object3D)
        (i : nat) (particles : list InstanceData) :
  0 <= progress < 1 -> 0 <= floatIntensity ->
  Forall2 (floats_within progress floatIntensity) particles
    (instances progress visibilityScale floatIntensity time dummy i particles).
Proof.
  intros Hp Hf. revert dummy i.
  induction particles as [| p ps IH]; intros dummy i; simpl; constructor; [| apply IH].
  unfold floats_within, particle. rewrite Rlt_dec_true by lra.
  cbn [position rotation x y z].
  assert (Hi : 0 <= (1 - progress) * floatIntensity) by nra.
  repeat split.
  - replace (_ - _) with (cos (time * 0.3 + INR i) * ((1 - progress) * floatIntensity) * 0.02)
      by ring.
    rewrite Rmult_assoc. rewrite <- Rmult_assoc.
    apply scaled_wave; [apply COS_bound | assumption | lra].
  - replace (_ - _) with (sin (time * 0.5 + INR i) * ((1 - progress) * floatIntensity) * 0.05)
      by ring.
    apply scaled_wave; [apply SIN_bound | assumption | lra].
  - replace (sin (time * 0.2 + INR i) * 0.5 * ((1 - progress) * floatIntensity))
      with (sin (time * 0.2 + INR i) * ((1 - progress) * floatIntensity) * 0.5) by ring.
    apply scaled_wave; [apply SIN_bound | assumption | lra].
  - replace (cos (time * 0.3 + INR i) * 0.5 * ((1 - progress) * floatIntensity))
      with (cos (time * 0.3 + INR i) * ((1 - progress) * floatIntensity) * 0.5) by ring.
    apply scaled_wave; [apply COS_bound | assumption | lra].
Qed.

(** A gift box at progress 1 has exactly its pose under the tree, whatever
    the time; at progress 0 it is at its scatter position. *)
Theorem gift_settles (visScale elapsedTime : R) (data : GiftData) :
  giftPose 1 visScale elapsedTime data
  = {| position := gTreePos data;
       rotation := treeRot data;
       scale := vec visScale visScale visScale |} /\
  position (giftPose 0 visScale elapsedTime data) = gScatterPos data.
Proof.
  unfold giftPose, lerpVectors, lerp. split.
  - destruct (gTreePos data), (treeRot data). cbn [x y z]. f_equal; f_equal; ring.
  - cbn [position]. destruct (gScatterPos data). cbn [x y z]. f_equal; ring.
Qed.

End Instances.

(** ** The foliage shader *)

Section Shader.
Local Open Scope R_scope.
Import Three FoliageShader.

(** The noise of the foliage gives way to the image: with progress and
    image mix in [[0, 1]], a point is displaced from the mixed position by at
    most [0.8 * (1 - uProgress) * (1 - uImageMix)] along [y], at most
    [0.4 * (1 - uImageMix)] along [x] and not at all along [z]; from an image
    mix of 0.95 on there is no displacement, and at image mix 1 the point is
    exactly on its image position, whatever the progress and the time. *)
Theorem foliage_noise_bounded
        (uTime uProgress uImageMix aRandom : R) (scatterPos treePos imgPos : Vector3) :
  0 <= uProgress <= 1 -> 0 <= uImageMix <= 1 ->
  let base := mix3 (mix3 scatterPos treePos uProgress) imgPos uImageMix in
  let p := finalPos uTime uProgress uImageMix aRandom scatterPos treePos imgPos in
  (Rabs (x p - x base) <= 0.4 * (1 - uImageMix) /\
   Rabs (y p - y base) <= 0.8 * (1 - uProgress) * (1 - uImageMix) /\
   z p = z base) /\
  (0.95 <= uImageMix -> p = base) /\
  (uImageMix = 1 -> p = imgPos).
Proof.
  intros Hp Hi. cbv zeta.
  set (base := mix3 (mix3 scatterPos treePos uProgress) imgPos uImageMix).
  unfold finalPos. fold base.
  assert (Z : forall a, Rabs (a - a) <= 0.4 * (1 - uImageMix)).
  { intros a. unfold Rminus. rewrite Rplus_opp_r, Rabs_R0. nra. }
  assert (Z' : forall a, Rabs (a - a) <= 0.8 * (1 - uProgress) * (1 - uImageMix)).
  { intros a. unfold Rminus. rewrite Rplus_opp_r, Rabs_R0. nra. }
  repeat split.
  - destruct (Rlt_dec uImageMix 0.95); [| apply Z].
    destruct (Rlt_dec uProgress 0.99); cbn [x].
    + replace (_ - _) with
        (cos (uTime * 0.5 * 0.8 + aRandom * 10.0)
         * ((1.0 - uProgress) * 0.8 * (1.0 - uImageMix)) * 0.5) by ring.
      eapply Rle_trans; [apply scaled_wave; [apply COS_bound | nra | lra] | nra].
    + replace (_ - _) with
        (sin (uTime * 0.5 + y base) * 0.05 * (1.0 - uImageMix)) by ring.
      eapply Rle_trans; [apply scaled_wave; [apply SIN_bound | lra | lra] | nra].
  - destruct (Rlt_dec uImageMix 0.95); [| apply Z'].
    destruct (Rlt_dec uProgress 0.99); cbn [y]; [| apply Z'].
    replace (_ - _) with
      (sin (uTime * 0.5 + aRandom * 20.0)
       * ((1.0 - uProgress) * 0.8 * (1.0 - uImageMix)) * 1) by ring.
    eapply Rle_trans; [apply scaled_wave; [apply SIN_bound | nra | lra] | nra].
  - destruct (Rlt_dec uImageMix 0.95); [| reflexivity].
    destruct (Rlt_dec uProgress 0.99); reflexivity.
  - intros H. rewrite Rlt_dec_false by lra. reflexivity.
  - intros ->. rewrite Rlt_dec_false by lra.
    unfold base, mix3, mix. destruct imgPos as [ix iy iz]. cbn [x y z]. f_equal; ring.
Qed.

Lemma foliage_noise_bounded_witness :
  let s := vec 10 10 10 in
  let t := vec 1 2 3 in
  let i := vec 4 5 6 in
  0 <= 1 / 2 <= 1 /\ 0 <= 1 <= 1 /\ finalPos 7 (1 / 2) 1 (1 / 3) s t i = i.
Proof.
  intros s t i.
  assert (Hp : 0 <= 1 / 2 <= 1) by lra.
  assert (Hi : 0 <= 1 <= 1) by lra.
  split; [exact Hp | split; [exact Hi |]].
  exact (proj2 (proj2 (foliage_noise_bounded 7 (1 / 3) s t i Hp Hi)) eq_refl).
Defined.

End Shader.

(** ** The generated positions *)

Section Generated.
Local Open Scope R_scope.
Import Three Generators.

Lemma planar_norm (r a : R) : (r * cos a) * (r * cos a) + (r * sin a) * (r * sin a) = r * r.
Proof.
  pose proof (sin2_cos2 a) as H. unfold Rsqr in H.
  replace (r * cos a * (r * cos a) + r * sin a * (r * sin a))
    with (r * r * (sin a * sin a + cos a * cos a)) by ring.
  rewrite H. ring.
Qed.

Lemma planar_norm' (r a : R) : (cos a * r) * (cos a * r) + (sin a * r) * (sin a * r) = r * r.
Proof. rewrite <- (planar_norm r a). ring. Qed.

Lemma shell_norm (rmin spread u1 u2 u3 : R) :
  let p := shellPoint rmin spread u1 u2 u3 in
  x p * x p + y p * y p + z p * z p = (rmin + u1 * spread) * (rmin + u1 * spread).
Proof.
  cbv zeta. unfold shellPoint. cbn [x y z].
  set (r := rmin + u1 * spread). set (phi := acos (2 * u3 - 1)).
  set (theta := u2 * PI * 2).
  pose proof (sin2_cos2 phi) as H1. pose proof (sin2_cos2 theta) as H2.
  unfold Rsqr in *.
  replace (r * sin phi * cos theta * (r * sin phi * cos theta)
           + r * sin phi * sin theta * (r * sin phi * sin theta)
           + r * cos phi * (r * cos phi))
    with (r * r * (sin phi * sin phi * (sin theta * sin theta + cos theta * cos theta)
                   + cos phi * cos phi)) by ring.
  rewrite H2, Rmult_1_r, H1. ring.
Qed.

Lemma square_le (a b : R) : 0 <= a <= b -> a * a <= b * b.
Proof. intros H. nra. Qed.

Lemma square_lt (a b : R) : 0 <= a < b -> a * a < b * b.
Proof. intros H. nra. Qed.

Lemma nth_triples (f g h : nat -> R) (n s j : nat) (d : R) :
  (j < n)%nat ->
  let l := flat_map (fun i => [f i; g i; h i]) (seq s n) in
  nth (3 * j) l d = f (s + j)%nat /\
  nth (3 * j + 1) l d = g (s + j)%nat /\
  nth (3 * j + 2) l d = h (s + j)%nat.
Proof.
  cbv zeta. revert s j. induction n as [| n IH]; intros s j Hj; [lia |].
  destruct j as [| j].
  - simpl. rewrite Nat.add_0_r. repeat split.
  - replace (3 * S j)%nat with (S (S (S (3 * j)))) by lia.
    cbn [seq flat_map app nth Nat.add].
    destruct (IH (S s) j) as (A & B & C); [lia |].
    replace (s + S j)%nat with (S s + j)%nat by lia.
    repeat split; assumption.
Qed.

Lemma triples_length (f g h : nat -> R) (n s : nat) :
  length (flat_map (fun i => [f i; g i; h i]) (seq s n)) = (3 * n)%nat.
Proof.
  revert s. induction n as [| n IH]; intros s; [reflexivity |].
  cbn [seq flat_map app length]. rewrite IH. lia.
Qed.

(** The foliage buffers are aligned and their particles are where the
    layer wants them: with random numbers in [[0, 1)], the scatter and the
    tree buffer have three entries per particle and the random buffer one;
    every scatter position lies in the shell of radii 12 and 22 around the
    origin; every tree position lies at a height in [[-7.5, 7.5)] and inside
    the cone of base radius 6 whose apex is at height 7.5. *)
Theorem foliage_buffers_shape (count : nat) (random : nat -> R) :
  (forall k, unit (random k)) ->
  let '(positions, treePositions, randoms) := foliageBuffers count random in
  length positions = (3 * count)%nat /\
  length treePositions = (3 * count)%nat /\
  length randoms = count /\
  forall i, (i < count)%nat ->
    let sx := nth (3 * i) positions 0 in
    let sy := nth (3 * i + 1) positions 0 in
    let sz := nth (3 * i + 2) positions 0 in
    let tx := nth (3 * i) treePositions 0 in
    let ty := nth (3 * i + 1) treePositions 0 in
    let tz := nth (3 * i + 2) treePositions 0 in
    (12 * 12 <= sx * sx + sy * sy + sz * sz < 22 * 22) /\
    (- 7.5 <= ty < 7.5) /\
    (tx * tx + tz * tz < coneRadius 6 ty * coneRadius 6 ty).
Proof.
  intros Hr. unfold foliageBuffers.
  rewrite !triples_length, length_map, length_seq.
  split; [reflexivity | split; [reflexivity | split; [reflexivity |]]].
  intros i Hi. cbv zeta.
  pose proof (@nth_triples
                (fun i => x (foliageScatter (random (7 * i + 0)%nat)
                                            (random (7 * i + 1)%nat)
                                            (random (7 * i + 2)%nat)))
                (fun i => y (foliageScatter (random (7 * i + 0)%nat)
                                            (random (7 * i + 1)%nat)
                                            (random (7 * i + 2)%nat)))
                (fun i => z (foliageScatter (random (7 * i + 0)%nat)
                                            (random (7 * i + 1)%nat)
                                            (random (7 * i + 2)%nat)))
                count 0 i 0 Hi) as (S1 & S2 & S3).
  pose proof (@nth_triples
                (fun i => x (foliageTree (random (7 * i + 3)%nat)
                                         (random (7 * i + 4)%nat)
                                         (random (7 * i + 5)%nat)))
                (fun i => y (foliageTree (random (7 * i + 3)%nat)
                                         (random (7 * i + 4)%nat)
                                         (random (7 * i + 5)%nat)))
                (fun i => z (foliageTree (random (7 * i + 3)%nat)
                                         (random (7 * i + 4)%nat)
                                         (random (7 * i + 5)%nat)))
                count 0 i 0 Hi) as (T1 & T2 & T3).
  cbv zeta in S1, S2, S3, T1, T2, T3. cbn [Nat.add] in S1, S2, S3, T1, T2, T3.
  rewrite S1, S2, S3, T1, T2, T3. clear S1 S2 S3 T1 T2 T3.
  destruct (Hr (7 * i + 0)%nat) as [A0 A1].
  destruct (Hr (7 * i + 3)%nat) as [B0 B1].
  destruct (Hr (7 * i + 5)%nat) as [C0 C1].
  set (u1 := random (7 * i + 0)%nat) in *. set (u4 := random (7 * i + 3)%nat) in *.
  set (u6 := random (7 * i + 5)%nat) in *.
  split; [| split].
  - unfold foliageScatter. rewrite shell_norm.
    split; [apply square_le | apply square_lt]; lra.
  - unfold foliageTree, height. cbn [y]. lra.
  - unfold foliageTree, coneRadius, height. cbn [x y z].
    rewrite planar_norm.
    assert (Hs : 0 <= sqrt u6 < 1).
    { split; [apply sqrt_pos |]. rewrite <- sqrt_1. apply sqrt_lt_1; lra. }
    replace (6 * (1 - (u4 * 15 - 15 / 2 + 15 / 2) / 15)) with (6 * (1 - u4)) by field.
    apply square_lt. split; nra.
Qed.

End Generated.

Section Decorations.
Local Open Scope R_scope.
Import Three Generators.

(** The ribbon of beads stays clear of the star: with random numbers in
    [[0, 1)], every bead is at a height between -7.5 and 6.6, below the star
    at 7.8, within 0.15 of the evenly spaced height of its index, and on the
    cone of base radius 6.4 or at most 0.2 outside it. *)
Theorem beads_below_star (i count : nat) (u1 u2 u3 : R) :
  unit u1 -> unit u2 -> unit u3 -> (i < count)%nat ->
  let p := beadTree i count u1 u2 u3 in
  (- 7.5 <= y p <= 6.6 /\ y p < 7.8) /\
  Rabs (y p - (INR i / INR count * 0.94 * height - height / 2)) <= 0.15 /\
  (coneRadius 6.4 (y p) * coneRadius 6.4 (y p) <= x p * x p + z p * z p
   < (coneRadius 6.4 (y p) + 0.2) * (coneRadius 6.4 (y p) + 0.2)).
Proof.
  intros [A0 A1] [B0 B1] [C0 C1] Hi. cbv zeta. unfold beadTree.
  set (hBase := INR i / INR count).
  assert (Hc : 0 < INR count) by (apply lt_0_INR; lia).
  assert (Hb : 0 <= hBase < 1).
  { unfold hBase. split.
    - apply Rmult_le_pos; [apply pos_INR | left; apply Rinv_0_lt_compat, Hc].
    - apply Rmult_lt_reg_r with (INR count); [exact Hc |].
      unfold Rdiv. rewrite Rmult_assoc, Rinv_l, Rmult_1_r, Rmult_1_l by lra.
      apply lt_INR, Hi. }
  set (v := hBase * 0.94 + (u1 - 0.5) * 0.02).
  set (h := Rmax 0 (Rmin 0.94 v)).
  assert (Hh : 0 <= h <= 0.94).
  { unfold h. split; [apply Rmax_l |].
    apply Rmax_lub; [lra | apply Rmin_l]. }
  assert (Hv : - 0.01 <= h - hBase * 0.94 <= 0.01).
  { unfold h, Rmax, Rmin, v.
    destruct (Rle_dec 0.94 (hBase * 0.94 + (u1 - 0.5) * 0.02));
      destruct (Rle_dec 0 _); lra. }
  cbn [x y z]. unfold coneRadius. unfold height.
  repeat split; try lra.
  - apply Rabs_le. lra.
  - rewrite planar_norm.
    replace (6.4 * (1 - (h * 15 - 15 / 2 + 15 / 2) / 15)) with (6.4 * (1 - h)) by field.
    apply square_le. nra.
  - rewrite planar_norm.
    replace (6.4 * (1 - (h * 15 - 15 / 2 + 15 / 2) / 15)) with (6.4 * (1 - h)) by field.
    apply square_lt. nra.
Qed.

Lemma beads_below_star_witness :
  unit (1 / 2) /\ (299 < 300)%nat /\
  y (beadTree 299 300 (1 / 2) (1 / 2) (1 / 2)) < 7.8.
Proof.
  assert (U : unit (1 / 2)) by (unfold unit; lra).
  assert (H : (299 < 300)%nat) by lia.
  split; [exact U | split; [exact H |]].
  destruct (beads_below_star U U U H) as ((_ & L) & _). exact L.
Defined.

(** The lights are inside the foliage and the ornaments just outside it:
    with random numbers in [[0, 1)], a light is at a horizontal distance
    between 0.3 and 0.8 times the radius of the foliage cone at its height;
    an ornament generated for the band [[minH, maxH]] of the height, within
    [[0, 1]], is at a height inside that band and at a horizontal distance
    between 0.1 and 0.4 beyond the radius of the cone. *)
Theorem decor_around_foliage (minH maxH u1 u2 u3 : R) :
  unit u1 -> unit u2 -> unit u3 -> 0 <= minH <= maxH -> maxH <= 1 ->
  let l := lightTree u1 u2 u3 in
  let o := decorTree minH maxH u1 u2 u3 in
  ((0.3 * coneRadius 6 (y l)) * (0.3 * coneRadius 6 (y l))
   <= x l * x l + z l * z l
   < (0.8 * coneRadius 6 (y l)) * (0.8 * coneRadius 6 (y l))) /\
  (minH * height - height / 2 <= y o <= maxH * height - height / 2) /\
  ((coneRadius 6 (y o) + 0.1) * (coneRadius 6 (y o) + 0.1)
   <= x o * x o + z o * z o
   < (coneRadius 6 (y o) + 0.4) * (coneRadius 6 (y o) + 0.4)).
Proof.
  intros [A0 A1] [B0 B1] [C0 C1] Hm HM. cbv zeta.
  unfold lightTree, decorTree, coneRadius. unfold height. cbn [x y z].
  rewrite !planar_norm'.
  replace (6 * (1 - (u1 * 15 - 15 / 2 + 15 / 2) / 15)) with (6 * (1 - u1)) by field.
  replace (6 * (1 - ((minH + u1 * (maxH - minH)) * 15 - 15 / 2 + 15 / 2) / 15))
    with (6 * (1 - (minH + u1 * (maxH - minH)))) by field.
  replace (6.0 * (1 - u1)) with (6 * (1 - u1)) by lra.
  replace (6.0 * (1 - (minH + u1 * (maxH - minH))))
    with (6 * (1 - (minH + u1 * (maxH - minH)))) by lra.
  assert (Hh : minH <= minH + u1 * (maxH - minH) <= maxH) by nra.
  repeat split.
  - apply square_le. nra.
  - apply square_lt. nra.
  - lra.
  - lra.
  - apply square_le. nra.
  - apply square_lt. nra.
Qed.

Lemma decor_around_foliage_witness :
  let o := decorTree 0.1 0.9 (1 / 2) (1 / 2) (1 / 2) in
  unit (1 / 2) /\ 0 <= 0.1 <= 0.9 /\ 0.9 <= 1 /\
  0.1 * height - height / 2 <= y o <= 0.9 * height - height / 2.
Proof.
  intros o.
  assert (U : unit (1 / 2)) by (unfold unit; lra).
  assert (Hm : 0 <= 0.1 <= 0.9) by lra.
  assert (HM : 0.9 <= 1) by lra.
  split; [exact U | split; [exact Hm | split; [exact HM |]]].
  exact (proj1 (proj2 (decor_around_foliage U U U Hm HM))).
Defined.

(** The gifts stand on the floor around the tree: with random numbers in
    [[0, 1)], the bottom face of every gift box, small or large, is at
    height -8 whatever its size, and its centre is at a horizontal distance
    of at least 6.5 (at least 7 for a large one) and less than 10.5 from the
    axis, beyond the base radius 6.4 of the bead ribbon. *)
Theorem gifts_on_floor (i : nat) (u1 u2 a b c : R) :
  unit u1 -> unit u2 -> unit a -> unit b -> unit c ->
  let size := giftSize a b c in
  let p := giftTree i u1 u2 (y size) in
  let lsize := largeGiftSize a b c in
  let q := largeGiftTree u1 u2 (y lsize) in
  (y p - y size / 2 = -8 /\ 0 < y size /\
   6.5 * 6.5 <= x p * x p + z p * z p < 10.5 * 10.5) /\
  (y q - y lsize / 2 = -8 /\ 0 < y lsize /\
   7 * 7 <= x q * x q + z q * z q < 10.5 * 10.5).
Proof.
  intros [A0 A1] [B0 B1] [C0 C1] [D0 D1] [E0 E1]. cbv zeta.
  unfold giftTree, largeGiftTree, giftSize, largeGiftSize, vec. cbn [x y z].
  rewrite !planar_norm'.
  repeat split; try lra.
  - apply square_le. lra.
  - apply square_lt. lra.
  - apply square_le. lra.
  - apply square_lt. lra.
Qed.

Lemma gifts_on_floor_witness :
  let size := giftSize (1 / 2) (1 / 2) (1 / 2) in
  unit (1 / 2) /\ y (giftTree 3 (1 / 2) (1 / 2) (y size)) - y size / 2 = -8.
Proof.
  intros size.
  assert (U : unit (1 / 2)) by (unfold unit; lra).
  split; [exact U |].
  destruct (@gifts_on_floor 3 _ _ _ _ _ U U U U U) as ((L & _) & _). exact L.
Defined.

Lemma foliage_buffers_shape_witness :
  (forall k : nat, unit ((fun _ => 1 / 2) k)) /\
  length (fst (fst (foliageBuffers 2 (fun _ => 1 / 2)))) = 6%nat /\
  length (snd (fst (foliageBuffers 2 (fun _ => 1 / 2)))) = 6%nat.
Proof.
  assert (U : forall k : nat, unit ((fun _ => 1 / 2) k)) by (intros k; unfold unit; lra).
  split; [exact U |].
  pose proof (foliage_buffers_shape 2 (fun _ => 1 / 2) U) as T.
  unfold foliageBuffers in T. destruct T as (L1 & L2 & _).
  split; [exact L1 | exact L2].
Defined.

End Decorations.

Section MoreExamples.
Import ImageToParticles Examples.

Lemma forall_below (n : nat) (P : nat -> bool) :
  forallb P (seq 0 n) = true -> forall k, (k < n)%nat -> P k = true.
Proof.
  intros H k Hk. rewrite forallb_forall in H. apply H, in_seq. lia.
Qed.

Lemma sampled_points_in_box_witness :
  let out := resample boundary_browser (analyze boundary_image 1) 1 1 in
  random_ok boundary_browser /\ analyze boundary_image 1 <> [] /\ (0 < 1)%nat /\
  (-8 <= nth (0 * 3) out 0 /\ nth (0 * 3) out 0 < 8)%Q.
Proof.
  intros out.
  assert (Hr : random_ok boundary_browser)
    by (intros k; split; [apply Qle_refl | reflexivity]).
  assert (Hne : analyze boundary_image 1 <> []) by (vm_compute; discriminate).
  assert (Hi : (0 < 1)%nat) by lia.
  split; [exact Hr | split; [exact Hne | split; [exact Hi |]]].
  exact (proj1 (@sampled_points_in_box boundary_browser boundary_image 1 1 0 Hr Hne Hi)).
Defined.

Lemma transparent_image_gives_zeros_witness :
  let img := {| img_width := 400; img_height := 1 |} in
  decode transparent_browser = Some img /\ canvasHeight img <> 0%nat /\
  imageToPoints transparent_browser 2 = Fulfilled (zeros (2 * 3)).
Proof.
  intros img.
  assert (Hd : decode transparent_browser = Some img) by reflexivity.
  assert (Hh : canvasHeight img <> 0%nat) by (vm_compute; discriminate).
  assert (Ha : forall x y, (x < width)%nat -> (y < canvasHeight img)%nat ->
                (getAlpha (pixels transparent_browser) (canvasHeight img) x y < 50)%Z).
  { assert (E : canvasHeight img = 1%nat) by reflexivity. rewrite E.
    intros x y Hx Hy. replace y with 0%nat by lia.
    apply Z.ltb_lt.
    apply (@forall_below width
             (fun k => (getAlpha (pixels transparent_browser) 1 k 0 <? 50)%Z));
      [vm_compute; reflexivity | exact Hx]. }
  split; [exact Hd | split; [exact Hh |]].
  exact (proj2 (@transparent_image_gives_zeros transparent_browser img 2 Hd Hh Ha)).
Defined.

Lemma uniform_image_candidates_witness :
  (180 <= 200)%Q /\ (200 <= 255)%Q /\
  (pushed 5 0 (analyze gray_image 1) <->
   (5 < width)%nat /\ (0 < 1)%nat /\ (200 < 240)%Q /\ (6%nat = width \/ 1%nat = 1%nat)).
Proof.
  assert (H180 : (180 <= 200)%Q) by (vm_compute; discriminate).
  assert (H255 : (200 <= 255)%Q) by (vm_compute; discriminate).
  assert (Hu : forall x y, (x < width)%nat -> (y < 1)%nat ->
                 (50 <= getAlpha gray_image 1 x y)%Z /\ getLum gray_image 1 x y == 200).
  { intros x y Hx Hy. replace y with 0%nat by lia.
    pose proof (@forall_below width
                  (fun k => (50 <=? getAlpha gray_image 1 k 0)%Z
                            && Qeq_bool (getLum gray_image 1 k 0) 200)) as F.
    assert (Hc : forallb (fun k => (50 <=? getAlpha gray_image 1 k 0)%Z
                                   && Qeq_bool (getLum gray_image 1 k 0) 200)
                         (seq 0 width) = true) by (vm_compute; reflexivity).
    specialize (F Hc x Hx). apply andb_true_iff in F. destruct F as [F1 F2].
    split; [apply Z.leb_le, F1 | apply Qeq_bool_iff, F2]. }
  split; [exact H180 | split; [exact H255 |]].
  exact (@uniform_image_candidates gray_image 1 200 Hu H180 H255 5%nat 0%nat).
Defined.

Lemma image_attribute_aligned_witness :
  let tree := [1; 2; 3]%Q in
  length tree = (3 * 1)%nat /\
  exists g,
    FoliageSupplies.supplied 1 tree (Some (FoliageLayer.render tree))
      [Some [7; 8; 9]%Q; Some [1]%Q; None] = Some g /\
    FoliageLayer.aTreePos g = tree /\
    length (FoliageLayer.aImagePos g) = (3 * 1)%nat.
Proof.
  intros tree.
  assert (H : length tree = (3 * 1)%nat) by reflexivity.
  split; [exact H |].
  exact (@image_attribute_aligned 1 tree [Some [7; 8; 9]%Q; Some [1]%Q; None] H).
Defined.

End MoreExamples.

Section MixerExamples.
Local Open Scope R_scope.
Import Three Mixer.

Lemma instances_float_bounded_witness :
  let p := {| treePos := vec 1 2 3; scatterPos := vec 10 20 30;
              iscale := vec 1 1 1; irotation := None |} in
  let dummy := {| position := vec 0 0 0; rotation := vec 0 0 0; scale := vec 1 1 1 |} in
  0 <= 1 / 2 < 1 /\ 0 <= 1.5 /\
  Forall2 (floats_within (1 / 2) 1.5) [p] (instances (1 / 2) 1 1.5 0 dummy 0 [p]).
Proof.
  intros p dummy.
  assert (Hp : 0 <= 1 / 2 < 1) by lra.
  assert (Hf : 0 <= 1.5) by lra.
  split; [exact Hp | split; [exact Hf |]].
  exact (@instances_float_bounded (1 / 2) 1 1.5 0 dummy 0 [p] Hp Hf).
Defined.

End MixerExamples.
